(** * ScreenshotManager: the annotation stack and the screenshot collection

    A shallow embedding of [screenshot-manager.py]:
    - [ScreenshotEditor]: the list of drawn graphics items with its undo and
      redo lists, the pointer handlers that create and reshape items, and
      the [changed] flag;
    - [ScreenshotListItem] and [ScreenshotList]: the list widget holding one
      row per screenshot, kept in order by [sortItems], fed by a folder scan
      and by a plain-text file list;
    - [MainWindow]: the tabs of the open editors with the dict
      [screenshot_tabs], the toolbars that follow the current tab, closing a
      tab, the close event and the middle button on the tab bar;
    - [WatchdogFilesystemHandler], [reload_file_watcher] and the constructor
      of the list.

    Modelling conventions.
    - Scene coordinates (Qt's [qreal]) and modification times (Python
      floats) are integers [Z]: the code only subtracts and compares them.
      A difference in a statement is the difference the code computes; no
      theorem uses that adding a difference back gives the first number,
      which holds for integers and not for rounded numbers.
    - Python objects that are shared and mutated in place (the graphics
      items, referenced both from [items]/[redo_items] and from the scene)
      live in a heap indexed by handles.
    - A Python exception leaves the object in the state reached so far, so
      effectful methods return the exception or the result together with the
      state.
    - The file system, the configuration singleton and the clock are read
      by the code; they are explicit arguments here.
    - Of Qt's tab widget the model has what the window relies on: page 0 is
      the screenshot list, [currentChanged] is emitted when the current
      index changes, and when the current page is removed the page to its
      right, or else the last one, becomes current. The answer the user
      gives in a dialog is an argument.
    - A handler of the file watcher runs to its end before the next call on
      the list; the calls made on the observer are recorded in order. *)

From stdpp Require Import gmap strings list sorting.
From Stdlib Require Import ZArith Lia.

Local Open Scope Z_scope.

(** ** Exceptions and the state monad that carries them *)

(** The exceptions the code lets through. [OtherError] is any other Python
    exception, by the name of its class: [ValueError] or [OverflowError]
    from [datetime], [PermissionError] or [UnicodeDecodeError] from reading
    a file, and so on. *)
Inductive exn :=
  | FileNotFoundError (path : string)
  | IndexError
  | AttributeError
  | OtherError (class_name : string).

Definition Eff (S A : Type) : Type := S → (exn + A) * S.

Global Instance Eff_ret {S} : MRet (Eff S) := λ A a s, (inr a, s).

Global Instance Eff_bind {S} : MBind (Eff S) := λ A B k m s,
  match m s with
  | (inr a, s') => k a s'
  | (inl e, s') => (inl e, s')
  end.

Definition raise {S A} (e : exn) : Eff S A := λ s, (inl e, s).

Definition modify {S} (f : S → S) : Eff S unit := λ s, (inr tt, f s).

(** A Python [for x in l: f(x)] whose body may raise. *)
Fixpoint for_each {S A} (f : A → Eff S unit) (l : list A) : Eff S unit :=
  match l with
  | [] => mret tt
  | x :: r => f x ;; for_each f r
  end.

(** The state an effectful call leaves behind, raised or not. *)
Definition state_of {S A} (r : (exn + A) * S) : S := r.2.

Definition raised {S A} (r : (exn + A) * S) : option exn :=
  match r.1 with inl e => Some e | inr _ => None end.

(** [P] holds of the state a call leaves, raised or not, whenever it held
    of the state the call found. *)
Definition preserves {S A} (P : S → Prop) (m : Eff S A) : Prop :=
  ∀ s, P s → P (state_of (m s)).

(** ** The annotation editor *)

Module Editor.

Inductive DrawingStyle := NONE | ELLIPSE | PEN | RECT.

Global Instance DrawingStyle_eq_dec : EqDecision DrawingStyle.
Proof. solve_decision. Defined.

Record QPointF := mkPoint { px : Z; py : Z }.

Record QRectF := mkRect { rx : Z; ry : Z; rw : Z; rh : Z }.

Record QLineF := mkLine { lx1 : Z; ly1 : Z; lx2 : Z; ly2 : Z }.

Global Instance QPointF_eq_dec : EqDecision QPointF.
Proof. solve_decision. Defined.

Global Instance QRectF_eq_dec : EqDecision QRectF.
Proof. solve_decision. Defined.

(** The graphics items the editor creates: [scene.createItemGroup([])]
    with the lines later added to the group, [scene.addEllipse] and
    [scene.addRect]. *)
Inductive QGraphicsItem :=
  | ItemGroup (lines : list QLineF)
  | EllipseItem (rect : QRectF)
  | RectItem (rect : QRectF).

Definition handle := nat.

(** The attributes of [ScreenshotEditor] set in [__init__]. [scene] lists the
    handles of the items shown by the [QGraphicsScene] over the photo, in the
    order they were added; [heap] holds every item object created so far. *)
Record ScreenshotEditor := mkEditor {
  changed : bool;
  items : list handle;
  redo_items : list handle;
  mouse_pressed : bool;
  previous_point : option QPointF;
  drawing_style : DrawingStyle;
  scene : list handle;
  heap : gmap handle QGraphicsItem
}.

Definition init : ScreenshotEditor :=
  {| changed := false; items := []; redo_items := [];
     mouse_pressed := false; previous_point := None;
     drawing_style := PEN; scene := []; heap := ∅ |}.

Definition set_changed (b : bool) (s : ScreenshotEditor) :=
  mkEditor b (items s) (redo_items s) (mouse_pressed s) (previous_point s)
           (drawing_style s) (scene s) (heap s).

Definition set_items (l : list handle) (s : ScreenshotEditor) :=
  mkEditor (changed s) l (redo_items s) (mouse_pressed s) (previous_point s)
           (drawing_style s) (scene s) (heap s).

Definition set_redo_items (l : list handle) (s : ScreenshotEditor) :=
  mkEditor (changed s) (items s) l (mouse_pressed s) (previous_point s)
           (drawing_style s) (scene s) (heap s).

Definition set_mouse_pressed (b : bool) (s : ScreenshotEditor) :=
  mkEditor (changed s) (items s) (redo_items s) b (previous_point s)
           (drawing_style s) (scene s) (heap s).

Definition set_previous_point (p : option QPointF) (s : ScreenshotEditor) :=
  mkEditor (changed s) (items s) (redo_items s) (mouse_pressed s) p
           (drawing_style s) (scene s) (heap s).

Definition set_scene (l : list handle) (s : ScreenshotEditor) :=
  mkEditor (changed s) (items s) (redo_items s) (mouse_pressed s)
           (previous_point s) (drawing_style s) l (heap s).

Definition set_heap (h : gmap handle QGraphicsItem) (s : ScreenshotEditor) :=
  mkEditor (changed s) (items s) (redo_items s) (mouse_pressed s)
           (previous_point s) (drawing_style s) (scene s) h.

(** [set_drawing_style] *)
Definition set_drawing_style (style : DrawingStyle) (s : ScreenshotEditor) :=
  mkEditor (changed s) (items s) (redo_items s) (mouse_pressed s)
           (previous_point s) style (scene s) (heap s).

(** *** The scene *)

(** [QGraphicsScene.addItem]: an item already in the scene is not added a
    second time. *)
Definition scene_addItem (h : handle) (s : ScreenshotEditor) :=
  if decide (h ∈ scene s) then s else set_scene (scene s ++ [h]) s.

(** [QGraphicsScene.removeItem] *)
Definition scene_removeItem (h : handle) (s : ScreenshotEditor) :=
  set_scene (filter (λ h', h' ≠ h) (scene s)) s.

(** [scene.createItemGroup], [scene.addEllipse], [scene.addRect]: a new
    object is allocated and added to the scene; the call returns it. *)
Definition scene_new (it : QGraphicsItem) (s : ScreenshotEditor)
  : handle * ScreenshotEditor :=
  let h := fresh (dom (heap s)) in
  (h, scene_addItem h (set_heap (<[h := it]> (heap s)) s)).

(** *** [add_item], [undo], [redo], [save] *)

Definition add_item (h : handle) (s : ScreenshotEditor) :=
  set_redo_items [] (set_items (items s ++ [h]) s).

(** [list.pop()]: the last element and the list without it. *)
Definition pop {A} (l : list A) : option (A * list A) :=
  match last l with
  | Some x => Some (x, removelast l)
  | None => None
  end.

Definition undo (s : ScreenshotEditor) :=
  match pop (items s) with
  | Some (item, rest) =>
      scene_removeItem item
        (set_redo_items (redo_items s ++ [item]) (set_items rest s))
  | None => s
  end.

Definition redo (s : ScreenshotEditor) :=
  match pop (redo_items s) with
  | Some (item, rest) =>
      scene_addItem item
        (set_items (items s ++ [item]) (set_redo_items rest s))
  | None => s
  end.

(** [save]: the rendered image goes to the file; of the editor's state only
    [changed] is written. *)
Definition save (s : ScreenshotEditor) := set_changed false s.

(** [render_to_image]: what the scene paints over the photo, bottom to top. *)
Definition render_to_image (s : ScreenshotEditor) : list QGraphicsItem :=
  omap (λ h, heap s !! h) (scene s).

(** *** Pointer handlers *)

(** [mousePressEvent]; [under] is [self.photo.isUnderMouse()] and [pos] is
    [self.mapToScene(event.pos())]. *)
Definition mousePressEvent (under : bool) (pos : QPointF)
    (s : ScreenshotEditor) : ScreenshotEditor :=
  if under then
    let s1 := set_previous_point (Some pos) (set_mouse_pressed true s) in
    match drawing_style s1 with
    | PEN =>
        let '(h, s2) := scene_new (ItemGroup []) s1 in add_item h s2
    | ELLIPSE =>
        let '(h, s2) := scene_new (EllipseItem (mkRect (px pos) (py pos) 0 0)) s1 in
        add_item h s2
    | RECT =>
        let '(h, s2) := scene_new (RectItem (mkRect (px pos) (py pos) 0 0)) s1 in
        add_item h s2
    | NONE => s1
    end
  else s.

Definition mouseReleaseEvent (s : ScreenshotEditor) := set_mouse_pressed false s.

(** [item.setRect]: ellipse and rectangle items have the method, an item
    group does not. *)
Definition setRect (r : QRectF) (it : QGraphicsItem) : option QGraphicsItem :=
  match it with
  | EllipseItem _ => Some (EllipseItem r)
  | RectItem _ => Some (RectItem r)
  | ItemGroup _ => None
  end.

(** [item_group.addToGroup(self.scene.addLine(...))]: the line becomes a
    child of the group; an ellipse or rectangle item has no such method. *)
Definition addToGroup (l : QLineF) (it : QGraphicsItem) : option QGraphicsItem :=
  match it with
  | ItemGroup ls => Some (ItemGroup (ls ++ [l]))
  | _ => None
  end.

(** [self.items[-1]] followed by a method call on the item that replaces
    its value in place. *)
Definition update_last (f : QGraphicsItem → option QGraphicsItem)
    : Eff ScreenshotEditor unit :=
  λ s, match last (items s) with
       | None => (inl IndexError, s)
       | Some h =>
           match heap s !! h ≫= f with
           | None => (inl AttributeError, s)
           | Some it' => (inr tt, set_heap (<[h := it']> (heap s)) s)
           end
       end.

Definition mouseMoveEvent (under : bool) (current_point : QPointF)
    : Eff ScreenshotEditor unit :=
  λ s,
  if mouse_pressed s && under then
    match drawing_style s, previous_point s with
    | NONE, _ => (inr tt, s)
    | PEN, Some prev =>
        (update_last (addToGroup (mkLine (px prev) (py prev)
                                         (px current_point) (py current_point))) ;;
         modify (set_previous_point (Some current_point)) ;;
         modify (set_changed true)) s
    | (ELLIPSE | RECT), Some prev =>
        (update_last (setRect (mkRect (px prev) (py prev)
                                      (px current_point - px prev)
                                      (py current_point - py prev))) ;;
         modify (set_changed true)) s
    | _, None =>
        match last (items s) with
        | None => (inl IndexError, s)
        | Some _ => (inl AttributeError, s)
        end
    end
  else (inr tt, s).

(** *** Event traces *)

Inductive event :=
  | MousePress (under : bool) (pos : QPointF)
  | MouseMove (under : bool) (pos : QPointF)
  | MouseRelease
  | SetDrawingStyle (style : DrawingStyle)
  | Undo
  | Redo
  | Save.

(** One event delivered by the Qt event loop; an exception raised by a
    handler is reported and the editor lives on in the state reached. *)
Definition step (s : ScreenshotEditor) (e : event) : ScreenshotEditor :=
  match e with
  | MousePress u p => mousePressEvent u p s
  | MouseMove u p => state_of (mouseMoveEvent u p s)
  | MouseRelease => mouseReleaseEvent s
  | SetDrawingStyle st => set_drawing_style st s
  | Undo => undo s
  | Redo => redo s
  | Save => save s
  end.

Definition run (evs : list event) (s : ScreenshotEditor) : ScreenshotEditor :=
  foldl step s evs.

(** The rectangle of the item on top of the stack, if it has one. *)
Definition item_rect (it : QGraphicsItem) : option QRectF :=
  match it with
  | EllipseItem r | RectItem r => Some r
  | ItemGroup _ => None
  end.

Definition last_rect (s : ScreenshotEditor) : option QRectF :=
  last (items s) ≫= λ h, heap s !! h ≫= item_rect.

(** The scene shows exactly the stack, no item object is on the stacks
    twice, and every item on them has been allocated. *)
Definition wf (s : ScreenshotEditor) : Prop :=
  scene s = items s
  ∧ NoDup (items s ++ redo_items s)
  ∧ ∀ h, h ∈ items s ++ redo_items s → h ∈ dom (heap s).

(** A gesture in progress on an ellipse or rectangle anchored at [anchor]:
    the button is down, the anchor is remembered, and the item on top of the
    stack is the ellipse or rectangle being shaped. *)
Definition dragging_box (anchor : QPointF) (s : ScreenshotEditor) : Prop :=
  mouse_pressed s = true
  ∧ previous_point s = Some anchor
  ∧ (drawing_style s = ELLIPSE ∨ drawing_style s = RECT)
  ∧ ∃ h it, last (items s) = Some h ∧ heap s !! h = Some it
            ∧ is_Some (item_rect it).

(** The corner a stored rectangle starts from. *)
Definition corner1 (r : QRectF) : QPointF := mkPoint (rx r) (ry r).

(** The box the specification asks for between two points: top-left corner
    first, width and height non-negative. *)
Definition spanned_box (a b : QPointF) : QRectF :=
  mkRect (Z.min (px a) (px b)) (Z.min (py a) (py b))
         (Z.abs (px b - px a)) (Z.abs (py b - py a)).

End Editor.

(** ** The screenshot list *)

Module Screenshots.

(** *** The file system, the configuration and the clock *)

(** A regular file: its modification time, the size [QImage] decodes from
    it ([None] when it is not a decodable image) and the lines [readlines]
    returns. *)
Record File := mkFile {
  mtime : Z;
  decoded_size : option (Z * Z);
  lines : list string
}.

(** The disk and the platform, as the code sees them. [files] maps the path
    of every regular file to the file; [tree] maps the path of every
    directory to the full paths [os.walk] reports beneath it (each
    [os.path.join(root, file)], in walk order; they need not be regular
    files). [others] says what [os.path.getmtime] gives for a path that is
    not a regular file: the time of a directory, FIFO, socket or device, or
    the exception when the path cannot be examined; a path in neither map
    does not exist. [time_error] is the exception that
    [datetime.fromtimestamp(t).strftime("%c")] raises for a time [t] that
    the platform cannot show as a date, [None] when it returns.
    [read_error] is the exception that [open] or [readlines] raises for a
    file that cannot be read as text. *)
Record FileSystem := mkFS {
  files : gmap string File;
  tree : gmap string (list string);
  others : gmap string (exn + Z);
  time_error : Z → option exn;
  read_error : gmap string exn
}.

Definition isfile (fs : FileSystem) (path : string) : bool :=
  bool_decide (is_Some (files fs !! path)).

Definition isdir (fs : FileSystem) (path : string) : bool :=
  bool_decide (is_Some (tree fs !! path)).

Definition walk (fs : FileSystem) (path : string) : list string :=
  default [] (tree fs !! path).

(** [os.path.getmtime]: the time of whatever is at the path, a regular
    file or not; it raises [FileNotFoundError] when nothing is there. *)
Definition getmtime (fs : FileSystem) (path : string) : exn + Z :=
  match files fs !! path with
  | Some f => inr (mtime f)
  | None => default (inl (FileNotFoundError path)) (others fs !! path)
  end.

(** [QtGui.QImage(path).size()]: a file that is missing or is not an image
    gives the null image, of size 0 x 0, and no exception. *)
Definition QImage_size (fs : FileSystem) (path : string) : Z * Z :=
  default (0, 0) (files fs !! path ≫= decoded_size).

Record Config := mkConfig {
  screenshot_source_folder_use : bool;
  screenshot_source_folder_path : string;
  screenshot_source_filelist_use : bool;
  screenshot_source_filelist_path : string
}.

(** [str.strip()]. A string here is the UTF-8 text of a Python [str], as a
    path is on disk. [whitespace] lists the characters [strip] takes off, in
    UTF-8: U+0009 to U+000D, U+001C to U+0020, U+0085, U+00A0, U+1680,
    U+2000 to U+200A, U+2028, U+2029, U+202F, U+205F and U+3000. *)
Definition whitespace : list (list N) :=
  [[9]; [10]; [11]; [12]; [13]; [28]; [29]; [30]; [31]; [32];
   [194; 133]; [194; 160]; [225; 154; 128];
   [226; 128; 128]; [226; 128; 129]; [226; 128; 130]; [226; 128; 131];
   [226; 128; 132]; [226; 128; 133]; [226; 128; 134]; [226; 128; 135];
   [226; 128; 136]; [226; 128; 137]; [226; 128; 138];
   [226; 128; 168]; [226; 128; 169]; [226; 128; 175]; [226; 129; 159];
   [227; 128; 128]]%N.

Fixpoint starts_with (w : list N) (s : string) : bool :=
  match w, s with
  | [], _ => true
  | n :: w', String a r => (Ascii.N_of_ascii a =? n)%N && starts_with w' r
  | _ :: _, EmptyString => false
  end.

(** The number of bytes of the character of [ws] that [s] starts with, 0
    when it starts with none. *)
Definition space_width (ws : list (list N)) (s : string) : nat :=
  match filter (λ w, starts_with w s = true) ws with
  | w :: _ => length w
  | [] => 0%nat
  end.

(** Takes the characters of [ws] off the front of [s]; [skip] counts the
    bytes still to drop of the character found last. *)
Fixpoint strip_front (ws : list (list N)) (skip : nat) (s : string) : string :=
  match s with
  | EmptyString => EmptyString
  | String _ r =>
      match skip with
      | S k => strip_front ws k r
      | O =>
          match space_width ws s with
          | O => s
          | S k => strip_front ws k r
          end
      end
  end.

Definition lstrip (s : string) : string := strip_front whitespace 0 s.

Definition rstrip (s : string) : string :=
  String.rev (strip_front (reverse <$> whitespace) 0 (String.rev s)).

Definition strip (s : string) : string := rstrip (lstrip s).

(** *** [ScreenshotListItem] *)

Record ScreenshotListItem := mkItem {
  file_path : string;
  timestamp : Z;
  image_size : Z * Z
}.

(** [ScreenshotListItem(file_path)], that is [__init__] and [load]: the
    image, the time, and the text of the row, for which the time is
    formatted as a date. *)
Definition ScreenshotListItem_load (fs : FileSystem) (path : string)
    : exn + ScreenshotListItem :=
  let size := QImage_size fs path in
  match getmtime fs path with
  | inr t =>
      match time_error fs t with
      | None => inr (mkItem path t size)
      | Some e => inl e
      end
  | inl e => inl e
  end.

(** [__lt__] *)
Definition item_lt (self other : ScreenshotListItem) : bool :=
  timestamp other <? timestamp self.

(** *** [ScreenshotList] *)

Record ScreenshotList := mkList {
  rows : list ScreenshotListItem;
  old_filelist : gset string
}.

Definition init : ScreenshotList := mkList [] ∅.

Definition set_rows (l : list ScreenshotListItem) (s : ScreenshotList) :=
  mkList l (old_filelist s).

Definition set_old_filelist (k : gset string) (s : ScreenshotList) :=
  mkList (rows s) k.

(** [QListWidget.sortItems()]: ascending for the items' [<]. Rows that
    compare equal keep their relative order here, as they do in Qt while the
    list is short; Qt sorts with [std::sort], which may order them otherwise
    in a long list. The theorems about all histories of the list use of the
    sort only that it gives a permutation of the rows in order of time. *)
Fixpoint insert_sorted (x : ScreenshotListItem) (l : list ScreenshotListItem) :=
  match l with
  | [] => [x]
  | y :: l' => if item_lt y x then y :: insert_sorted x l' else x :: y :: l'
  end.

Definition sort_rows (l : list ScreenshotListItem) : list ScreenshotListItem :=
  foldr insert_sorted [] l.

Definition sortItems (s : ScreenshotList) := set_rows (sort_rows (rows s)) s.

Definition addItem (it : ScreenshotListItem) (s : ScreenshotList) :=
  set_rows (rows s ++ [it]) s.

Definition takeItem (row : nat) (s : ScreenshotList) :=
  set_rows (delete row (rows s)) s.

Definition clear (s : ScreenshotList) := set_rows [] s.

(** [remove_file]: the first row with the path is taken out. *)
Definition remove_file (path : string) (s : ScreenshotList) : ScreenshotList :=
  match list_find (λ item, file_path item = path) (rows s) with
  | Some (row, _) => sortItems (takeItem row s)
  | None => s
  end.

Definition add_file (fs : FileSystem) (path : string) : Eff ScreenshotList unit :=
  modify (remove_file path) ;;
  match ScreenshotListItem_load fs path with
  | inr item => modify (addItem item) ;; modify sortItems
  | inl e => raise e
  end.

(** The loop of [update_from_filelist] over the lines of the list file. *)
Definition read_filelist (fs : FileSystem) (path : string) : gset string :=
  match files fs !! path with
  | Some f =>
      foldl (λ new_filelist line,
               let file_path := strip line in
               if (String.length file_path =? 0)%nat || negb (isfile fs file_path)
               then new_filelist
               else new_filelist ∪ {[file_path]})
            ∅ (lines f)
  | None => ∅
  end.

(** [update_from_filelist]. When the list file is there and [open] or
    [readlines] raises, nothing has been assigned yet. Python leaves the
    order in which a [set] is iterated open; [iter] is that order. *)
Definition update_from_filelist (iter : gset string → list string)
    (cfg : Config) (fs : FileSystem) : Eff ScreenshotList unit :=
  λ s,
  let list_path := screenshot_source_filelist_path cfg in
  match (if isfile fs list_path then read_error fs !! list_path else None) with
  | Some e => (inl e, s)
  | None =>
      let new_filelist := read_filelist fs list_path in
      let added_files := new_filelist ∖ old_filelist s in
      let removed_files := old_filelist s ∖ new_filelist in
      (modify (set_old_filelist new_filelist) ;;
       for_each (add_file fs) (iter added_files) ;;
       for_each (λ file_path, modify (remove_file file_path))
                (iter removed_files)) s
  end.

(** [load_screenshots]; [now] is [time.time()]. *)
Definition load_screenshots (iter : gset string → list string)
    (cfg : Config) (fs : FileSystem) (now : Z) : Eff ScreenshotList unit :=
  modify clear ;;
  (if screenshot_source_folder_use cfg
      && isdir fs (screenshot_source_folder_path cfg)
   then
     for_each (λ full_path,
                 match getmtime fs full_path with
                 | inl e => raise e
                 | inr t =>
                     if t <? now - 86400 then mret tt
                     else add_file fs full_path
                 end)
              (walk fs (screenshot_source_folder_path cfg))
   else mret tt) ;;
  (if screenshot_source_filelist_use cfg
      && isfile fs (screenshot_source_filelist_path cfg)
   then update_from_filelist iter cfg fs
   else mret tt).

(** *** Histories of the list *)

Inductive op :=
  | AddFile (fs : FileSystem) (path : string)
  | RemoveFile (path : string)
  | UpdateFromFilelist (iter : gset string → list string)
                       (cfg : Config) (fs : FileSystem)
  | LoadScreenshots (iter : gset string → list string)
                    (cfg : Config) (fs : FileSystem) (now : Z).

(** One call on the list; a call that raises leaves the list in the state
    it had reached. *)
Definition apply_op (s : ScreenshotList) (o : op) : ScreenshotList :=
  match o with
  | AddFile fs path => state_of (add_file fs path s)
  | RemoveFile path => remove_file path s
  | UpdateFromFilelist iter cfg fs => state_of (update_from_filelist iter cfg fs s)
  | LoadScreenshots iter cfg fs now => state_of (load_screenshots iter cfg fs now s)
  end.

Definition run (ops : list op) (s : ScreenshotList) : ScreenshotList :=
  foldl apply_op s ops.

Definition paths (s : ScreenshotList) : list string := file_path <$> rows s.

(** Newest first: no row is followed, anywhere below it, by a newer one. *)
Definition newest_first (l : list ScreenshotListItem) : Prop :=
  StronglySorted (λ a b, timestamp b ≤ timestamp a) l.

(** The order the specification asks for: newer first, and among equal
    times the smaller path first. *)
Definition spec_before (a b : ScreenshotListItem) : Prop :=
  timestamp b < timestamp a
  ∨ (timestamp a = timestamp b ∧ String.ltb (file_path a) (file_path b) = true).

Definition spec_ordered (l : list ScreenshotListItem) : Prop :=
  StronglySorted spec_before l.

(** The two invariants of the list. *)
Definition ordered_and_unique (s : ScreenshotList) : Prop :=
  newest_first (rows s) ∧ NoDup (paths s).

(** Whether the item of a path can be made: the time of the path can be
    read and shown as a date. *)
Definition can_load (fs : FileSystem) (path : string) : bool :=
  match ScreenshotListItem_load fs path with
  | inr _ => true
  | inl _ => false
  end.

(** A path whose time can be read and is at most a day before [now]. *)
Definition recent (fs : FileSystem) (now : Z) (path : string) : Prop :=
  ∃ t, getmtime fs path = inr t ∧ now - 86400 ≤ t.

(** The paths the list file names: the stripped, non-empty lines. *)
Definition listed (fs : FileSystem) (list_path path : string) : Prop :=
  ∃ f line, files fs !! list_path = Some f ∧ line ∈ lines f
            ∧ strip line = path ∧ path ≠ "".

(** The paths the list file names that are files on disk. *)
Definition listed_and_existing (cfg : Config) (fs : FileSystem) (path : string)
    : Prop :=
  listed fs (screenshot_source_filelist_path cfg) path ∧ isfile fs path = true.

(** *** A small disk for the examples *)

Definition nl : string := String (Ascii.ascii_of_nat 10) "".

(** Three pictures, two of them written in the same second, a text file, a
    list file with the given lines, and a folder with a recent and an old
    picture. *)
Definition sample_fs (list_lines : list string) : FileSystem :=
  mkFS (list_to_map
          [("/a.png", mkFile 100 (Some (4, 3)) []);
           ("/b.png", mkFile 100 (Some (4, 3)) []);
           ("/c.png", mkFile 200 (Some (8, 6)) []);
           ("/notes.txt", mkFile 7 None ["hello"]);
           ("/list.txt", mkFile 50 None list_lines);
           ("/shots/new.png", mkFile 990 (Some (16, 9)) []);
           ("/shots/old.png", mkFile (-90000) (Some (16, 9)) [])])
       (list_to_map [("/shots", ["/shots/new.png"; "/shots/old.png"])])
       ∅ (λ _, None) ∅.

(** Only the file list is in use. *)
Definition sample_cfg : Config := mkConfig false "/shots" true "/list.txt".

(** The folder and the file list are both in use. *)
Definition both_cfg : Config := mkConfig true "/shots" true "/list.txt".

End Screenshots.

(** ** Gestures on the editor *)

Module Gestures.
Import Editor.

(** The line segments that join a start point to the points after it, one
    after the other. *)
Fixpoint polyline (start : QPointF) (points : list QPointF) : list QLineF :=
  match points with
  | [] => []
  | p :: rest => mkLine (px start) (py start) (px p) (py p) :: polyline p rest
  end.

(** The points of the pointer moves that happen over the photo. *)
Definition over_photo (moves : list (bool * QPointF)) : list QPointF :=
  snd <$> filter (λ m, m.1 = true) moves.

(** A pen gesture in progress: the button is down, the last point is
    remembered, and the item on top of the stack is the group of the lines
    drawn so far. *)
Definition drawing_stroke (prev : QPointF) (ls : list QLineF)
    (s : ScreenshotEditor) : Prop :=
  mouse_pressed s = true
  ∧ previous_point s = Some prev
  ∧ drawing_style s = PEN
  ∧ ∃ h, last (items s) = Some h ∧ heap s !! h = Some (ItemGroup ls).

(** While the button is down a point is remembered. *)
Definition pressed_has_point (s : ScreenshotEditor) : Prop :=
  mouse_pressed s = true → is_Some (previous_point s).

End Gestures.

(** ** The main window: tabs of editors *)

Module Window.
Import Editor.

(** The button the user picks in the dialog of [close_tab]. *)
Inductive answer := AnswerSave | AnswerDiscard | AnswerCancel.

Global Instance answer_eq_dec : EqDecision answer.
Proof. solve_decision. Defined.

Inductive werror :=
  | WAttributeError
  | WKeyError (key : string).

(** The part of [MainWindow] that the tab handling reads and writes.
    [screenshot_tabs] is the dict from image path to editor, in insertion
    order; [tab_pages] are the pages of the tab widget after the screenshot
    list, which is page 0 and stays; [editors] holds the editor objects,
    which the dict and the tab widget both refer to; [checked_style] is the
    data of the checked action of the drawing style group;
    [previousMiddleIndex] is the attribute set on the tab bar. *)
Record MainWindow := mkWindow {
  screenshot_tabs : list (string * nat);
  tab_pages : list nat;
  current_index : nat;
  editors : gmap nat ScreenshotEditor;
  checked_style : DrawingStyle;
  screenshot_toolbar_shown : bool;
  edit_toolbar_shown : bool;
  undo_enabled : bool;
  redo_enabled : bool;
  previousMiddleIndex : Z
}.

(** [MainWindow.__init__]: the list tab only, the "None" style checked, the
    edit toolbar hidden, the actions enabled as Qt creates them. *)
Definition init : MainWindow :=
  {| screenshot_tabs := []; tab_pages := []; current_index := 0%nat;
     editors := ∅; checked_style := NONE;
     screenshot_toolbar_shown := true; edit_toolbar_shown := false;
     undo_enabled := true; redo_enabled := true;
     previousMiddleIndex := -1 |}.

Definition Win (A : Type) : Type := MainWindow → (werror + A) * MainWindow.

Definition set_screenshot_tabs (d : list (string * nat)) (w : MainWindow) :=
  mkWindow d (tab_pages w) (current_index w) (editors w) (checked_style w)
           (screenshot_toolbar_shown w) (edit_toolbar_shown w)
           (undo_enabled w) (redo_enabled w) (previousMiddleIndex w).

Definition set_tab_pages (l : list nat) (w : MainWindow) :=
  mkWindow (screenshot_tabs w) l (current_index w) (editors w) (checked_style w)
           (screenshot_toolbar_shown w) (edit_toolbar_shown w)
           (undo_enabled w) (redo_enabled w) (previousMiddleIndex w).

Definition set_current_index (i : nat) (w : MainWindow) :=
  mkWindow (screenshot_tabs w) (tab_pages w) i (editors w) (checked_style w)
           (screenshot_toolbar_shown w) (edit_toolbar_shown w)
           (undo_enabled w) (redo_enabled w) (previousMiddleIndex w).

Definition set_editors (m : gmap nat ScreenshotEditor) (w : MainWindow) :=
  mkWindow (screenshot_tabs w) (tab_pages w) (current_index w) m (checked_style w)
           (screenshot_toolbar_shown w) (edit_toolbar_shown w)
           (undo_enabled w) (redo_enabled w) (previousMiddleIndex w).

Definition set_checked_style (st : DrawingStyle) (w : MainWindow) :=
  mkWindow (screenshot_tabs w) (tab_pages w) (current_index w) (editors w) st
           (screenshot_toolbar_shown w) (edit_toolbar_shown w)
           (undo_enabled w) (redo_enabled w) (previousMiddleIndex w).

Definition set_toolbars (screenshot edit : bool) (w : MainWindow) :=
  mkWindow (screenshot_tabs w) (tab_pages w) (current_index w) (editors w)
           (checked_style w) screenshot edit
           (undo_enabled w) (redo_enabled w) (previousMiddleIndex w).

Definition set_actions (undo_on redo_on : bool) (w : MainWindow) :=
  mkWindow (screenshot_tabs w) (tab_pages w) (current_index w) (editors w)
           (checked_style w) (screenshot_toolbar_shown w) (edit_toolbar_shown w)
           undo_on redo_on (previousMiddleIndex w).

Definition set_previousMiddleIndex (i : Z) (w : MainWindow) :=
  mkWindow (screenshot_tabs w) (tab_pages w) (current_index w) (editors w)
           (checked_style w) (screenshot_toolbar_shown w) (edit_toolbar_shown w)
           (undo_enabled w) (redo_enabled w) i.

(** *** The dict [screenshot_tabs] *)

Definition dict_get (d : list (string * nat)) (key : string) : option nat :=
  (λ r : nat * (string * nat), r.2.2) <$> list_find (λ kv, kv.1 = key) d.

(** [d[key] = v] for a key the dict does not have yet. *)
Definition dict_add (key : string) (v : nat) (d : list (string * nat)) :=
  d ++ [(key, v)].

(** *** The tab widget *)

(** [tab_widget.widget(index)], for the pages that are editors: page 0 is
    the screenshot list, an index past the last page gives [None]. *)
Definition widget (w : MainWindow) (index : nat) : option nat :=
  match index with
  | O => None
  | S i => tab_pages w !! i
  end.

(** [tab_widget.indexOf(editor)] *)
Definition indexOf (w : MainWindow) (editor : nat) : option nat :=
  (λ r : nat * nat, S r.1) <$> list_find (λ page, page = editor) (tab_pages w).

(** [get_active_screenshot_editor]: the current page when it is an editor. *)
Definition get_active_screenshot_editor (w : MainWindow) : option nat :=
  widget w (current_index w).

(** [update_edit_toolbar] *)
Definition update_edit_toolbar (w : MainWindow) : MainWindow :=
  match get_active_screenshot_editor w ≫= λ id, editors w !! id with
  | Some e =>
      set_actions (bool_decide (items e ≠ [])) (bool_decide (redo_items e ≠ [])) w
  | None => w
  end.

(** [tab_changed], the slot of the tab widget's [currentChanged]. *)
Definition tab_changed (w : MainWindow) : MainWindow :=
  update_edit_toolbar
    match get_active_screenshot_editor w with
    | Some id =>
        set_editors (alter (set_drawing_style (checked_style w)) id (editors w))
                    (set_toolbars false true w)
    | None => set_toolbars true false w
    end.

(** [QTabWidget.setCurrentIndex]: [currentChanged] is emitted when the index
    changes. *)
Definition setCurrentIndex (i : nat) (w : MainWindow) : MainWindow :=
  if decide (i = current_index w) then w
  else tab_changed (set_current_index i w).

(** [QTabWidget.setCurrentWidget]: a widget that is not a page is refused. *)
Definition setCurrentWidget (editor : nat) (w : MainWindow) : MainWindow :=
  match indexOf w editor with
  | Some i => setCurrentIndex i w
  | None => w
  end.

(** [QTabWidget.removeTab] of an editor page. When the current page goes,
    the page to its right, or else the last page, becomes current; when a
    page before the current one goes, the current index moves down by one.
    Either way [currentChanged] is emitted. *)
Definition removeTab (index : nat) (w : MainWindow) : MainWindow :=
  match index with
  | O => w
  | S i =>
      if decide (i < length (tab_pages w))%nat then
        let w1 := set_tab_pages (delete i (tab_pages w)) w in
        if decide (index = current_index w) then
          tab_changed (set_current_index (index `min` length (tab_pages w1)) w1)
        else if decide (index < current_index w)%nat then
          tab_changed (set_current_index (current_index w - 1) w1)
        else w1
      else w
  end.

(** *** [open_screenshot], [close_tab], [close_current], [closeEvent] *)

Definition open_screenshot (image_path : string) (w : MainWindow) : MainWindow :=
  match dict_get (screenshot_tabs w) image_path with
  | Some screenshot_page => setCurrentWidget screenshot_page w
  | None =>
      let screenshot_page := fresh (dom (editors w)) in
      let w1 := set_editors (<[screenshot_page := Editor.init]> (editors w)) w in
      let w2 := set_screenshot_tabs
                  (dict_add image_path screenshot_page (screenshot_tabs w1)) w1 in
      let w3 := set_tab_pages (tab_pages w2 ++ [screenshot_page]) w2 in
      setCurrentWidget screenshot_page w3
  end.

(** [open_screenshot_by_selection], for the paths of the selected rows. *)
Definition open_screenshot_by_selection (selected : list string)
    (w : MainWindow) : MainWindow :=
  foldl (λ w image_path, open_screenshot image_path w) w selected.

(** The loop of [close_tab] that deletes the dict entries of an editor. *)
Definition forget_editor (editor : nat) (d : list (string * nat)) :=
  filter (λ kv, kv.2 ≠ editor) d.

(** [close_tab]; [response] is what the user answers if the dialog is
    shown. *)
Definition close_tab (index : nat) (response : answer) : Win bool :=
  λ w,
  if decide (index = 0%nat) then (inr false, w)
  else
    match widget w index ≫= λ id, (id,.) <$> editors w !! id with
    | None => (inl WAttributeError, w)
    | Some (screenshot_editor, e) =>
        let closing (w : MainWindow) :=
          (inr true,
           removeTab index
             (set_screenshot_tabs
                (forget_editor screenshot_editor (screenshot_tabs w)) w)) in
        if changed e then
          match response with
          | AnswerSave =>
              closing (set_editors (<[screenshot_editor := save e]> (editors w)) w)
          | AnswerCancel => (inr false, w)
          | AnswerDiscard => closing w
          end
        else closing w
    end.

Definition close_current (response : answer) : Win bool :=
  λ w,
  let index := current_index w in
  if decide (index = 0%nat) then (inr false, w)
  else close_tab index response w.

(** The loop of [closeEvent] over [list(self.screenshot_tabs)]; the result
    is whether the event is accepted. [answer_for] is what the user answers
    in the dialog for a path. *)
Fixpoint closeEvent_loop (answer_for : string → answer) (keys : list string)
    : Win bool :=
  λ w,
  match keys with
  | [] => (inr true, w)
  | image_path :: rest =>
      match dict_get (screenshot_tabs w) image_path with
      | None => (inl (WKeyError image_path), w)
      | Some screenshot_editor =>
          match editors w !! screenshot_editor with
          | None => (inl WAttributeError, w)
          | Some e =>
              if changed e then
                match close_current (answer_for image_path)
                        (setCurrentWidget screenshot_editor w) with
                | (inr true, w') => closeEvent_loop answer_for rest w'
                | (inr false, w') => (inr false, w')
                | (inl err, w') => (inl err, w')
                end
              else closeEvent_loop answer_for rest w
          end
      end
  end.

Definition closeEvent (answer_for : string → answer) : Win bool :=
  λ w, closeEvent_loop answer_for (fst <$> screenshot_tabs w) w.

(** *** [eventFilter] on the tab bar *)

(** The events [eventFilter] sees: a middle button press or release on the
    tab bar, with [tabAt(event.pos())], which is -1 off the tabs, or any
    other event. *)
Inductive filtered_event :=
  | MiddlePress (tab_index : Z)
  | MiddleRelease (tab_index : Z)
  | OtherEvent.

Definition eventFilter (ev : filtered_event) (response : answer) : Win bool :=
  λ w,
  match ev with
  | MiddlePress tab_index => (inr true, set_previousMiddleIndex tab_index w)
  | MiddleRelease tab_index =>
      if bool_decide (tab_index ≠ -1) && bool_decide (tab_index = previousMiddleIndex w)
      then
        match close_tab (Z.to_nat tab_index) response w with
        | (inr _, w') => (inr true, set_previousMiddleIndex (-1) w')
        | (inl err, w') => (inl err, w')
        end
      else (inr true, set_previousMiddleIndex (-1) w)
  | OtherEvent => (inr false, w)
  end.

(** *** The edit actions, on the active editor *)

(** Whether the editor's handler of an event emits [items_changed]:
    [add_item], and [undo] and [redo] when they pop an item. *)
Definition emits_items_changed (e : ScreenshotEditor) (ev : event) : bool :=
  match ev with
  | MousePress under _ => under && bool_decide (drawing_style e ≠ NONE)
  | Undo => bool_decide (items e ≠ [])
  | Redo => bool_decide (redo_items e ≠ [])
  | _ => false
  end.

(** An event of the editor delivered to the active editor: the pointer
    events the view receives, and [edit_save], [edit_undo], [edit_redo] and
    [set_drawing_style] of the window, which call the method on
    [get_active_screenshot_editor()]. The slot [update_edit_toolbar] runs
    when the editor emits [items_changed]. *)
Definition on_active (ev : event) : Win unit :=
  λ w,
  let w := match ev with
           | SetDrawingStyle st => set_checked_style st w
           | _ => w
           end in
  match get_active_screenshot_editor w ≫= λ id, (id,.) <$> editors w !! id with
  | None => (inl WAttributeError, w)
  | Some (id, e) =>
      let w1 := set_editors (<[id := step e ev]> (editors w)) w in
      (inr tt, if emits_items_changed e ev then update_edit_toolbar w1 else w1)
  end.

(** *** Histories of the window *)

Inductive wop :=
  | OpenScreenshot (image_path : string)
  | OpenSelection (selected : list string)
  | SelectTab (index : nat)
  | CloseTab (index : nat) (response : answer)
  | CloseCurrent (response : answer)
  | CloseEvent (answer_for : string → answer)
  | EventFilter (ev : filtered_event) (response : answer)
  | OnActive (ev : event).

Definition apply_wop (w : MainWindow) (o : wop) : MainWindow :=
  match o with
  | OpenScreenshot image_path => open_screenshot image_path w
  | OpenSelection selected => open_screenshot_by_selection selected w
  | SelectTab index =>
      if decide (index ≤ length (tab_pages w))%nat then setCurrentIndex index w else w
  | CloseTab index response => (close_tab index response w).2
  | CloseCurrent response => (close_current response w).2
  | CloseEvent answer_for => (closeEvent answer_for w).2
  | EventFilter ev response => (eventFilter ev response w).2
  | OnActive ev => (on_active ev w).2
  end.

Definition wrun (ops : list wop) (w : MainWindow) : MainWindow :=
  foldl apply_wop w ops.

(** The editor a path is open in, if any. *)
Definition editor_of (w : MainWindow) (image_path : string)
    : option ScreenshotEditor :=
  dict_get (screenshot_tabs w) image_path ≫= λ id, editors w !! id.

(** The dict and the tab widget name the same editors in the same order,
    no path and no editor twice, every editor exists, and the current index
    is the index of a page. *)
Definition tabs_in_step (w : MainWindow) : Prop :=
  snd <$> screenshot_tabs w = tab_pages w
  ∧ NoDup (fst <$> screenshot_tabs w)
  ∧ NoDup (tab_pages w)
  ∧ (∀ id, id ∈ tab_pages w → id ∈ dom (editors w))
  ∧ (current_index w ≤ length (tab_pages w))%nat.

(** The toolbars follow the current tab, and the active editor draws in the
    style that is checked and governs the undo and redo actions. *)
Definition toolbars_in_step (w : MainWindow) : Prop :=
  edit_toolbar_shown w = bool_decide (current_index w ≠ 0%nat)
  ∧ screenshot_toolbar_shown w = bool_decide (current_index w = 0%nat)
  ∧ ∀ id e, get_active_screenshot_editor w = Some id → editors w !! id = Some e →
            drawing_style e = checked_style w
            ∧ undo_enabled w = bool_decide (items e ≠ [])
            ∧ redo_enabled w = bool_decide (redo_items e ≠ []).

(** Two stores of editors that hold the same editors, equal but for the
    drawing style. *)
Definition same_drawings (m m' : gmap nat ScreenshotEditor) : Prop :=
  ∀ id, set_drawing_style NONE <$> m' !! id = set_drawing_style NONE <$> m !! id.

(** What a change of the current tab leaves alone: the dict, the pages, the
    editors but for their drawing style, the checked style. *)
Definition light (w w' : MainWindow) : Prop :=
  screenshot_tabs w' = screenshot_tabs w
  ∧ tab_pages w' = tab_pages w
  ∧ same_drawings (editors w) (editors w')
  ∧ checked_style w' = checked_style w
  ∧ previousMiddleIndex w' = previousMiddleIndex w.

(** The editor a path is open in, its drawing style aside. *)
Definition view (w : MainWindow) (image_path : string) : option ScreenshotEditor :=
  set_drawing_style NONE <$> editor_of w image_path.

End Window.

(** ** The file watcher and the list's constructor *)

Module Watcher.
Import Screenshots.

(** A watchdog event; [dest_path] is read for a move only. *)
Record FileSystemEvent := mkEvent {
  is_directory : bool;
  src_path : string;
  dest_path : string
}.

(** The bound methods of the list that are passed as callbacks. *)
Inductive method := Add_file | Remove_file.

(** Calling a bound method; [fs] is the disk at the time of the call. *)
Definition invoke (m : method) (fs : FileSystem) (path : string)
    : Eff ScreenshotList unit :=
  match m with
  | Add_file => add_file fs path
  | Remove_file => modify (remove_file path)
  end.

(** What a handler raises: the exception of a callback, or [TypeError] for
    calling a callback that is [None]. *)
Inductive herror :=
  | Raised (e : exn)
  | TypeError.

Definition Handler (A : Type) : Type :=
  ScreenshotList → (herror + A) * ScreenshotList.

(** [callback(path)] *)
Definition call (callback : option method) (fs : FileSystem) (path : string)
    : Handler unit :=
  λ s,
  match callback with
  | Some m =>
      match invoke m fs path s with
      | (inr v, s') => (inr v, s')
      | (inl e, s') => (inl (Raised e), s')
      end
  | None => (inl TypeError, s)
  end.

Record WatchdogFilesystemHandler := mkHandler {
  on_created_callback : option method;
  on_deleted_callback : option method;
  on_modified_callback : option method
}.

Definition on_created (h : WatchdogFilesystemHandler) (fs : FileSystem)
    (event : FileSystemEvent) : Handler unit :=
  λ s,
  if is_directory event then (inr tt, s)
  else match on_created_callback h with
       | None => (inr tt, s)
       | Some _ => call (on_created_callback h) fs (src_path event) s
       end.

Definition on_deleted (h : WatchdogFilesystemHandler) (fs : FileSystem)
    (event : FileSystemEvent) : Handler unit :=
  λ s,
  if is_directory event then (inr tt, s)
  else match on_deleted_callback h with
       | None => (inr tt, s)
       | Some _ => call (on_deleted_callback h) fs (src_path event) s
       end.


Definition on_modified (h : WatchdogFilesystemHandler) (fs : FileSystem)
    (event : FileSystemEvent) : Handler unit :=
  λ s,
  if is_directory event then (inr tt, s)
  else match on_modified_callback h with
       | None => (inr tt, s)
       | Some _ => call (on_modified_callback h) fs (src_path event) s
       end.

(** The calls made on the observer, in order. What the library does at a
    call, such as [start] on an observer that runs already, is not part of
    the model. *)
Inductive observer_call :=
  | UnscheduleAll
  | Schedule (h : WatchdogFilesystemHandler) (path : string) (recursive : bool)
  | Start.

(** The list widget with its observer. *)
Record ListWidget := mkWidget {
  list_of : ScreenshotList;
  observer : list observer_call
}.

(** A method of the list, run on the widget. *)
Definition on_list {A} (m : Eff ScreenshotList A) : Eff ListWidget A :=
  λ w,
  match m (list_of w) with
  | (r, s') => (r, mkWidget s' (observer w))
  end.

Definition observer_do (c : observer_call) : Eff ListWidget unit :=
  modify (λ w, mkWidget (list_of w) (observer w ++ [c])).

(** The handler [reload_file_watcher] schedules for the folder. *)
Definition folder_handler : WatchdogFilesystemHandler :=
  {| on_created_callback := Some Add_file;
     on_modified_callback := Some Add_file;
     on_deleted_callback := Some Remove_file |}.

(** [reload_file_watcher]. With the file list in use the arguments of the
    second [schedule] are evaluated first, and [self.update_filelist] is
    not an attribute of the list: the statement raises before a handler is
    made or scheduled. *)
Definition reload_file_watcher (cfg : Config) (fs : FileSystem)
    : Eff ListWidget unit :=
  observer_do UnscheduleAll ;;
  (if screenshot_source_folder_use cfg
      && isdir fs (screenshot_source_folder_path cfg)
   then observer_do (Schedule folder_handler
                              (screenshot_source_folder_path cfg) true)
   else mret tt) ;;
  (if screenshot_source_filelist_use cfg
   then raise AttributeError
   else mret tt) ;;
  observer_do Start.

(** [ScreenshotList.__init__]: the new list, its first load, the new
    observer and the watches. *)
Definition ScreenshotList_new (iter : gset string → list string)
    (cfg : Config) (fs : FileSystem) (now : Z) : (exn + unit) * ListWidget :=
  (on_list (load_screenshots iter cfg fs now) ;;
   reload_file_watcher cfg fs) (mkWidget Screenshots.init []).

(** [MainWindow.reload], on the list of the window. *)
Definition reload (iter : gset string → list string)
    (cfg : Config) (fs : FileSystem) (now : Z) : Eff ListWidget unit :=
  on_list (load_screenshots iter cfg fs now) ;;
  reload_file_watcher cfg fs.

(** A disk with more on it than pictures: a picture dated past the year
    9999, which [datetime] refuses, a list file with the given lines, a
    list file that may not be read, and a folder whose walk reports a
    picture, a FIFO, a path that is gone by now and another picture. *)
Definition odd_fs (list_lines : list string) : FileSystem :=
  mkFS (list_to_map
          [("/a.png", mkFile 100 (Some (4, 3)) []);
           ("/far.png", mkFile 300000000000 (Some (4, 3)) []);
           ("/list.txt", mkFile 50 None list_lines);
           ("/locked.txt", mkFile 60 None []);
           ("/shots/new.png", mkFile 990 (Some (16, 9)) []);
           ("/shots/late.png", mkFile 995 (Some (16, 9)) [])])
       (list_to_map
          [("/shots", ["/shots/new.png"; "/shots/pipe"; "/shots/gone.png";
                       "/shots/late.png"])])
       (list_to_map [("/shots", inr 900); ("/shots/pipe", inr 980)])
       (λ t, if 253402300800 <=? t then Some (OtherError "ValueError") else None)
       (list_to_map [("/locked.txt", OtherError "PermissionError")]).

End Watcher.

(** ** Properties of the annotation editor *)

Module EditorFacts.
Import Editor.

Lemma pop_snoc {A} (l : list A) (x : A) : pop (l ++ [x]) = Some (x, l).
Proof. unfold pop. by rewrite last_snoc, removelast_last. Qed.

Lemma pop_Some {A} (l r : list A) (x : A) : pop l = Some (x, r) → l = r ++ [x].
Proof.
  destruct l as [|y l'] using rev_ind; [done|].
  rewrite pop_snoc. by intros [= -> ->].
Qed.

Lemma pop_None {A} (l : list A) : pop l = None → l = [].
Proof.
  destruct l as [|y l'] using rev_ind; [done|]. by rewrite pop_snoc.
Qed.

Lemma filter_ne_notin (h : handle) (l : list handle) :
  h ∉ l → filter (λ h', h' ≠ h) l = l.
Proof.
  induction l as [|x l IH]; [done|].
  rewrite not_elem_of_cons. intros [Hx Hl].
  rewrite filter_cons_True by congruence. by rewrite IH.
Qed.

Lemma filter_ne_snoc (h : handle) (l : list handle) :
  h ∉ l → filter (λ h', h' ≠ h) (l ++ [h]) = l.
Proof.
  intros Hl. rewrite filter_app, filter_ne_notin by done.
  rewrite filter_cons_False by (intros Hne; by apply Hne).
  by rewrite filter_nil, app_nil_r.
Qed.

(** [undo] on an editor whose scene shows exactly the stack. *)
Lemma undo_snoc ch l h rd mp pp ds hp :
  h ∉ l →
  undo (mkEditor ch (l ++ [h]) rd mp pp ds (l ++ [h]) hp)
  = mkEditor ch l (rd ++ [h]) mp pp ds l hp.
Proof.
  intros Hl. unfold undo. cbn [items]. rewrite pop_snoc.
  unfold scene_removeItem, set_scene, set_redo_items, set_items. cbn.
  by rewrite filter_ne_snoc.
Qed.

Lemma redo_snoc ch l h rd mp pp ds hp :
  h ∉ l →
  redo (mkEditor ch l (rd ++ [h]) mp pp ds l hp)
  = mkEditor ch (l ++ [h]) rd mp pp ds (l ++ [h]) hp.
Proof.
  intros Hl. unfold redo. cbn [redo_items]. rewrite pop_snoc.
  unfold scene_addItem, set_scene, set_redo_items, set_items. cbn.
  by rewrite decide_False.
Qed.

Lemma undo_iter ch l k rd mp pp ds hp :
  NoDup (l ++ k) →
  Nat.iter (length k) undo (mkEditor ch (l ++ k) rd mp pp ds (l ++ k) hp)
  = mkEditor ch l (rd ++ reverse k) mp pp ds l hp.
Proof.
  revert rd. induction k as [|h k IH] using rev_ind; intros rd Hnd.
  - cbn. by rewrite !app_nil_r.
  - rewrite length_app, Nat.add_1_r, Nat.iter_succ_r.
    rewrite app_assoc in Hnd |- *.
    apply NoDup_app in Hnd as (Hnd & Hh & _).
    rewrite undo_snoc.
    + rewrite IH by done. by rewrite reverse_snoc, <-app_assoc.
    + intros Hin. apply (Hh h Hin). by apply list_elem_of_singleton.
Qed.

Lemma redo_iter ch l k rd mp pp ds hp :
  NoDup (l ++ k) →
  Nat.iter (length k) redo (mkEditor ch l (rd ++ reverse k) mp pp ds l hp)
  = mkEditor ch (l ++ k) rd mp pp ds (l ++ k) hp.
Proof.
  revert rd. induction k as [|h k IH] using rev_ind; intros rd Hnd.
  - cbn. by rewrite !app_nil_r.
  - rewrite length_app, Nat.add_1_r, Nat.iter_succ.
    rewrite app_assoc in Hnd |- *.
    apply NoDup_app in Hnd as (Hnd & Hh & _).
    rewrite reverse_snoc.
    replace (rd ++ h :: reverse k) with ((rd ++ [h]) ++ reverse k)
      by by rewrite <-app_assoc.
    rewrite IH by done. apply redo_snoc.
    intros Hin. apply (Hh h Hin). by apply list_elem_of_singleton.
Qed.

Lemma wf_init : wf init.
Proof. repeat split; cbn; [constructor | by intros h ?%elem_of_nil]. Qed.

Lemma wf_begin it ch its rd mp pp ds sc hp mp' pp' :
  wf (mkEditor ch its rd mp pp ds sc hp) →
  let r := scene_new it (mkEditor ch its rd mp' pp' ds sc hp) in
  wf (add_item r.1 r.2)
  ∧ items (add_item r.1 r.2) = its ++ [r.1]
  ∧ heap (add_item r.1 r.2) !! r.1 = Some it.
Proof.
  intros (Hsc & Hnd & Hdom). cbn in Hsc, Hnd, Hdom. subst sc.
  unfold scene_new, scene_addItem. cbn.
  pose proof (is_fresh (dom hp)) as Hfresh.
  set (h := fresh (dom hp)) in *.
  assert (h ∉ its) as Hh.
  { intros Hin. apply Hfresh, Hdom, elem_of_app. by left. }
  rewrite decide_False by done. cbn.
  split; [|split; [done | apply lookup_insert_eq]].
  split; [done|]. split.
  - cbn. rewrite app_nil_r. apply NoDup_app. split; [|split].
    + by apply NoDup_app in Hnd as (? & _ & _).
    + by intros x Hx ->%list_elem_of_singleton.
    + apply NoDup_singleton.
  - intros x. cbn. rewrite app_nil_r, elem_of_app, list_elem_of_singleton.
    rewrite dom_insert_L, elem_of_union, elem_of_singleton.
    intros [Hx| ->]; [right|by left]. apply Hdom, elem_of_app. by left.
Qed.

Lemma wf_mousePressEvent under pos s : wf s → wf (mousePressEvent under pos s).
Proof.
  intros Hwf. destruct s as [ch its rd mp pp ds sc hp].
  unfold mousePressEvent. destruct under; [|done].
  cbn. destruct ds.
  - exact Hwf.
  - apply (wf_begin (EllipseItem _) _ _ _ _ _ _ _ _ true (Some pos) Hwf).
  - apply (wf_begin (ItemGroup _) _ _ _ _ _ _ _ _ true (Some pos) Hwf).
  - apply (wf_begin (RectItem _) _ _ _ _ _ _ _ _ true (Some pos) Hwf).
Qed.

(** What [update_last] does, case by case. *)
Lemma update_last_spec f s :
  match update_last f s with
  | (inr _, s') =>
      ∃ h it it', last (items s) = Some h ∧ heap s !! h = Some it
                  ∧ f it = Some it' ∧ s' = set_heap (<[h := it']> (heap s)) s
  | (inl _, s') => s' = s
  end.
Proof.
  unfold update_last. destruct (last (items s)) as [h|]; [|done].
  destruct (heap s !! h) as [it|] eqn:Hit; cbn; [|done].
  destruct (f it) as [it'|] eqn:Hf; [|done].
  by exists h, it, it'.
Qed.

(** The state [mouseMoveEvent] leaves: untouched, or the top item reshaped
    and [changed] set. *)
Lemma mouseMoveEvent_cases under p s :
  let r := mouseMoveEvent under p s in
  (state_of r = s)
  ∨ (∃ h it it', last (items s) = Some h ∧ heap s !! h = Some it
       ∧ r.1 = inr tt ∧ mouse_pressed s = true ∧ under = true
       ∧ drawing_style s ≠ NONE
       ∧ changed (state_of r) = true
       ∧ items (state_of r) = items s
       ∧ redo_items (state_of r) = redo_items s
       ∧ scene (state_of r) = scene s
       ∧ mouse_pressed (state_of r) = mouse_pressed s
       ∧ drawing_style (state_of r) = drawing_style s
       ∧ heap (state_of r) = <[h := it']> (heap s)).
Proof.
  unfold mouseMoveEvent.
  destruct (mouse_pressed s) eqn:Hmp; [|by left].
  destruct under; [|by left]. cbn [andb].
  destruct (drawing_style s) eqn:Hds, (previous_point s) as [prev|] eqn:Hpp;
    try (by left);
    try (destruct (last (items s)); by left).
  all: unfold mbind, Eff_bind.
  all: match goal with |- context [update_last ?f ?s0] =>
         pose proof (update_last_spec f s0) as Hu;
         destruct (update_last f s0) as [[e|[]] s'] end.
  all: try (left; by subst s').
  all: destruct Hu as (h & it & it' & Hl & Hh & Hf & ->).
  all: right; exists h, it, it'; cbn; by rewrite ?Hmp, ?Hds.
Qed.

Lemma wf_mouseMoveEvent under p s :
  wf s → wf (state_of (mouseMoveEvent under p s)).
Proof.
  intros Hwf.
  destruct (mouseMoveEvent_cases under p s) as [->|(h & it & it' & Hl & Hh & H)];
    [done|].
  destruct H as (_ & _ & _ & _ & _ & Hi & Hr & Hs & _ & _ & Hhp).
  destruct Hwf as (Hsc & Hnd & Hdom).
  unfold wf. rewrite Hi, Hr, Hs, Hhp. repeat split; [done..|].
  intros x Hx. rewrite dom_insert_L. apply elem_of_union. right. by apply Hdom.
Qed.

Lemma wf_undo s : wf s → wf (undo s).
Proof.
  destruct s as [ch its rd mp pp ds sc hp]. intros (Hsc & Hnd & Hdom).
  cbn in Hsc, Hnd, Hdom. subst sc.
  destruct (pop its) as [[h l]|] eqn:Hpop.
  - apply pop_Some in Hpop as ->.
    assert (NoDup (l ++ rd ++ [h])) as Hnd'.
    { eapply NoDup_Permutation_proper; [|exact Hnd].
      rewrite <-!app_assoc. f_equiv. apply Permutation_app_comm. }
    rewrite undo_snoc.
    + repeat split; cbn; [done|].
      intros x Hx. apply Hdom. revert Hx.
      rewrite !elem_of_app, !list_elem_of_singleton. tauto.
    + rewrite <-app_assoc in Hnd. apply NoDup_app in Hnd as (_ & Hd & _).
      intros Hin. apply (Hd h Hin). apply elem_of_app. left.
      by apply list_elem_of_singleton.
  - unfold undo. cbn. rewrite Hpop. by repeat split.
Qed.

Lemma wf_redo s : wf s → wf (redo s).
Proof.
  destruct s as [ch its rd mp pp ds sc hp]. intros (Hsc & Hnd & Hdom).
  cbn in Hsc, Hnd, Hdom. subst sc.
  destruct (pop rd) as [[h l]|] eqn:Hpop.
  - apply pop_Some in Hpop as ->.
    assert (NoDup ((its ++ [h]) ++ l)) as Hnd'.
    { eapply NoDup_Permutation_proper; [|exact Hnd].
      rewrite <-!app_assoc. f_equiv. apply Permutation_app_comm. }
    rewrite redo_snoc.
    + repeat split; cbn; [done|].
      intros x Hx. apply Hdom. revert Hx.
      rewrite !elem_of_app, !list_elem_of_singleton. tauto.
    + apply NoDup_app in Hnd as (_ & Hd & _).
      intros Hin. apply (Hd h Hin). apply elem_of_app. right.
      by apply list_elem_of_singleton.
  - unfold redo. cbn. rewrite Hpop. by repeat split.
Qed.

Lemma wf_step s e : wf s → wf (step s e).
Proof.
  destruct e; cbn [step]; intros Hwf.
  - by apply wf_mousePressEvent.
  - by apply wf_mouseMoveEvent.
  - exact Hwf.
  - exact Hwf.
  - by apply wf_undo.
  - by apply wf_redo.
  - exact Hwf.
Qed.

Lemma wf_run evs s : wf s → wf (run evs s).
Proof.
  revert s. induction evs as [|e evs IH]; intros s Hwf; [done|].
  cbn. apply IH. by apply wf_step.
Qed.

(** A tap with the pen and no move: one operation, which [undo] takes off
    the stack and the scene and [redo] brings back as it was. *)
Example pen_tap_undo_redo :
  let s := mousePressEvent true (mkPoint 2 2) init in
  render_to_image s = [ItemGroup []]
  ∧ items (undo s) = [] ∧ render_to_image (undo s) = []
  ∧ redo (undo s) = s.
Proof. by vm_compute. Qed.

(** *** Frame lemmas for the [changed] flag *)

Lemma changed_scene_addItem h s : changed (scene_addItem h s) = changed s.
Proof. unfold scene_addItem. by case_decide. Qed.

Lemma changed_add_item h s : changed (add_item h s) = changed s.
Proof. done. Qed.

Lemma changed_undo s : changed (undo s) = changed s.
Proof. unfold undo. by destruct (pop (items s)) as [[h l]|]. Qed.

Lemma changed_redo s : changed (redo s) = changed s.
Proof.
  unfold redo. destruct (pop (redo_items s)) as [[h l]|]; [|done].
  by rewrite changed_scene_addItem.
Qed.

Lemma changed_mousePressEvent under pos s :
  changed (mousePressEvent under pos s) = changed s.
Proof.
  unfold mousePressEvent. destruct under; [|done]. cbn.
  destruct (drawing_style s); [done|..]; cbn;
    by rewrite changed_scene_addItem.
Qed.

(** *** Dragging an ellipse or a rectangle *)

Lemma dragging_box_begin anchor s :
  drawing_style s = ELLIPSE ∨ drawing_style s = RECT →
  dragging_box anchor (mousePressEvent true anchor s).
Proof.
  intros Hst. unfold mousePressEvent. cbn.
  destruct Hst as [Hst|Hst]; rewrite Hst.
  all: unfold dragging_box, add_item, scene_addItem; case_decide; cbn.
  all: rewrite Hst, last_snoc.
  all: repeat split; eauto.
  all: eexists _, _; rewrite lookup_insert_eq; eauto.
Qed.

Lemma dragging_box_move anchor p s :
  dragging_box anchor s →
  ∃ s', mouseMoveEvent true p s = (inr tt, s')
        ∧ dragging_box anchor s'
        ∧ changed s' = true
        ∧ last_rect s' = Some (mkRect (px anchor) (py anchor)
                                      (px p - px anchor) (py p - py anchor)).
Proof.
  intros (Hmp & Hpp & Hst & h & it & Hl & Hh & Hr).
  unfold mouseMoveEvent. rewrite Hmp, Hpp. cbn [andb].
  set (r := mkRect _ _ _ _).
  assert (∃ it', setRect r it = Some it' ∧ item_rect it' = Some r) as (it' & Hit' & Hr').
  { destruct it as [ls|r0|r0]; cbn; eauto. by destruct Hr. }
  assert (update_last (setRect r) s = (inr tt, set_heap (<[h := it']> (heap s)) s)) as Hu.
  { unfold update_last. rewrite Hl, Hh. cbn. by rewrite Hit'. }
  destruct Hst as [Hst|Hst]; rewrite Hst; unfold mbind, Eff_bind; rewrite Hu; cbn.
  all: eexists; split; [done|].
  all: unfold dragging_box, last_rect; cbn; rewrite Hl, Hmp, Hpp; cbn.
  all: rewrite lookup_insert_eq; cbn; rewrite Hr'.
  all: repeat split; eauto.
  all: eexists h, it'; rewrite lookup_insert_eq, Hr'; eauto.
Qed.

Lemma dragging_box_moves anchor (moves : list (bool * QPointF)) s :
  dragging_box anchor s →
  dragging_box anchor (run (map (λ m, MouseMove m.1 m.2) moves) s).
Proof.
  revert s. induction moves as [|[u q] moves IH]; intros s Hd; [done|].
  cbn. apply IH. destruct u.
  - destruct (dragging_box_move anchor q s Hd) as (s' & -> & Hd' & _). done.
  - unfold mouseMoveEvent. rewrite andb_false_r. done.
Qed.

(** *** The claims about the editor *)

(** C1, as the code has it: for an ellipse or rectangle begun at an anchor,
    every later pointer move over the photo, whatever moves came between,
    stores in the item the rectangle whose origin is the anchor and whose
    width and height are the differences that the code computes, current
    point minus anchor. Width and height are kept signed. *)
Theorem box_spans_anchor_to_current_point
    (s : ScreenshotEditor) (anchor p : QPointF) (moves : list (bool * QPointF))
    (Hstyle : drawing_style s = ELLIPSE ∨ drawing_style s = RECT) :
  let s1 := mousePressEvent true anchor s in
  let s2 := run (map (λ m, MouseMove m.1 m.2) moves) s1 in
  ∃ s3 r, mouseMoveEvent true p s2 = (inr tt, s3)
    ∧ last_rect s3 = Some r
    ∧ r = mkRect (px anchor) (py anchor) (px p - px anchor) (py p - py anchor)
    ∧ corner1 r = anchor.
Proof.
  intros s1 s2.
  assert (dragging_box anchor s2) as Hd
    by by apply dragging_box_moves, dragging_box_begin.
  destruct (dragging_box_move anchor p s2 Hd) as (s3 & Hm & _ & _ & Hr).
  exists s3, (mkRect (px anchor) (py anchor) (px p - px anchor) (py p - py anchor)).
  repeat split; [done..|]. by destruct anchor.
Qed.

Lemma box_spans_anchor_to_current_point_witness :
  let s := set_drawing_style RECT init in
  let s2 := run [MouseMove true (mkPoint 7 8); MouseMove false (mkPoint 0 0)]
                (mousePressEvent true (mkPoint 1 2) s) in
  ∃ s3 r, mouseMoveEvent true (mkPoint 4 6) s2 = (inr tt, s3)
    ∧ last_rect s3 = Some r
    ∧ r = mkRect 1 2 (4 - 1) (6 - 2)
    ∧ corner1 r = mkPoint 1 2.
Proof.
  apply (box_spans_anchor_to_current_point
           (set_drawing_style RECT init) (mkPoint 1 2) (mkPoint 4 6)
           [(true, mkPoint 7 8); (false, mkPoint 0 0)]).
  right. reflexivity.
Defined.

(** C1, the claim as written fails: an ellipse begun at (10,10) and
    extended to (5,5) is stored as origin (10,10) with width and height -5,
    not as the box (5,5)-(10,10) of width and height 5. *)
Lemma ellipse_dragged_up_left_keeps_negative_size :
  let s := run [SetDrawingStyle ELLIPSE;
                MousePress true (mkPoint 10 10);
                MouseMove true (mkPoint 5 5)] init in
  last_rect s = Some (mkRect 10 10 (-5) (-5))
  ∧ spanned_box (mkPoint 10 10) (mkPoint 5 5) = mkRect 5 5 5 5
  ∧ last_rect s ≠ Some (spanned_box (mkPoint 10 10) (mkPoint 5 5))
  ∧ ∃ r, last_rect s = Some r ∧ rw r < 0 ∧ rh r < 0.
Proof.
  assert (last_rect (run [SetDrawingStyle ELLIPSE;
                          MousePress true (mkPoint 10 10);
                          MouseMove true (mkPoint 5 5)] init)
          = Some (mkRect 10 10 (-5) (-5))) as H by (vm_compute; reflexivity).
  cbv zeta. rewrite H.
  split; [done|]. split; [done|]. split; [done|].
  exists (mkRect 10 10 (-5) (-5)). repeat split; cbn; lia.
Qed.

(** C4: in any state the editor reaches from a freshly opened image, with N
    operations on the stack, N calls of [undo] empty the stack and the
    scene, and N calls of [redo] after them give back the very same editor
    state: the same items in the same order on the stack and in the scene,
    hence the same rendered image. *)
Theorem undo_all_then_redo_all_restores (evs : list event) :
  let s := run evs init in
  let n := length (items s) in
  items (Nat.iter n undo s) = []
  ∧ render_to_image (Nat.iter n undo s) = []
  ∧ Nat.iter n redo (Nat.iter n undo s) = s
  ∧ items (Nat.iter n redo (Nat.iter n undo s)) = items s
  ∧ render_to_image (Nat.iter n redo (Nat.iter n undo s)) = render_to_image s.
Proof.
  intros s n. subst n.
  assert (wf s) as (Hsc & Hnd & _) by apply wf_run, wf_init.
  destruct s as [ch its rd mp pp ds sc hp]. cbn in Hsc, Hnd. subst sc.
  cbn [items].
  apply NoDup_app in Hnd as (Hnd & _ & _).
  pose proof (undo_iter ch [] its rd mp pp ds hp Hnd) as Hu.
  pose proof (redo_iter ch [] its rd mp pp ds hp Hnd) as Hr.
  cbn [app] in Hu, Hr. rewrite Hu, Hr. done.
Qed.

(** C5: a new operation, whether through [add_item] itself or through a
    pointer press over the photo with a drawing style selected, leaves
    [redo_items] empty, whatever had been undone before, and the [redo]
    that follows changes nothing. *)
Theorem new_operation_discards_undone
    (s : ScreenshotEditor) (pos : QPointF)
    (Hstyle : drawing_style s ≠ NONE) :
  (∀ t h, redo_items (add_item h t) = [] ∧ redo (add_item h t) = add_item h t)
  ∧ (let s' := mousePressEvent true pos s in
     length (items s') = S (length (items s))
     ∧ redo_items s' = [] ∧ redo s' = s').
Proof.
  split; [done|].
  unfold mousePressEvent. cbn.
  destruct (drawing_style s); [done|..].
  all: unfold scene_addItem; case_decide; cbn.
  all: by rewrite length_app, Nat.add_1_r.
Qed.

Lemma new_operation_discards_undone_witness :
  let s := undo (mousePressEvent true (mkPoint 3 4) init) in
  redo_items s ≠ []
  ∧ (∀ t h, redo_items (add_item h t) = [] ∧ redo (add_item h t) = add_item h t)
  ∧ (let s' := mousePressEvent true (mkPoint 1 1) s in
     length (items s') = S (length (items s))
     ∧ redo_items s' = [] ∧ redo s' = s').
Proof.
  split; [by vm_compute|].
  apply (new_operation_discards_undone
           (undo (mousePressEvent true (mkPoint 3 4) init)) (mkPoint 1 1)).
  by vm_compute.
Defined.

(** C9, as the code has it: a pointer move that extends the operation in
    progress (button down over the photo, a drawing style selected, the
    handler returning normally) sets [changed], and [save] clears it;
    starting an operation ([add_item], a pointer press), [undo] and [redo]
    leave [changed] as it was. *)
Theorem changed_set_by_extend_cleared_by_save
    (s s' : ScreenshotEditor) (p : QPointF)
    (Hpressed : mouse_pressed s = true)
    (Hstyle : drawing_style s ≠ NONE)
    (Hmove : mouseMoveEvent true p s = (inr tt, s')) :
  changed s' = true
  ∧ (∀ t, changed (save t) = false)
  ∧ (∀ t h, changed (add_item h t) = changed t)
  ∧ (∀ t under pos, changed (mousePressEvent under pos t) = changed t)
  ∧ (∀ t, changed (undo t) = changed t)
  ∧ (∀ t, changed (redo t) = changed t).
Proof.
  split; [|split; [done|]].
  - destruct (mouseMoveEvent_cases true p s) as [Hsame|(h & it & it' & H)].
    + revert Hsame Hmove. unfold mouseMoveEvent. rewrite Hpressed. cbn [andb].
      destruct (drawing_style s) eqn:Hds, (previous_point s) as [prev|];
        try done; try (destruct (last (items s)); by intros _ [=]).
      all: unfold mbind, Eff_bind.
      all: match goal with |- context [update_last ?f ?s0] =>
             pose proof (update_last_spec f s0) as Hu;
             destruct (update_last f s0) as [[e|[]] s1] end.
      all: try by intros _ [=].
      all: cbn; by intros _ [= <-].
    + destruct H as (_ & _ & _ & _ & _ & _ & Hch & _).
      by rewrite Hmove in Hch.
  - split; [by intros|]. split; [intros; apply changed_mousePressEvent|].
    split; [intros; apply changed_undo | intros; apply changed_redo].
Qed.

Lemma changed_set_by_extend_cleared_by_save_witness :
  let s := mousePressEvent true (mkPoint 0 0) init in
  let s' := state_of (mouseMoveEvent true (mkPoint 2 3) s) in
  changed s = false
  ∧ changed s' = true
  ∧ (∀ t, changed (save t) = false)
  ∧ (∀ t h, changed (add_item h t) = changed t)
  ∧ (∀ t under pos, changed (mousePressEvent under pos t) = changed t)
  ∧ (∀ t, changed (undo t) = changed t)
  ∧ (∀ t, changed (redo t) = changed t).
Proof.
  split; [by vm_compute|].
  apply (changed_set_by_extend_cleared_by_save
           (mousePressEvent true (mkPoint 0 0) init)
           (state_of (mouseMoveEvent true (mkPoint 2 3)
                        (mousePressEvent true (mkPoint 0 0) init)))
           (mkPoint 2 3)).
  - by vm_compute.
  - by vm_compute.
  - by vm_compute.
Defined.

(** C9, the claim as written fails: starting an operation, undoing it and
    redoing it each change the stack of a freshly opened image, and
    [changed] is still false after each of them. *)
Lemma begin_undo_redo_leave_changed_false :
  let s0 := init in
  let s1 := mousePressEvent true (mkPoint 0 0) s0 in
  let s2 := undo s1 in
  let s3 := redo s2 in
  (items s1 ≠ items s0 ∧ changed s1 = false)
  ∧ (items s2 ≠ items s1 ∧ changed s2 = false)
  ∧ (items s3 ≠ items s2 ∧ changed s3 = false).
Proof. by vm_compute. Qed.


End EditorFacts.

(** ** Properties of the state monad *)

Section eff.
Context {S : Type}.
Implicit Types P : S → Prop.

Lemma preserves_ret {A} P (a : A) : preserves P (mret a : Eff S A).
Proof. by intros s. Qed.

Lemma preserves_raise {A} P e : preserves P (raise e : Eff S A).
Proof. by intros s. Qed.

Lemma preserves_modify P (f : S → S) :
  (∀ s, P s → P (f s)) → preserves P (modify f).
Proof. intros Hf s. apply Hf. Qed.

Lemma preserves_bind {A B} P (m : Eff S A) (k : A → Eff S B) :
  preserves P m → (∀ a, preserves P (k a)) → preserves P (m ≫= k).
Proof.
  intros Hm Hk s Hs. specialize (Hm s Hs).
  unfold mbind, Eff_bind, state_of in *.
  destruct (m s) as [[e|a] s']; [done|]. by apply Hk.
Qed.

Lemma preserves_for_each {A} P (f : A → Eff S unit) (l : list A) :
  (∀ x, preserves P (f x)) → preserves P (for_each f l).
Proof.
  intros Hf. induction l as [|x l IH]; [apply preserves_ret|].
  cbn. apply preserves_bind; [apply Hf | by intros _].
Qed.

Lemma for_each_cons {A} (f : A → Eff S unit) (x : A) (l : list A) :
  for_each f (x :: l) = (f x ≫= λ _, for_each f l).
Proof. done. Qed.

Lemma bind_ok {A B} (m : Eff S A) (k : A → Eff S B) s a s' :
  m s = (inr a, s') → (m ≫= k) s = k a s'.
Proof. intros H. unfold mbind, Eff_bind. by rewrite H. Qed.

End eff.

(** ** Properties of the screenshot list *)

Module ScreenshotsFacts.
Import Screenshots.

(** *** Sorting *)

Lemma insert_sorted_perm x l : insert_sorted x l ≡ₚ x :: l.
Proof.
  induction l as [|y l IH]; [done|]. cbn.
  destruct (item_lt y x); [|done].
  rewrite IH. apply Permutation_swap.
Qed.

Lemma sort_rows_cons x l : sort_rows (x :: l) = insert_sorted x (sort_rows l).
Proof. done. Qed.

Lemma sort_rows_perm l : sort_rows l ≡ₚ l.
Proof.
  induction l as [|x l IH]; [done|].
  by rewrite sort_rows_cons, insert_sorted_perm, IH.
Qed.

Lemma insert_sorted_newest_first x l :
  newest_first l → newest_first (insert_sorted x l).
Proof.
  unfold newest_first.
  induction l as [|y l IH]; intros Hl; cbn.
  - repeat constructor.
  - apply StronglySorted_cons in Hl as [Hy Hl].
    unfold item_lt. destruct (Z.ltb_spec (timestamp x) (timestamp y)) as [Hlt|Hge].
    + apply StronglySorted_cons. split; [|by apply IH].
      rewrite insert_sorted_perm. constructor; [lia | done].
    + apply StronglySorted_cons. split.
      * constructor; [done|].
        eapply Forall_impl; [exact Hy|]. cbn. intros z Hz. lia.
      * by apply StronglySorted_cons.
Qed.

Lemma sort_rows_newest_first l : newest_first (sort_rows l).
Proof.
  induction l as [|x l IH]; [constructor|].
  rewrite sort_rows_cons. by apply insert_sorted_newest_first.
Qed.

(** Rows already in order are left as they are. *)
Lemma insert_sorted_head x l :
  Forall (λ y, timestamp y ≤ timestamp x) l → insert_sorted x l = x :: l.
Proof.
  destruct l as [|y l]; [done|]. intros [Hy _]%Forall_cons. cbn.
  unfold item_lt. destruct (Z.ltb_spec (timestamp x) (timestamp y)); [lia|done].
Qed.

Lemma sort_rows_sorted l : newest_first l → sort_rows l = l.
Proof.
  unfold newest_first. induction l as [|x l IH]; [done|].
  intros [Hx Hl]%StronglySorted_cons. rewrite sort_rows_cons, IH by done.
  by apply insert_sorted_head.
Qed.

(** *** [remove_file] and [add_file] *)

Lemma paths_sortItems s : paths (sortItems s) ≡ₚ paths s.
Proof. unfold paths. cbn. by rewrite sort_rows_perm. Qed.

(** Either no row has the path and nothing happens, or the first such row
    is taken out and the rest sorted. *)
Lemma remove_file_cases path s :
  ((path ∉ paths s) ∧ remove_file path s = s)
  ∨ (∃ l1 item l2,
       rows s = l1 ++ item :: l2
       ∧ file_path item = path
       ∧ (path ∉ file_path <$> l1)
       ∧ remove_file path s = mkList (sort_rows (l1 ++ l2)) (old_filelist s)).
Proof.
  unfold remove_file.
  destruct (list_find _ (rows s)) as [[row item]|] eqn:Hfind.
  - right. apply list_find_Some in Hfind as (Hrow & Hitem & Hfirst).
    exists (take row (rows s)), item, (drop (S row) (rows s)).
    split; [by rewrite take_drop_middle|]. split; [done|]. split.
    + intros (y & Hy & Hin)%list_elem_of_fmap.
      apply list_elem_of_lookup in Hin as [j Hj].
      pose proof (lookup_lt_Some _ _ _ Hj) as Hlen.
      rewrite length_take in Hlen.
      rewrite lookup_take_lt in Hj by lia.
      apply (Hfirst j y Hj); [lia | done].
    + unfold sortItems, takeItem, set_rows. cbn. by rewrite delete_take_drop.
  - left. split; [|done].
    apply list_find_None in Hfind.
    intros (y & Hy & Hin)%list_elem_of_fmap.
    rewrite Forall_forall in Hfind. by apply (Hfind y Hin).
Qed.

Lemma old_filelist_remove_file path s :
  old_filelist (remove_file path s) = old_filelist s.
Proof.
  destruct (remove_file_cases path s)
    as [[_ ->]|(l1 & item & l2 & _ & _ & _ & ->)]; done.
Qed.

Lemma newest_first_remove_file path s :
  newest_first (rows s) → newest_first (rows (remove_file path s)).
Proof.
  destruct (remove_file_cases path s)
    as [[_ ->]|(l1 & item & l2 & _ & _ & _ & ->)]; [done|].
  intros _. apply sort_rows_newest_first.
Qed.

Lemma NoDup_remove_file path s :
  NoDup (paths s) → NoDup (paths (remove_file path s)).
Proof.
  destruct (remove_file_cases path s)
    as [[_ ->]|(l1 & item & l2 & Hrows & _ & _ & ->)]; [done|].
  unfold paths. cbn. rewrite Hrows, sort_rows_perm, !fmap_app, fmap_cons.
  rewrite !NoDup_app, NoDup_cons. intros (H1 & H12 & _ & H2).
  split; [done|]. split; [|done].
  intros x Hx Hx2. apply (H12 x Hx). by right.
Qed.

(** Membership after [remove_file], for the other paths and, when no path
    is listed twice, for the removed one. *)
Lemma elem_of_paths_remove_file_ne path q s :
  q ≠ path → q ∈ paths (remove_file path s) ↔ q ∈ paths s.
Proof.
  intros Hne.
  destruct (remove_file_cases path s)
    as [[_ ->]|(l1 & item & l2 & Hrows & Hitem & _ & ->)]; [done|].
  unfold paths. cbn. rewrite Hrows, sort_rows_perm, !fmap_app, fmap_cons.
  rewrite !elem_of_app, elem_of_cons.
  split; [intros [?|?]; auto | intros [?|[->|?]]; auto].
  by rewrite Hitem in Hne.
Qed.

Lemma not_elem_of_paths_remove_file path s :
  NoDup (paths s) → path ∉ paths (remove_file path s).
Proof.
  destruct (remove_file_cases path s)
    as [[Hnot ->]|(l1 & item & l2 & Hrows & Hitem & Hl1 & ->)]; [done|].
  unfold paths. cbn. rewrite Hrows, sort_rows_perm, !fmap_app, fmap_cons.
  rewrite NoDup_app, NoDup_cons, elem_of_app, Hitem.
  intros (_ & _ & Hl2 & _). tauto.
Qed.

(** What [ScreenshotListItem_load] gives. *)
Lemma load_inr fs path item :
  ScreenshotListItem_load fs path = inr item →
  item = mkItem path (timestamp item) (QImage_size fs path)
  ∧ getmtime fs path = inr (timestamp item)
  ∧ time_error fs (timestamp item) = None.
Proof.
  unfold ScreenshotListItem_load.
  destruct (getmtime fs path) as [e|t]; [done|].
  destruct (time_error fs t) as [e|] eqn:Ht; [done|]. by intros [= <-].
Qed.



Lemma can_load_true fs path :
  can_load fs path = true → ∃ item, ScreenshotListItem_load fs path = inr item.
Proof.
  unfold can_load. destruct (ScreenshotListItem_load fs path) as [e|item]; [done|].
  eauto.
Qed.

(** What [add_file] returns and leaves, by whether the item can be made. *)
Lemma add_file_cases fs path s :
  match ScreenshotListItem_load fs path with
  | inr item =>
      add_file fs path s
      = (inr tt, sortItems (addItem item (remove_file path s)))
  | inl e => add_file fs path s = (inl e, remove_file path s)
  end.
Proof.
  unfold add_file, mbind, Eff_bind, modify.
  by destruct (ScreenshotListItem_load fs path).
Qed.

Lemma state_of_add_file fs path s :
  state_of (add_file fs path s)
  = match ScreenshotListItem_load fs path with
    | inr item => sortItems (addItem item (remove_file path s))
    | inl _ => remove_file path s
    end.
Proof.
  pose proof (add_file_cases fs path s) as H.
  destruct (ScreenshotListItem_load fs path); by rewrite H.
Qed.

Lemma old_filelist_add_file fs path s :
  old_filelist (state_of (add_file fs path s)) = old_filelist s.
Proof.
  rewrite state_of_add_file.
  destruct (ScreenshotListItem_load fs path); cbn; apply old_filelist_remove_file.
Qed.

Lemma elem_of_paths_add_file fs path item q s :
  ScreenshotListItem_load fs path = inr item →
  q ∈ paths (state_of (add_file fs path s)) ↔ q = path ∨ q ∈ paths s.
Proof.
  intros Hl. rewrite state_of_add_file, Hl, paths_sortItems.
  apply load_inr in Hl as (-> & _).
  unfold paths. cbn. rewrite fmap_app, elem_of_app. cbn.
  rewrite list_elem_of_singleton.
  destruct (decide (q = path)) as [->|Hne]; [tauto|].
  pose proof (elem_of_paths_remove_file_ne path q s Hne) as H.
  unfold paths in H. tauto.
Qed.

(** *** The list stays ordered and free of duplicates *)

Lemma ordered_and_unique_init : ordered_and_unique init.
Proof. split; constructor. Qed.

Lemma ordered_and_unique_remove_file path s :
  ordered_and_unique s → ordered_and_unique (remove_file path s).
Proof.
  intros [Hs Hn]. split;
    [by apply newest_first_remove_file | by apply NoDup_remove_file].
Qed.

Lemma preserves_add_file fs path :
  preserves ordered_and_unique (add_file fs path).
Proof.
  intros s Hs. rewrite state_of_add_file.
  destruct (ScreenshotListItem_load fs path) as [e|item] eqn:Hl;
    [by apply ordered_and_unique_remove_file|].
  apply load_inr in Hl as (-> & _).
  destruct Hs as [_ Hn]. split.
  - apply sort_rows_newest_first.
  - rewrite paths_sortItems. unfold paths. cbn.
    rewrite fmap_app. apply NoDup_app. split; [|split].
    + by apply NoDup_remove_file.
    + intros x Hx ->%list_elem_of_singleton.
      by apply (not_elem_of_paths_remove_file path s Hn).
    + apply NoDup_singleton.
Qed.

Lemma preserves_update_from_filelist iter cfg fs :
  preserves ordered_and_unique (update_from_filelist iter cfg fs).
Proof.
  intros s. unfold update_from_filelist. cbv zeta.
  destruct (if isfile fs _ then _ else _) as [e|]; [done|].
  generalize (iter (read_filelist fs (screenshot_source_filelist_path cfg)
                    ∖ old_filelist s)) as added_files.
  generalize (iter (old_filelist s
                    ∖ read_filelist fs (screenshot_source_filelist_path cfg)))
    as removed_files.
  intros removed_files added_files. revert s.
  apply preserves_bind; [by apply preserves_modify|]. intros _.
  apply preserves_bind.
  - apply preserves_for_each, preserves_add_file.
  - intros _. apply preserves_for_each. intros path.
    apply preserves_modify, ordered_and_unique_remove_file.
Qed.

Lemma preserves_load_screenshots iter cfg fs now :
  preserves ordered_and_unique (load_screenshots iter cfg fs now).
Proof.
  unfold load_screenshots.
  apply preserves_bind.
  { apply preserves_modify. intros s _. split; constructor. }
  intros _. apply preserves_bind.
  - destruct (_ && _); [|apply preserves_ret].
    apply preserves_for_each. intros full_path.
    destruct (getmtime fs full_path) as [e|t]; [apply preserves_raise|].
    destruct (t <? now - 86400); [apply preserves_ret | apply preserves_add_file].
  - intros _. destruct (_ && _); [|apply preserves_ret].
    apply preserves_update_from_filelist.
Qed.

Lemma ordered_and_unique_apply_op s o :
  ordered_and_unique s → ordered_and_unique (apply_op s o).
Proof.
  destruct o; cbn [apply_op].
  - apply preserves_add_file.
  - apply ordered_and_unique_remove_file.
  - apply preserves_update_from_filelist.
  - apply preserves_load_screenshots.
Qed.

Lemma ordered_and_unique_run ops s :
  ordered_and_unique s → ordered_and_unique (run ops s).
Proof.
  revert s. induction ops as [|o ops IH]; intros s Hs; [done|].
  cbn. by apply IH, ordered_and_unique_apply_op.
Qed.

(** *** The claims about the order and the uniqueness of rows *)

(** Rows in order of time are in one order only when no two of them have
    the same time. *)
Lemma newest_first_unique (l1 l2 : list ScreenshotListItem) :
  NoDup (timestamp <$> l1) → newest_first l1 → newest_first l2 →
  l1 ≡ₚ l2 → l1 = l2.
Proof.
  intros Hnd H1 H2 Hp. unfold newest_first in H1, H2.
  eapply StronglySorted_unique_strong; [|exact H1|exact H2|exact Hp].
  intros x1 x2 Hx1 Hx2 H12 H21. rewrite <-Hp in Hx2. cbn in H12, H21.
  assert (timestamp x1 = timestamp x2) as Ht by lia.
  clear H1 H2 Hp H12 H21. induction l1 as [|y l IH]; [by apply elem_of_nil in Hx1|].
  rewrite fmap_cons in Hnd. apply NoDup_cons in Hnd as [Hy Hnd].
  apply elem_of_cons in Hx1 as [->|Hx1], Hx2 as [->|Hx2]; [done|..|by apply IH].
  - destruct Hy. rewrite Ht. by apply list_elem_of_fmap_2.
  - destruct Hy. rewrite <-Ht. by apply list_elem_of_fmap_2.
Qed.

(** C2, as the code has it: after any history of [add_file],
    [remove_file], [update_from_filelist] and [load_screenshots] calls on a
    new list, the rows are in descending order of modification time: no row
    comes before a row with a later time. Rows with the same time are in no
    particular order of path; two lists that hold the same rows show them in
    the same order when no two rows have the same time. *)
Theorem rows_newest_first (ops ops' : list op) :
  newest_first (rows (run ops init))
  ∧ (rows (run ops init) ≡ₚ rows (run ops' init) →
     NoDup (timestamp <$> rows (run ops init)) →
     rows (run ops init) = rows (run ops' init)).
Proof.
  assert (∀ o, newest_first (rows (run o init))) as Hsorted.
  { intros o. apply (ordered_and_unique_run o init), ordered_and_unique_init. }
  split; [done|]. intros Hperm Hdistinct.
  by apply newest_first_unique.
Qed.

Lemma rows_newest_first_witness :
  let fs := sample_fs [] in
  let ops := [AddFile fs "/a.png"; AddFile fs "/c.png"] in
  let ops' := [AddFile fs "/c.png"; AddFile fs "/a.png"] in
  newest_first (rows (run ops init))
  ∧ rows (run ops init) = rows (run ops' init).
Proof.
  pose proof (rows_newest_first
                [AddFile (sample_fs []) "/a.png"; AddFile (sample_fs []) "/c.png"]
                [AddFile (sample_fs []) "/c.png"; AddFile (sample_fs []) "/a.png"])
    as [Hsorted Hsame].
  split; [exact Hsorted|]. apply Hsame.
  - vm_compute. reflexivity.
  - apply (bool_decide_unpack _). vm_compute. exact I.
Defined.

(** C3: after any history of [add_file] and [remove_file] calls (and of
    [update_from_filelist] and [load_screenshots] calls) on a new list, no
    two rows have the same path. *)
Theorem rows_unique_by_path (ops : list op) :
  NoDup (paths (run ops init)).
Proof. apply (ordered_and_unique_run ops init), ordered_and_unique_init. Qed.

(** C2, the claim as written fails: two files written in the same second
    stay in the order they were added, here the larger path first, so the
    rows are not in the order by time and then path; and one disk with one
    list file gives two different row orders when the set of added paths is
    walked in two different orders. *)
Lemma equal_times_keep_arrival_order :
  let fs := sample_fs ["/a.png" +:+ nl; "/b.png" +:+ nl] in
  let s := run [AddFile fs "/b.png"; AddFile fs "/a.png"] init in
  let t1 := run [LoadScreenshots elements sample_cfg fs 1000] init in
  let t2 := run [LoadScreenshots (reverse ∘ elements) sample_cfg fs 1000] init in
  paths s = ["/b.png"; "/a.png"]
  ∧ ¬ spec_ordered (rows s)
  ∧ paths t1 = ["/a.png"; "/b.png"]
  ∧ paths t2 = ["/b.png"; "/a.png"].
Proof.
  cbv zeta. split; [by vm_compute|]. split; [|split; by vm_compute].
  assert (rows (run [AddFile (sample_fs ["/a.png" +:+ nl; "/b.png" +:+ nl]) "/b.png";
                     AddFile (sample_fs ["/a.png" +:+ nl; "/b.png" +:+ nl]) "/a.png"]
                    init)
          = [mkItem "/b.png" 100 (4, 3); mkItem "/a.png" 100 (4, 3)]) as ->
    by (vm_compute; reflexivity).
  unfold spec_ordered. intros [Hb _]%StronglySorted_cons.
  apply Forall_cons in Hb as [[Hlt|[_ Hpath]] _]; cbn in *; [lia|].
  by vm_compute in Hpath.
Qed.



(** *** Reading the list file *)

Lemma length_zero_iff_empty (p : string) :
  (String.length p =? 0)%nat = true ↔ p = "".
Proof. destruct p; cbn; split; congruence. Qed.

(** One turn of the loop over the lines. *)
Lemma elem_of_read_line fs (acc : gset string) line p :
  p ∈ (if (String.length (strip line) =? 0)%nat || negb (isfile fs (strip line))
       then acc else acc ∪ {[strip line]})
  ↔ p ∈ acc ∨ (strip line = p ∧ p ≠ "" ∧ isfile fs p = true).
Proof.
  destruct (String.length (strip line) =? 0)%nat eqn:Hlen; cbn.
  - apply length_zero_iff_empty in Hlen.
    split; [by left | intros [?|(<- & ? & _)]; [done | congruence]].
  - assert (strip line ≠ "") as Hne.
    { intros Hs. apply length_zero_iff_empty in Hs. congruence. }
    destruct (isfile fs (strip line)) eqn:Hfile; cbn.
    + rewrite elem_of_union, elem_of_singleton.
      split; [intros [?| ->]; [by left | by right]|].
      intros [?|(<- & _)]; [by left | by right].
    + split; [by left | intros [?|(<- & _ & ?)]; [done | congruence]].
Qed.

Lemma elem_of_read_lines fs (acc : gset string) ls p :
  p ∈ foldl (λ new_filelist line,
               let file_path := strip line in
               if (String.length file_path =? 0)%nat || negb (isfile fs file_path)
               then new_filelist
               else new_filelist ∪ {[file_path]}) acc ls
  ↔ p ∈ acc ∨ ∃ line, line ∈ ls ∧ strip line = p ∧ p ≠ "" ∧ isfile fs p = true.
Proof.
  revert acc. induction ls as [|line ls IH]; intros acc; cbn [foldl].
  - split; [by left | intros [?|(? & []%elem_of_nil & _)]; done].
  - rewrite IH. cbv zeta. rewrite elem_of_read_line. split.
    + intros [[?|?]|(l & ? & ?)]; [by left | right | right].
      * exists line. split; [by left | done].
      * exists l. split; [by right | done].
    + intros [?|(l & [->|?]%elem_of_cons & ?)];
        [by left; left | left; by right | right; by exists l].
Qed.

Lemma elem_of_read_filelist fs list_path p :
  p ∈ read_filelist fs list_path ↔ listed fs list_path p ∧ isfile fs p = true.
Proof.
  unfold read_filelist, listed.
  destruct (files fs !! list_path) as [f|].
  - rewrite elem_of_read_lines. split.
    + intros [[]%not_elem_of_empty|(l & ? & ? & ? & ?)].
      split; [|done]. by exists f, l.
    + intros [(f' & l & [= <-] & ? & ? & ?) ?]. right. by exists l.
  - split; [by intros []%not_elem_of_empty | by intros [(f & l & [=] & _) _]].
Qed.


Example strip_line : strip ("  /a.png " +:+ nl) = "/a.png".
Proof. reflexivity. Qed.

(** A no-break space (U+00A0) and an em space (U+2003) around a path. *)
Example strip_unicode :
  let nbsp := String (Ascii.ascii_of_nat 194) (String (Ascii.ascii_of_nat 160) "") in
  let emsp := String (Ascii.ascii_of_nat 226)
                (String (Ascii.ascii_of_nat 128) (String (Ascii.ascii_of_nat 131) "")) in
  strip (emsp +:+ "/a b.png" +:+ nbsp +:+ nl) = "/a b.png".
Proof. reflexivity. Qed.

Example read_filelist_sample :
  elements (read_filelist
              (sample_fs ["/a.png" +:+ nl; nl; " /b.png"; "/missing.png" +:+ nl])
              "/list.txt")
  = ["/a.png"; "/b.png"].
Proof. by vm_compute. Qed.

(** *** The two loops of [update_from_filelist] *)

Lemma for_each_add_file fs added s :
  Forall (λ p, can_load fs p = true) added →
  ∃ s', for_each (add_file fs) added s = (inr tt, s')
        ∧ old_filelist s' = old_filelist s
        ∧ (ordered_and_unique s → ordered_and_unique s')
        ∧ ∀ q, q ∈ paths s' ↔ q ∈ added ∨ q ∈ paths s.
Proof.
  revert s. induction added as [|p added IH]; intros s Hall.
  - exists s. split; [done|]. split; [done|]. split; [done|].
    intros q. rewrite elem_of_nil. tauto.
  - apply Forall_cons in Hall as [Hp Hall].
    apply can_load_true in Hp as [item Hl].
    pose proof (add_file_cases fs p s) as Hadd. rewrite Hl in Hadd.
    destruct (IH (state_of (add_file fs p s)) Hall) as (s' & Hrun & Hold & Hinv & Hmem).
    exists s'. rewrite for_each_cons. erewrite bind_ok by exact Hadd.
    rewrite Hadd in Hrun, Hold, Hinv, Hmem. split; [exact Hrun|].
    split; [|split].
    + rewrite Hold. cbn. apply old_filelist_remove_file.
    + intros Hs. apply Hinv.
      pose proof (preserves_add_file fs p s Hs) as H. by rewrite Hadd in H.
    + intros q. rewrite Hmem, elem_of_cons.
      pose proof (elem_of_paths_add_file fs p item q s Hl) as H.
      rewrite Hadd in H. unfold state_of in H. cbn [snd] in H. rewrite H. tauto.
Qed.

Lemma for_each_remove_file removed s :
  ordered_and_unique s →
  ∃ s', for_each (λ p, modify (remove_file p)) removed s = (inr tt, s')
        ∧ old_filelist s' = old_filelist s
        ∧ ordered_and_unique s'
        ∧ ∀ q, q ∈ paths s' ↔ q ∈ paths s ∧ q ∉ removed.
Proof.
  revert s. induction removed as [|p removed IH]; intros s Hs.
  - exists s. split; [done|]. split; [done|]. split; [done|].
    intros q. rewrite elem_of_nil. tauto.
  - pose proof (ordered_and_unique_remove_file p s Hs) as Hs'.
    destruct (IH (remove_file p s) Hs') as (s' & Hrun & Hold & Hinv & Hmem).
    exists s'. split; [exact Hrun|]. split; [|split; [done|]].
    + by rewrite Hold, old_filelist_remove_file.
    + intros q. rewrite Hmem, not_elem_of_cons.
      destruct (decide (q = p)) as [->|Hne].
      * pose proof (not_elem_of_paths_remove_file p s (proj2 Hs)). tauto.
      * rewrite (elem_of_paths_remove_file_ne p q s Hne). tauto.
Qed.

(** *** [update_from_filelist] and [load_screenshots] on any list *)

(** The list file can be read, when it is there. *)
Lemma readable_update iter cfg fs s :
  (isfile fs (screenshot_source_filelist_path cfg) = true →
   read_error fs !! screenshot_source_filelist_path cfg = None) →
  let new_filelist := read_filelist fs (screenshot_source_filelist_path cfg) in
  update_from_filelist iter cfg fs s
  = (modify (set_old_filelist new_filelist) ;;
     for_each (add_file fs) (iter (new_filelist ∖ old_filelist s)) ;;
     for_each (λ file_path, modify (remove_file file_path))
              (iter (old_filelist s ∖ new_filelist))) s.
Proof.
  intros Hread. unfold update_from_filelist. cbv zeta.
  destruct (isfile fs _); [by rewrite Hread|done].
Qed.

(** One run of [update_from_filelist] on a list without duplicate paths,
    when the list file can be read and the items of the newly listed files
    can be made: the paths newly listed gain a row, the paths no longer
    listed lose theirs, every other path is left alone. *)
Lemma update_from_filelist_paths iter cfg fs s :
  (∀ X p, p ∈ iter X ↔ p ∈ X) →
  ordered_and_unique s →
  let new_filelist := read_filelist fs (screenshot_source_filelist_path cfg) in
  (isfile fs (screenshot_source_filelist_path cfg) = true →
   read_error fs !! screenshot_source_filelist_path cfg = None) →
  (∀ p, p ∈ new_filelist → p ∉ old_filelist s → can_load fs p = true) →
  ∃ s', update_from_filelist iter cfg fs s = (inr tt, s')
    ∧ old_filelist s' = new_filelist
    ∧ ordered_and_unique s'
    ∧ ∀ p, p ∈ paths s' ↔
           (p ∈ new_filelist ∧ p ∉ old_filelist s ∨ p ∈ paths s)
           ∧ ¬ (p ∈ old_filelist s ∧ p ∉ new_filelist).
Proof.
  intros Hin Hs new_filelist Hread Hload.
  rewrite (readable_update iter cfg fs s Hread). cbv zeta. fold new_filelist.
  set (s0 := set_old_filelist new_filelist s).
  assert (Forall (λ p, can_load fs p = true) (iter (new_filelist ∖ old_filelist s)))
    as Hadded.
  { apply Forall_forall. intros p [Hp Hn]%Hin%elem_of_difference. by apply Hload. }
  destruct (for_each_add_file fs _ s0 Hadded) as (s1 & Hrun1 & Hold1 & Hinv1 & Hmem1).
  destruct (for_each_remove_file (iter (old_filelist s ∖ new_filelist)) s1
              (Hinv1 Hs)) as (s2 & Hrun2 & Hold2 & Hinv2 & Hmem2).
  exists s2. split.
  { erewrite bind_ok by reflexivity. erewrite bind_ok by exact Hrun1. exact Hrun2. }
  split; [by rewrite Hold2, Hold1|]. split; [done|].
  intros p. rewrite Hmem2, Hmem1, !Hin, !elem_of_difference. done.
Qed.

(** The paths of the watched folder that the scan keeps: reported by the
    walk, their time read, and modified no earlier than 86400 seconds
    before [now]. *)
Lemma for_each_scan fs now found s :
  Forall (λ p, ∃ t, getmtime fs p = inr t
                    ∧ (now - 86400 ≤ t → time_error fs t = None)) found →
  ordered_and_unique s →
  ∃ s', for_each (λ full_path,
                    match getmtime fs full_path with
                    | inl e => raise e
                    | inr t => if t <? now - 86400 then mret tt
                               else add_file fs full_path
                    end) found s = (inr tt, s')
        ∧ old_filelist s' = old_filelist s
        ∧ ordered_and_unique s'
        ∧ ∀ q, q ∈ paths s' ↔ (q ∈ found ∧ recent fs now q) ∨ q ∈ paths s.
Proof.
  revert s. induction found as [|p found IH]; intros s Hall Hs.
  - exists s. split; [done|]. split; [done|]. split; [done|].
    intros q. rewrite elem_of_nil. tauto.
  - apply Forall_cons in Hall as [(t & Hg & Ht) Hall].
    rewrite for_each_cons, Hg.
    destruct (Z.ltb_spec t (now - 86400)) as [Hold|Hnew].
    + destruct (IH s Hall Hs) as (s' & Hrun & Ho & Hinv & Hmem).
      exists s'. split; [exact Hrun|]. split; [done|]. split; [done|].
      intros q. rewrite Hmem, elem_of_cons. split; [tauto|].
      intros [[[->|?] (t' & Hg' & ?)]|?]; [|left; split; [done|by exists t']|by right].
      rewrite Hg in Hg'. injection Hg' as <-. lia.
    + assert (ScreenshotListItem_load fs p = inr (mkItem p t (QImage_size fs p)))
        as Hl.
      { unfold ScreenshotListItem_load. by rewrite Hg, (Ht Hnew). }
      pose proof (add_file_cases fs p s) as Hadd. rewrite Hl in Hadd.
      pose proof (preserves_add_file fs p s Hs) as Hs'.
      pose proof (elem_of_paths_add_file fs p (mkItem p t (QImage_size fs p))) as Hp.
      rewrite Hadd in Hs'. unfold state_of in Hs'. cbn [snd] in Hs'.
      destruct (IH _ Hall Hs') as (s' & Hrun & Ho & Hinv & Hmem).
      exists s'. erewrite bind_ok by exact Hadd. split; [exact Hrun|].
      split; [by rewrite Ho; cbn; apply old_filelist_remove_file|].
      split; [done|].
      intros q. rewrite Hmem, elem_of_cons.
      specialize (Hp q s Hl). rewrite Hadd in Hp.
      unfold state_of in Hp. cbn [snd] in Hp. rewrite Hp.
      split.
      * intros [[? ?]|[->|?]];
          [left; split; [by right | done]
          |left; split; [by left | by exists t]
          |by right].
      * intros [[[->|?] ?]|?];
          [right; by left | left; eauto | right; by right].
Qed.

(** The paths [load_screenshots] leaves, on a list with known-path set
    [old_filelist s]: the kept paths of the folder and the newly listed
    paths, without the paths no longer listed. A listed path that was known
    already gets no row from the list. *)
Lemma load_screenshots_paths iter cfg fs now s :
  (∀ X p, p ∈ iter X ↔ p ∈ X) →
  Forall (λ p, ∃ t, getmtime fs p = inr t
                    ∧ (now - 86400 ≤ t → time_error fs t = None))
         (walk fs (screenshot_source_folder_path cfg)) →
  let scanning := screenshot_source_folder_use cfg
                  && isdir fs (screenshot_source_folder_path cfg) in
  let reading := screenshot_source_filelist_use cfg
                 && isfile fs (screenshot_source_filelist_path cfg) in
  let new_filelist := read_filelist fs (screenshot_source_filelist_path cfg) in
  read_error fs !! screenshot_source_filelist_path cfg = None →
  (∀ p, p ∈ new_filelist → p ∉ old_filelist s → can_load fs p = true) →
  ∃ s', load_screenshots iter cfg fs now s = (inr tt, s')
    ∧ old_filelist s' = (if reading then new_filelist else old_filelist s)
    ∧ ∀ p, p ∈ paths s' ↔
           ((scanning = true
             ∧ p ∈ walk fs (screenshot_source_folder_path cfg)
             ∧ recent fs now p)
            ∨ (reading = true ∧ p ∈ new_filelist ∧ p ∉ old_filelist s))
           ∧ ¬ (reading = true ∧ p ∈ old_filelist s ∧ p ∉ new_filelist).
Proof.
  intros Hin Hwalk scanning reading new_filelist Hread Hload.
  unfold load_screenshots. fold scanning reading.
  erewrite bind_ok by reflexivity.
  assert (ordered_and_unique (clear s)) as Hs0 by (split; constructor).
  assert (∃ s1,
    (if scanning
     then for_each (λ full_path,
                      match getmtime fs full_path with
                      | inl e => raise e
                      | inr t => if t <? now - 86400 then mret tt
                                 else add_file fs full_path
                      end) (walk fs (screenshot_source_folder_path cfg))
     else mret tt) (clear s) = (inr tt, s1)
    ∧ old_filelist s1 = old_filelist s
    ∧ ordered_and_unique s1
    ∧ ∀ q, q ∈ paths s1 ↔
           scanning = true ∧ q ∈ walk fs (screenshot_source_folder_path cfg)
           ∧ recent fs now q)
    as (s1 & Hrun1 & Hold1 & Hs1 & Hmem1).
  { destruct scanning.
    - destruct (for_each_scan fs now _ (clear s) Hwalk Hs0)
        as (s1 & Hrun & Ho & Hinv & Hmem).
      exists s1. split; [done|]. split; [done|]. split; [done|].
      intros q. rewrite Hmem. cbn. rewrite elem_of_nil. tauto.
    - exists (clear s). split; [done|]. split; [done|]. split; [done|].
      intros q. cbn. rewrite elem_of_nil. split; [tauto | by intros [? _]]. }
  erewrite bind_ok by exact Hrun1.
  destruct reading.
  - destruct (update_from_filelist_paths iter cfg fs s1 Hin Hs1)
      as (s2 & Hrun2 & Hold2 & _ & Hmem2); [done|by rewrite Hold1|].
    exists s2. split; [done|]. split; [done|].
    intros p. fold new_filelist in Hmem2.
    rewrite Hmem2, Hold1, Hmem1. tauto.
  - exists s1. split; [done|]. split; [done|].
    intros p. rewrite Hmem1. split; [|by intros [[?|[? _]] _]].
    intros H. split; [by left|]. by intros [? _].
Qed.

(** On a list that knows no path yet, as a new list does, the load leaves
    exactly the kept paths of the folder and the listed files on disk. *)
Lemma load_screenshots_first iter cfg fs now s :
  (∀ X p, p ∈ iter X ↔ p ∈ X) →
  Forall (λ p, ∃ t, getmtime fs p = inr t
                    ∧ (now - 86400 ≤ t → time_error fs t = None))
         (walk fs (screenshot_source_folder_path cfg)) →
  read_error fs !! screenshot_source_filelist_path cfg = None →
  (∀ p, listed_and_existing cfg fs p → can_load fs p = true) →
  old_filelist s = ∅ →
  ∃ s', load_screenshots iter cfg fs now s = (inr tt, s')
    ∧ ∀ p, p ∈ paths s' ↔
           (screenshot_source_folder_use cfg
            && isdir fs (screenshot_source_folder_path cfg) = true
            ∧ p ∈ walk fs (screenshot_source_folder_path cfg)
            ∧ recent fs now p)
           ∨ (screenshot_source_filelist_use cfg
              && isfile fs (screenshot_source_filelist_path cfg) = true
              ∧ listed_and_existing cfg fs p).
Proof.
  intros Hin Hwalk Hread Hload Hold.
  destruct (load_screenshots_paths iter cfg fs now s Hin Hwalk Hread)
    as (s' & Hrun & _ & Hmem).
  { intros p Hp _. apply Hload. by apply elem_of_read_filelist. }
  exists s'. split; [done|]. intros p. rewrite Hmem, Hold.
  unfold listed_and_existing. rewrite <-elem_of_read_filelist.
  pose proof (not_elem_of_empty (C:=gset string) p). tauto.
Qed.

(** *** The claims about the list file and the bulk load *)




(** C8, the code at the failing input: with the folder and the file list in
    use, the first [load_screenshots] on a new list leaves the recent file
    of the folder and the two listed files; a second [load_screenshots] on
    the same disk with the same configuration leaves the recent file of the
    folder only, although both listed files are still listed and on disk. *)
Theorem second_load_drops_listed_files :
  let fs := sample_fs ["/a.png" +:+ nl; "/c.png" +:+ nl] in
  let r1 := load_screenshots elements both_cfg fs 1000 init in
  let r2 := load_screenshots elements both_cfg fs 1000 (state_of r1) in
  (raised r1 = None
   ∧ paths (state_of r1) = ["/shots/new.png"; "/c.png"; "/a.png"])
  ∧ (raised r2 = None
     ∧ paths (state_of r2) = ["/shots/new.png"])
  ∧ elements (read_filelist fs "/list.txt") = ["/c.png"; "/a.png"]
  ∧ isfile fs "/a.png" = true ∧ isfile fs "/c.png" = true.
Proof. by vm_compute. Qed.

End ScreenshotsFacts.


(** ** More properties of the annotation editor *)

Module GesturesFacts.
Import Editor Gestures EditorFacts.

#[local] Set Warnings "-clear-no-such-hyp".

(** *** The pen *)

Lemma drawing_stroke_begin p0 s :
  drawing_style s = PEN →
  drawing_stroke p0 [] (mousePressEvent true p0 s).
Proof.
  intros Hst. unfold mousePressEvent. cbn. rewrite Hst.
  unfold drawing_stroke, add_item, scene_addItem; case_decide; cbn.
  all: rewrite Hst, last_snoc.
  all: repeat split; eauto.
  all: eexists; rewrite lookup_insert_eq; eauto.
Qed.

Lemma drawing_stroke_move prev ls p s :
  drawing_stroke prev ls s →
  ∃ s', mouseMoveEvent true p s = (inr tt, s')
        ∧ drawing_stroke p (ls ++ [mkLine (px prev) (py prev) (px p) (py p)]) s'
        ∧ changed s' = true
        ∧ items s' = items s.
Proof.
  intros (Hmp & Hpp & Hst & h & Hl & Hh).
  unfold mouseMoveEvent. rewrite Hmp, Hpp, Hst. cbn [andb].
  set (l := mkLine _ _ _ _).
  assert (update_last (addToGroup l) s
          = (inr tt, set_heap (<[h := ItemGroup (ls ++ [l])]> (heap s)) s)) as Hu.
  { unfold update_last. rewrite Hl, Hh. done. }
  unfold mbind, Eff_bind. rewrite Hu. cbn.
  eexists. split; [done|].
  unfold drawing_stroke. cbn. rewrite Hl, Hst.
  repeat split; eauto.
  exists h. by rewrite lookup_insert_eq.
Qed.

Lemma drawing_stroke_moves prev ls (moves : list (bool * QPointF)) s :
  drawing_stroke prev ls s →
  let s' := run (map (λ m, MouseMove m.1 m.2) moves) s in
  drawing_stroke (default prev (last (over_photo moves)))
                 (ls ++ polyline prev (over_photo moves)) s'
  ∧ items s' = items s.
Proof.
  revert prev ls s. induction moves as [|[u q] moves IH]; intros prev ls s Hd.
  - cbn. by rewrite app_nil_r.
  - cbn [map run foldl step fst snd]. destruct u.
    + destruct (drawing_stroke_move prev ls q s Hd) as (s1 & Hm & Hd1 & _ & Hi).
      rewrite Hm. unfold state_of. cbn [snd].
      destruct (IH _ _ _ Hd1) as [Hd2 Hi2]. cbv zeta in Hd2, Hi2.
      unfold over_photo in *. rewrite filter_cons_True by done. cbn [fmap list_fmap snd].
      split; [|unfold run in *; by rewrite Hi2].
      rewrite <-app_assoc in Hd2. cbn [polyline app] in *.
      destruct (last (snd <$> filter _ moves)) as [z|] eqn:Hlast.
      * rewrite last_cons, Hlast. exact Hd2.
      * rewrite last_cons, Hlast. exact Hd2.
    + assert (mouseMoveEvent false q s = (inr tt, s)) as ->.
      { unfold mouseMoveEvent. by rewrite andb_false_r. }
      unfold state_of. cbn [snd].
      unfold over_photo. rewrite filter_cons_False by (cbn; congruence).
      apply IH, Hd.
Qed.

(** X1: A pen stroke is the chain of segments through the points the pointer
    visits over the photo: after a press at [p0] with the pen and any pointer
    moves, the group on top of the stack holds the segment from [p0] to the
    first point over the photo, from there to the second, and so on; moves
    off the photo add nothing, and the stack has grown by the one group. *)
Theorem pen_stroke_is_polyline
    (s : ScreenshotEditor) (p0 : QPointF) (moves : list (bool * QPointF))
    (Hstyle : drawing_style s = PEN) :
  let s' := run (map (λ m, MouseMove m.1 m.2) moves) (mousePressEvent true p0 s) in
  ∃ h, items s' = items s ++ [h]
       ∧ heap s' !! h = Some (ItemGroup (polyline p0 (over_photo moves)))
       ∧ previous_point s' = Some (default p0 (last (over_photo moves))).
Proof.
  intros s'.
  pose proof (drawing_stroke_begin p0 s Hstyle) as Hb.
  destruct (drawing_stroke_moves p0 [] moves _ Hb) as [(_ & Hpp & _ & h & Hl & Hh) Hi].
  fold s' in Hpp, Hl, Hh, Hi. exists h. cbn [app] in Hh.
  split; [|done].
  assert (∃ h0, items (mousePressEvent true p0 s) = items s ++ [h0]) as [h0 Hi0].
  { unfold mousePressEvent. cbn. rewrite Hstyle.
    unfold add_item, scene_addItem. case_decide; cbn; eauto. }
  rewrite Hi, Hi0 in Hl |- *. rewrite last_snoc in Hl. by injection Hl as ->.
Qed.

Lemma pen_stroke_is_polyline_witness :
  let moves := [(true, mkPoint 1 1); (false, mkPoint 9 9); (true, mkPoint 2 5)] in
  let s' := run (map (λ m, MouseMove m.1 m.2) moves)
                (mousePressEvent true (mkPoint 0 0) init) in
  ∃ h, items s' = items init ++ [h]
       ∧ heap s' !! h = Some (ItemGroup (polyline (mkPoint 0 0) (over_photo moves)))
       ∧ previous_point s' = Some (default (mkPoint 0 0) (last (over_photo moves))).
Proof.
  apply (pen_stroke_is_polyline init (mkPoint 0 0)
           [(true, mkPoint 1 1); (false, mkPoint 9 9); (true, mkPoint 2 5)]).
  reflexivity.
Defined.

(** *** When a pointer move raises *)

Lemma pressed_has_point_step s e : pressed_has_point s → pressed_has_point (step s e).
Proof.
  unfold pressed_has_point. destruct e as [u q|u q| | | | |]; cbn [step].
  - unfold mousePressEvent. destruct u; [|done]. cbn.
    destruct (drawing_style s); cbn; [eauto|..];
      unfold scene_addItem; case_decide; cbn; eauto.
  - unfold mouseMoveEvent.
    destruct (mouse_pressed s) eqn:Hmp; [|cbn; by rewrite Hmp].
    destruct u; [|cbn; by rewrite Hmp]. cbn [andb].
    intros Hpp. specialize (Hpp eq_refl) as [prev Hprev]. rewrite Hprev.
    destruct (drawing_style s); [by cbn; eauto|..].
    all: unfold mbind, Eff_bind.
    all: match goal with |- context [update_last ?f ?s0] =>
           pose proof (update_last_spec f s0) as Hu;
           destruct (update_last f s0) as [[e|[]] s'] end.
    all: try (subst s'; cbn; by eauto).
    all: destruct Hu as (h & it & it' & _ & _ & _ & ->); cbn; eauto.
  - done.
  - done.
  - unfold undo. destruct (pop (items s)) as [[h l]|]; done.
  - unfold redo. destruct (pop (redo_items s)) as [[h l]|]; [|done].
    unfold scene_addItem. by case_decide.
  - done.
Qed.

Lemma pressed_has_point_run evs s :
  pressed_has_point s → pressed_has_point (run evs s).
Proof.
  revert s. induction evs as [|e evs IH]; intros s Hs; [done|].
  cbn. by apply IH, pressed_has_point_step.
Qed.

Lemma top_item_allocated s h :
  wf s → last (items s) = Some h → is_Some (heap s !! h).
Proof.
  intros (_ & _ & Hdom) Hl. apply elem_of_dom, Hdom, elem_of_app. left.
  apply last_Some in Hl as [l ->]. apply elem_of_app. right. by left.
Qed.

(** X2: In every state the editor reaches, a pointer move raises in two cases
    only, both with the button down over the photo and a drawing style
    selected: [IndexError] when the stack is empty, [AttributeError] when
    the item on top of the stack lacks the method the style calls. With the
    pen that is an item with a rectangle, an ellipse or a rectangle; with
    ELLIPSE and with RECT it is a group, and either style reshapes an
    ellipse as well as a rectangle. Nothing else is raised, and a move that
    raises leaves the editor exactly as it was. *)
Theorem mouseMoveEvent_raises_exactly
    (evs : list event) (under : bool) (p : QPointF) :
  let s := run evs init in
  let r := mouseMoveEvent under p s in
  let active := mouse_pressed s && under && bool_decide (drawing_style s ≠ NONE) in
  (raised r = Some IndexError ↔ active = true ∧ items s = [])
  ∧ (raised r = Some AttributeError ↔
       active = true
       ∧ ∃ h it, last (items s) = Some h ∧ heap s !! h = Some it
                 ∧ (is_Some (item_rect it) ↔ drawing_style s = PEN))
  ∧ (∀ e, raised r = Some e → e = IndexError ∨ e = AttributeError)
  ∧ (raised r ≠ None → state_of r = s).
Proof.
  intros s r active.
  assert (wf s) as Hwf by apply wf_run, wf_init.
  assert (pressed_has_point s) as Hpp by (by apply pressed_has_point_run).
  pose proof (top_item_allocated s) as Htop. specialize (λ h, Htop h Hwf).
  subst r active. clearbody s. clear Hwf. unfold mouseMoveEvent, pressed_has_point in *.
  assert (∀ l : list handle, last l = None → l = []) as Hnil.
  { intros l. destruct l using rev_ind; [done|]. by rewrite last_snoc. }
  destruct (mouse_pressed s); [|cbn; naive_solver].
  destruct under; [|cbn; naive_solver]. cbn [andb].
  destruct (Hpp eq_refl) as [prev ->]. clear Hpp.
  destruct (drawing_style s) eqn:Hds; [cbn; naive_solver|..].
  all: unfold mbind, Eff_bind, update_last.
  all: destruct (last (items s)) as [h|] eqn:Hl;
         [|apply Hnil in Hl; rewrite Hl; cbn; naive_solver].
  all: destruct (Htop h eq_refl) as [it Hit]; rewrite Hit.
  all: assert (items s ≠ []) by (intros E; by rewrite E in Hl).
  all: destruct it; cbn; unfold is_Some; naive_solver.
Qed.

(** *** Outside a gesture *)

(** X3: Once the button is released, pointer moves, over the photo or not, leave
    the editor untouched, and so does a press that is not over the photo. *)
Theorem moves_after_release_do_nothing
    (s : ScreenshotEditor) (moves : list (bool * QPointF)) (pos : QPointF) :
  let s' := mouseReleaseEvent s in
  (∀ under p, mouseMoveEvent under p s' = (inr tt, s'))
  ∧ run (map (λ m, MouseMove m.1 m.2) moves) s' = s'
  ∧ run (map (λ m, MouseMove m.1 m.2) moves ++ [MousePress false pos]) s' = s'.
Proof.
  intros s'.
  assert (∀ under p, mouseMoveEvent under p s' = (inr tt, s')) as Hmove by done.
  assert (run (map (λ m, MouseMove m.1 m.2) moves) s' = s') as Hrun.
  { induction moves as [|[u q] moves IH]; [done|].
    cbn [map run foldl step fst snd]. rewrite Hmove. exact IH. }
  split; [done|]. split; [done|].
  unfold run in *. by rewrite foldl_app, Hrun.
Qed.

(** *** Undo and redo, step by step *)

(** X4: [undo] and [redo] only move items between the two stacks: the items of
    the stack followed by the undone items, latest undone first, are the
    same list before and after either call, in any editor state. On an
    empty stack [undo] does nothing, and so does [redo] when nothing is
    undone. *)
Theorem undo_redo_move_items_only (s : ScreenshotEditor) :
  items (undo s) ++ reverse (redo_items (undo s))
    = items s ++ reverse (redo_items s)
  ∧ items (redo s) ++ reverse (redo_items (redo s))
    = items s ++ reverse (redo_items s)
  ∧ (items s = [] → undo s = s)
  ∧ (redo_items s = [] → redo s = s)
  ∧ (items s ≠ [] → length (items (undo s)) + 1 = length (items s))%nat
  ∧ (redo_items s ≠ [] → length (items (redo s)) = length (items s) + 1)%nat.
Proof.
  unfold undo, redo, scene_addItem.
  destruct (pop (items s)) as [[h l]|] eqn:Hu;
    [apply pop_Some in Hu|apply pop_None in Hu].
  all: destruct (pop (redo_items s)) as [[h' l']|] eqn:Hr;
    [apply pop_Some in Hr|apply pop_None in Hr].
  all: try case_decide; cbn -[reverse]; rewrite ?Hu, ?Hr.
  all: rewrite ?reverse_app, ?reverse_snoc, ?reverse_nil, ?length_app;
         cbn -[reverse].
  all: rewrite <-?app_assoc; cbn -[reverse].
  all: repeat split; try done; try lia.
  all: try by intros ?%app_eq_nil.
  all: try by intros [? ?]%app_eq_nil.
Qed.

Lemma undo_redo_move_items_only_witness :
  let s := undo (mousePressEvent true (mkPoint 1 1)
                   (mousePressEvent true (mkPoint 0 0) init)) in
  items s ≠ [] ∧ redo_items s ≠ []
  ∧ items (undo s) ++ reverse (redo_items (undo s))
    = items s ++ reverse (redo_items s)
  ∧ items (redo s) ++ reverse (redo_items (redo s))
    = items s ++ reverse (redo_items s)
  ∧ (items s = [] → undo s = s)
  ∧ (redo_items s = [] → redo s = s)
  ∧ (items s ≠ [] → length (items (undo s)) + 1 = length (items s))%nat
  ∧ (redo_items s ≠ [] → length (items (redo s)) = length (items s) + 1)%nat.
Proof.
  split; [by vm_compute|]. split; [by vm_compute|].
  apply (undo_redo_move_items_only
           (undo (mousePressEvent true (mkPoint 1 1)
                    (mousePressEvent true (mkPoint 0 0) init)))).
Defined.

(** X5: In every state the editor reaches, any number [k] of undos that the
    stack allows followed by [k] redos gives back the same editor state, and
    any number [k] of redos that the undone items allow followed by [k]
    undos does too. *)
Theorem undo_redo_inverse_by_steps (evs : list event) (k : nat) :
  let s := run evs init in
  ((k ≤ length (items s))%nat → Nat.iter k redo (Nat.iter k undo s) = s)
  ∧ ((k ≤ length (redo_items s))%nat → Nat.iter k undo (Nat.iter k redo s) = s).
Proof.
  intros s.
  assert (wf s) as (Hsc & Hnd & _) by apply wf_run, wf_init.
  destruct s as [ch its rd mp pp ds sc hp]. cbn in Hsc, Hnd |- *. subst sc.
  split; intros Hk.
  - assert (∃ l m, its = l ++ m ∧ length m = k) as (l & m & -> & <-).
    { exists (take (length its - k) its), (drop (length its - k) its).
      rewrite take_drop, length_drop. split; [done|lia]. }
    apply NoDup_app in Hnd as (Hnd & _ & _).
    by rewrite (undo_iter ch l m rd), (redo_iter ch l m rd).
  - assert (∃ l m, rd = l ++ reverse m ∧ length m = k) as (l & m & -> & <-).
    { exists (take (length rd - k) rd), (reverse (drop (length rd - k) rd)).
      rewrite reverse_involutive, take_drop, length_reverse, length_drop.
      split; [done|lia]. }
    assert (NoDup (its ++ m)) as Hnd'.
    { apply NoDup_app in Hnd as (H1 & H2 & H3).
      apply NoDup_app in H3 as (_ & _ & H3). rewrite reverse_Permutation in H3.
      apply NoDup_app. split; [done|]. split; [|done].
      intros x Hx Hx'. apply (H2 x Hx), elem_of_app. right.
      by apply elem_of_reverse. }
    by rewrite (redo_iter ch its m l), (undo_iter ch its m l).
Qed.

Lemma undo_redo_inverse_by_steps_witness :
  let s := run [MousePress true (mkPoint 0 0); MousePress true (mkPoint 1 1);
                MousePress true (mkPoint 2 2); Undo] init in
  Nat.iter 1 redo (Nat.iter 1 undo s) = s
  ∧ Nat.iter 1 undo (Nat.iter 1 redo s) = s.
Proof.
  pose proof (undo_redo_inverse_by_steps
                [MousePress true (mkPoint 0 0); MousePress true (mkPoint 1 1);
                 MousePress true (mkPoint 2 2); Undo] 1) as [H1 H2].
  split; [apply H1 | apply H2]; vm_compute; lia.
Defined.

(** *** What is drawn *)

(** X6: In every state the editor reaches, the rendered image shows the items
    of the stack, all of them, each once, in the order of the stack, each
    with its current shape; undone items are not shown, and no item object
    is on the two stacks twice. *)
Theorem render_shows_the_stack (evs : list event) :
  let s := run evs init in
  Forall2 (λ h it, heap s !! h = Some it) (items s) (render_to_image s)
  ∧ NoDup (items s ++ redo_items s)
  ∧ (∀ h, h ∈ redo_items s → h ∉ scene s).
Proof.
  intros s.
  assert (wf s) as (Hsc & Hnd & Hdom) by apply wf_run, wf_init.
  split; [|split; [done|]].
  - unfold render_to_image. rewrite Hsc.
    assert (∀ h, h ∈ items s → is_Some (heap s !! h)) as Hall.
    { intros h Hh. apply elem_of_dom, Hdom, elem_of_app. by left. }
    revert Hall. generalize (items s) as l.
    induction l as [|h l IH]; intros Hall; [constructor|].
    destruct (Hall h) as [it Hit]; [by left|]. cbn. rewrite Hit. cbn.
    constructor; [done|]. apply IH. intros h' Hh'. apply Hall. by right.
  - intros h Hh. rewrite Hsc. apply NoDup_app in Hnd as (_ & Hd & _).
    intros Hin. by apply (Hd h Hin).
Qed.

End GesturesFacts.

(** ** More properties of the screenshot list *)

Module ScreenshotsMoreFacts.
Import Screenshots ScreenshotsFacts.

(** *** The rows of the other paths *)

Lemma filter_other_all (path : string) (l : list ScreenshotListItem) :
  (path ∉ file_path <$> l) → filter (λ item, file_path item ≠ path) l = l.
Proof.
  induction l as [|x l IH]; [done|].
  rewrite fmap_cons, not_elem_of_cons. intros [Hx Hl].
  rewrite filter_cons_True by congruence. by rewrite IH.
Qed.

Lemma filter_other_middle (path : string) l1 item l2 :
  file_path item = path → (path ∉ file_path <$> l1) → (path ∉ file_path <$> l2) →
  filter (λ item, file_path item ≠ path) (l1 ++ item :: l2) = l1 ++ l2.
Proof.
  intros Hitem H1 H2. rewrite filter_app, filter_cons_False by (intros H; by apply H).
  by rewrite !filter_other_all.
Qed.

Lemma remove_file_absent path s : (path ∉ paths s) → remove_file path s = s.
Proof.
  intros Hs.
  destruct (remove_file_cases path s)
    as [[_ ->]|(l1 & item & l2 & Hrows & Hitem & _ & _)]; [done|].
  destruct Hs. unfold paths. rewrite Hrows, fmap_app, fmap_cons, Hitem.
  apply elem_of_app. right. by left.
Qed.

(** The rows [remove_file] leaves, in whatever order the sort puts rows of
    the same time. *)
Lemma rows_remove_file path s :
  NoDup (paths s) →
  rows (remove_file path s) ≡ₚ filter (λ item, file_path item ≠ path) (rows s).
Proof.
  intros Hnd.
  destruct (remove_file_cases path s)
    as [[Hnot ->]|(l1 & item & l2 & Hrows & Hitem & Hl1 & ->)].
  - by rewrite filter_other_all.
  - cbn. rewrite sort_rows_perm, Hrows.
    unfold paths in Hnd. rewrite Hrows, fmap_app, fmap_cons in Hnd.
    apply NoDup_app in Hnd as (_ & _ & [Hl2 _]%NoDup_cons).
    rewrite Hitem in Hl2. by rewrite filter_other_middle.
Qed.

(** The rows [add_file] leaves. *)
Lemma rows_add_file fs path s :
  NoDup (paths s) →
  rows (state_of (add_file fs path s))
  ≡ₚ filter (λ item, file_path item ≠ path) (rows s)
     ++ match ScreenshotListItem_load fs path with
        | inr item => [item]
        | inl _ => []
        end.
Proof.
  intros Hnd. rewrite state_of_add_file.
  destruct (ScreenshotListItem_load fs path) as [e|item].
  - by rewrite app_nil_r, rows_remove_file.
  - cbn. by rewrite sort_rows_perm, rows_remove_file.
Qed.

Lemma other_rows_add_file fs path s :
  NoDup (paths s) →
  filter (λ item, file_path item ≠ path) (rows (state_of (add_file fs path s)))
  ≡ₚ filter (λ item, file_path item ≠ path) (rows s).
Proof.
  intros Hnd. rewrite (rows_add_file fs path s Hnd), filter_app.
  assert (filter (λ item, file_path item ≠ path)
            (filter (λ item, file_path item ≠ path) (rows s))
          = filter (λ item, file_path item ≠ path) (rows s)) as ->.
  { rewrite list_filter_filter. apply list_filter_iff. tauto. }
  destruct (ScreenshotListItem_load fs path) as [e|item] eqn:Hl.
  - by rewrite filter_nil, app_nil_r.
  - apply load_inr in Hl as (-> & _).
    rewrite filter_cons_False by (cbn; tauto). by rewrite filter_nil, app_nil_r.
Qed.

(** *** [remove_file] *)

(** X7: On a list reached by any history of calls, [remove_file] takes out the
    row of the path and nothing else: the other rows stay as they are, path,
    time and size, and the list stays in order of time. With no row for the
    path the list is left exactly as it is, so removing twice is removing
    once; the known paths are never touched. *)
Theorem remove_file_takes_only_its_row (ops : list op) (path : string) :
  let s := run ops init in
  rows (remove_file path s) ≡ₚ filter (λ item, file_path item ≠ path) (rows s)
  ∧ newest_first (rows (remove_file path s))
  ∧ old_filelist (remove_file path s) = old_filelist s
  ∧ ((path ∉ paths s) → remove_file path s = s)
  ∧ remove_file path (remove_file path s) = remove_file path s.
Proof.
  intros s.
  assert (ordered_and_unique s) as [Hsorted Hnd]
    by apply ordered_and_unique_run, ordered_and_unique_init.
  split_and!.
  - by apply rows_remove_file.
  - by apply newest_first_remove_file.
  - apply old_filelist_remove_file.
  - apply remove_file_absent.
  - apply remove_file_absent, not_elem_of_paths_remove_file, Hnd.
Qed.

(** *** [add_file] *)

(** X8: On a list reached by any history of calls, [add_file] touches the row
    of its path only: the rows of all other paths are kept as they are,
    path, time and size, whether the call returns or raises. *)
Theorem add_file_keeps_other_rows
    (ops : list op) (fs : FileSystem) (path : string) :
  let s := run ops init in
  let s' := state_of (add_file fs path s) in
  filter (λ item, file_path item ≠ path) (rows s')
    ≡ₚ filter (λ item, file_path item ≠ path) (rows s)
  ∧ old_filelist s' = old_filelist s.
Proof.
  intros s s'.
  assert (ordered_and_unique s) as [_ Hnd]
    by apply ordered_and_unique_run, ordered_and_unique_init.
  split; [|apply old_filelist_add_file].
  by apply other_rows_add_file.
Qed.

(** X9: On a list reached by any history of calls, a second [add_file] of the
    same path on the same disk changes nothing more: it returns or raises
    as the first did and leaves the same rows and the same known paths as
    the first left. A [remove_file] after an [add_file] leaves the rows a
    [remove_file] alone would have left. Rows of the same time may come in
    another order. *)
Theorem add_file_twice_is_once
    (ops : list op) (fs : FileSystem) (path : string) :
  let s := run ops init in
  let s' := state_of (add_file fs path s) in
  (add_file fs path s').1 = (add_file fs path s).1
  ∧ rows (state_of (add_file fs path s')) ≡ₚ rows s'
  ∧ old_filelist (state_of (add_file fs path s')) = old_filelist s'
  ∧ rows (remove_file path s') ≡ₚ rows (remove_file path s).
Proof.
  intros s s'.
  assert (ordered_and_unique s) as Hs
    by apply ordered_and_unique_run, ordered_and_unique_init.
  assert (ordered_and_unique s') as Hs' by by apply preserves_add_file.
  assert (filter (λ item, file_path item ≠ path) (rows s')
          ≡ₚ filter (λ item, file_path item ≠ path) (rows s)) as Hother
    by apply other_rows_add_file, Hs.
  split_and!.
  - pose proof (add_file_cases fs path s') as H1.
    pose proof (add_file_cases fs path s) as H0.
    destruct (ScreenshotListItem_load fs path); by rewrite H1, H0.
  - rewrite (rows_add_file fs path s' (proj2 Hs')), Hother.
    subst s'. by rewrite (rows_add_file fs path s (proj2 Hs)).
  - apply old_filelist_add_file.
  - by rewrite (rows_remove_file path s' (proj2 Hs')),
      (rows_remove_file path s (proj2 Hs)).
Qed.

(** *** The list file read again, and a folder that changes under the walk *)


Lemma old_filelist_update_from_filelist iter cfg fs s :
  (isfile fs (screenshot_source_filelist_path cfg) = true →
   read_error fs !! screenshot_source_filelist_path cfg = None) →
  old_filelist (state_of (update_from_filelist iter cfg fs s))
  = read_filelist fs (screenshot_source_filelist_path cfg).
Proof.
  intros Hread. rewrite (readable_update iter cfg fs s Hread).
  set (new_filelist := read_filelist fs (screenshot_source_filelist_path cfg)).
  erewrite bind_ok by reflexivity.
  generalize (iter (new_filelist ∖ old_filelist s)) as added.
  generalize (iter (old_filelist s ∖ new_filelist)) as removed.
  intros removed added.
  apply (preserves_bind (λ t, old_filelist t = new_filelist)
           (for_each (add_file fs) added)
           (λ _, for_each (λ file_path, modify (remove_file file_path)) removed));
    [| |done].
  - apply preserves_for_each. intros x t Ht. by rewrite old_filelist_add_file.
  - intros _. apply preserves_for_each. intros x. apply preserves_modify.
    intros t Ht. by rewrite old_filelist_remove_file.
Qed.

(** X10: [update_from_filelist] looks at the difference to the paths it has seen
    listed, not at the rows. When the list file is there and cannot be
    read, the call raises before anything is changed, and so does the next
    call. Otherwise, whatever the list was and whether the call returned or
    raised while adding (a listed file whose time cannot be shown as a
    date), the paths seen are afterwards the listed paths that are files,
    and a second call on the same disk returns without touching the list:
    a listed file that got no row the first time gets none the second time
    either. *)
Theorem update_from_filelist_again_does_nothing
    (iter : gset string → list string) (cfg : Config) (fs : FileSystem)
    (s : ScreenshotList)
    (Hiter : ∀ X p, p ∈ iter X → p ∈ X) :
  let list_path := screenshot_source_filelist_path cfg in
  let r1 := update_from_filelist iter cfg fs s in
  let s1 := state_of r1 in
  let r2 := update_from_filelist iter cfg fs s1 in
  state_of r2 = s1
  ∧ match (if isfile fs list_path then read_error fs !! list_path else None) with
    | Some e => r1 = (inl e, s) ∧ raised r2 = Some e
    | None => old_filelist s1 = read_filelist fs list_path ∧ raised r2 = None
    end.
Proof.
  intros list_path r1 s1 r2.
  destruct (if isfile fs list_path then read_error fs !! list_path else None)
    as [e|] eqn:Hread.
  - assert (∀ t, update_from_filelist iter cfg fs t = (inl e, t)) as Hraise.
    { intros t. unfold update_from_filelist. cbv zeta. fold list_path.
      by rewrite Hread. }
    subst r2 s1 r1. by rewrite !Hraise.
  - assert (isfile fs list_path = true → read_error fs !! list_path = None)
      as Hok by (intros Hf; by rewrite Hf in Hread).
    pose proof (old_filelist_update_from_filelist iter cfg fs s Hok) as Hold.
    fold r1 s1 list_path in Hold.
    assert (iter ∅ = []) as Hnil.
    { destruct (iter ∅) as [|p l] eqn:E; [done|].
      assert (p ∈ (∅ : gset string)) as []%not_elem_of_empty.
      apply Hiter. rewrite E. by left. }
    assert (r2 = (inr tt, s1)) as ->; [|done].
    subst r2. rewrite (readable_update iter cfg fs s1 Hok). fold list_path.
    clearbody s1. rewrite Hold, difference_diag_L, Hnil.
    destruct s1 as [l o]. cbn in Hold. by subst o.
Qed.

Lemma update_from_filelist_again_does_nothing_witness :
  let fs := Watcher.odd_fs ["/far.png" +:+ nl; "/a.png" +:+ nl] in
  let r1 := update_from_filelist elements sample_cfg fs init in
  let s1 := state_of r1 in
  let r2 := update_from_filelist elements sample_cfg fs s1 in
  (raised r1 = Some (OtherError "ValueError") ∧ isfile fs "/far.png" = true
   ∧ "/far.png" ∉ paths s1)
  ∧ state_of r2 = s1
  ∧ old_filelist s1 = read_filelist fs "/list.txt" ∧ raised r2 = None.
Proof.
  split.
  - split; [by vm_compute|]. split; [by vm_compute|].
    apply (bool_decide_unpack _). by vm_compute.
  - apply (update_from_filelist_again_does_nothing elements sample_cfg
             (Watcher.odd_fs ["/far.png" +:+ nl; "/a.png" +:+ nl]) init).
    intros X p. by rewrite elem_of_elements.
Defined.



End ScreenshotsMoreFacts.

(** ** Properties of the file watcher *)

Module WatcherFacts.
Import Screenshots Watcher ScreenshotsFacts.


(** *** The constructor of the list *)

Lemma reload_cases iter cfg fs now w :
  let l := load_screenshots iter cfg fs now (list_of w) in
  let r := reload iter cfg fs now w in
  list_of (state_of r) = state_of l
  ∧ (∀ e, raised l = Some e → raised r = Some e ∧ observer (state_of r) = observer w)
  ∧ (raised l = None →
     raised r = (if screenshot_source_filelist_use cfg
                 then Some AttributeError else None)
     ∧ observer (state_of r)
       = observer w ++ UnscheduleAll
           :: (if screenshot_source_folder_use cfg
                  && isdir fs (screenshot_source_folder_path cfg)
               then [Schedule folder_handler
                              (screenshot_source_folder_path cfg) true]
               else [])
           ++ (if screenshot_source_filelist_use cfg then [] else [Start])).
Proof.
  intros l r. subst l r.
  unfold reload, reload_file_watcher, on_list, mbind, Eff_bind, raised, state_of.
  destruct (load_screenshots iter cfg fs now (list_of w)) as [[e|[]] s'].
  - cbn. split; [done|]. split; [|done]. by intros ? [= <-].
  - cbn [fst snd list_of observer observer_do modify].
    split.
    + by destruct (screenshot_source_folder_use cfg
                   && isdir fs (screenshot_source_folder_path cfg)),
                  (screenshot_source_filelist_use cfg).
    + split; [done|]. intros _.
      destruct (screenshot_source_folder_use cfg
                && isdir fs (screenshot_source_folder_path cfg)),
               (screenshot_source_filelist_use cfg);
        cbn; by rewrite <-?app_assoc.
Qed.

(** X13: With the file list switched on in the configuration, a new list cannot
    be made and [reload] cannot finish: once the screenshots are loaded,
    [reload_file_watcher] raises [AttributeError], and the observer is not
    started. With the file list switched off, the constructor returns
    whenever the load does, with the observer started last and the folder
    watched when it is in use and exists. The list holds what
    [load_screenshots] left in either case. *)
Theorem list_file_source_stops_the_watcher
    (iter : gset string → list string) (cfg : Config) (fs : FileSystem) (now : Z) :
  let l := load_screenshots iter cfg fs now init in
  let r := ScreenshotList_new iter cfg fs now in
  list_of (state_of r) = state_of l
  ∧ (raised r = None ↔
     raised l = None ∧ screenshot_source_filelist_use cfg = false)
  ∧ (raised l = None → screenshot_source_filelist_use cfg = true →
     raised r = Some AttributeError)
  ∧ (Start ∈ observer (state_of r) ↔ raised r = None)
  ∧ (raised r = None →
     observer (state_of r)
     = UnscheduleAll
         :: (if screenshot_source_folder_use cfg
                && isdir fs (screenshot_source_folder_path cfg)
             then [Schedule folder_handler
                            (screenshot_source_folder_path cfg) true]
             else [])
         ++ [Start])
  ∧ (screenshot_source_filelist_use cfg = true →
     ∀ w, raised (reload iter cfg fs now w) ≠ None).
Proof.
  intros l r.
  assert (∀ w, screenshot_source_filelist_use cfg = true →
               raised (reload iter cfg fs now w) ≠ None) as Hreload.
  { intros w Huse. destruct (reload_cases iter cfg fs now w) as (_ & Hraise & Hok).
    destruct (raised (load_screenshots iter cfg fs now (list_of w))) as [e|].
    - destruct (Hraise e eq_refl) as [-> _]. done.
    - destruct (Hok eq_refl) as [-> _]. by rewrite Huse. }
  destruct (reload_cases iter cfg fs now (mkWidget init [])) as (Hlist & Hraise & Hok).
  change (reload iter cfg fs now (mkWidget init [])) with r in *.
  change (load_screenshots iter cfg fs now (list_of (mkWidget init []))) with l in *.
  cbn [observer app] in Hraise, Hok.
  split; [done|].
  destruct (raised l) as [e|] eqn:Hl.
  - destruct (Hraise e eq_refl) as [Hr Hobs]. rewrite Hr, Hobs.
    split_and!; try done; try (intros ? w; by apply Hreload).
    + split; [done|by intros [? _]].
    + split; [by intros ?%elem_of_nil|done].
  - destruct (Hok eq_refl) as [Hr Hobs]. rewrite Hr, Hobs.
    destruct (screenshot_source_filelist_use cfg).
    + split_and!; try done; try (intros ? w; by apply Hreload).
      * split; [done|by intros [_ ?]].
      * split; [|done]. rewrite app_nil_r.
        destruct (screenshot_source_folder_use cfg
                  && isdir fs (screenshot_source_folder_path cfg));
          intros Hin; repeat (apply elem_of_cons in Hin as [?|Hin]; [done|]);
          by apply elem_of_nil in Hin.
    + split_and!; try done; try (intros ? w; by apply Hreload).
      split; [done|]. intros _. apply elem_of_cons. right.
      apply elem_of_app. right. by left.
Qed.

Lemma list_file_source_stops_the_watcher_witness :
  let l := load_screenshots elements sample_cfg (sample_fs []) 1000 init in
  let r := ScreenshotList_new elements sample_cfg (sample_fs []) 1000 in
  raised l = None ∧ screenshot_source_filelist_use sample_cfg = true
  ∧ raised r = Some AttributeError
  ∧ ¬ (Start ∈ observer (state_of r)).
Proof.
  destruct (list_file_source_stops_the_watcher elements sample_cfg (sample_fs []) 1000)
    as (_ & _ & Hraises & Hstart & _).
  assert (raised (load_screenshots elements sample_cfg (sample_fs []) 1000 init) = None)
    as Hl by by vm_compute.
  split; [exact Hl|]. split; [reflexivity|]. split; [by apply Hraises|].
  rewrite Hstart, (Hraises Hl eq_refl). done.
Defined.

End WatcherFacts.

(** ** Properties of the main window *)

Module WindowFacts.
Import Editor Window EditorFacts.

#[local] Set Warnings "-clear-no-such-hyp".

(** *** Changing the current tab *)

Lemma same_drawings_refl m : same_drawings m m.
Proof. by intros id. Qed.

Lemma same_drawings_trans m1 m2 m3 :
  same_drawings m1 m2 → same_drawings m2 m3 → same_drawings m1 m3.
Proof. intros H12 H23 id. by rewrite H23, H12. Qed.

Lemma same_drawings_lookup m m' id e' :
  same_drawings m m' → m' !! id = Some e' →
  ∃ e, m !! id = Some e ∧ set_drawing_style NONE e' = set_drawing_style NONE e.
Proof.
  intros H He'. specialize (H id). rewrite He' in H.
  destruct (m !! id) as [e|]; [|done]. exists e. split; [done|].
  change (Some (set_drawing_style NONE e') = Some (set_drawing_style NONE e)) in H.
  congruence.
Qed.

Lemma same_drawings_sym m m' : same_drawings m m' → same_drawings m' m.
Proof. intros H id. by rewrite H. Qed.

Lemma same_drawings_dom m m' : same_drawings m m' → dom m' = dom m.
Proof.
  intros H. apply set_eq. intros id. rewrite !elem_of_dom.
  specialize (H id). destruct (m !! id), (m' !! id); try done.
  all: split; intros [? ?]; done.
Qed.

Lemma same_drawings_alter m id st :
  same_drawings m (alter (set_drawing_style st) id m).
Proof.
  intros i. rewrite lookup_alter. case_decide; [subst|done].
  by destruct (m !! i).
Qed.

Lemma same_style_fields e e' :
  set_drawing_style NONE e' = set_drawing_style NONE e →
  changed e' = changed e ∧ items e' = items e ∧ redo_items e' = redo_items e
  ∧ scene e' = scene e ∧ heap e' = heap e.
Proof. destruct e, e'. cbn. intros H. injection H. intros. by subst. Qed.

Lemma light_refl w : light w w.
Proof. repeat split. Qed.

Lemma light_trans w1 w2 w3 : light w1 w2 → light w2 w3 → light w1 w3.
Proof.
  intros (Ha & Hb & Hc & Hd & He) (Ha' & Hb' & Hc' & Hd' & He').
  unfold light. split_and!; first [congruence | by eapply same_drawings_trans].
Qed.

Lemma update_edit_toolbar_shape w :
  ∃ a b, update_edit_toolbar w = set_actions a b w.
Proof.
  unfold update_edit_toolbar.
  destruct (_ ≫= _) as [e|]; [by eexists _, _|].
  exists (undo_enabled w), (redo_enabled w). by destruct w.
Qed.

Lemma light_tab_changed w :
  light w (tab_changed w) ∧ current_index (tab_changed w) = current_index w.
Proof.
  unfold tab_changed.
  match goal with |- context [update_edit_toolbar ?x] =>
    destruct (update_edit_toolbar_shape x) as (a & b & ->) end.
  destruct (get_active_screenshot_editor w) as [id|]; cbn.
  - unfold light. split_and!; try done. apply same_drawings_alter.
  - unfold light. split_and!; done.
Qed.

Lemma light_setCurrentIndex i w :
  light w (setCurrentIndex i w) ∧ current_index (setCurrentIndex i w) = i.
Proof.
  unfold setCurrentIndex. case_decide as Hi; [split; [apply light_refl|done]|].
  destruct (light_tab_changed (set_current_index i w)) as [Hl Hc].
  split; [|by rewrite Hc]. eapply light_trans; [|exact Hl]. by unfold light.
Qed.

Lemma indexOf_Some w editor i :
  indexOf w editor = Some i →
  ∃ j, i = S j ∧ tab_pages w !! j = Some editor.
Proof.
  unfold indexOf. destruct (list_find _ _) as [[j x]|] eqn:Hfind; [|done].
  intros [= <-]. apply list_find_Some in Hfind as (Hj & -> & _). eauto.
Qed.

Lemma indexOf_elem_of w editor :
  editor ∈ tab_pages w → is_Some (indexOf w editor).
Proof.
  intros Hin. unfold indexOf.
  destruct (list_find_elem_of (λ page, page = editor) _ editor Hin eq_refl)
    as [r ->]. by eexists.
Qed.

Lemma light_setCurrentWidget editor w :
  light w (setCurrentWidget editor w)
  ∧ (current_index (setCurrentWidget editor w) ≤ length (tab_pages w)
     ∨ current_index (setCurrentWidget editor w) = current_index w)%nat
  ∧ (editor ∈ tab_pages w →
     get_active_screenshot_editor (setCurrentWidget editor w) = Some editor).
Proof.
  unfold setCurrentWidget.
  destruct (indexOf w editor) as [i|] eqn:Hi.
  - destruct (light_setCurrentIndex i w) as [Hl Hc].
    apply indexOf_Some in Hi as (j & -> & Hj).
    split; [done|]. split.
    + left. rewrite Hc. apply lookup_lt_Some in Hj. lia.
    + intros _. unfold get_active_screenshot_editor, widget. rewrite Hc.
      destruct Hl as (_ & -> & _). done.
  - split; [apply light_refl|]. split; [by right|].
    intros Hin. apply indexOf_elem_of in Hin as [? ?]. congruence.
Qed.

(** *** The dict and the pages stay in step *)

Lemma tabs_in_step_init : tabs_in_step init.
Proof.
  unfold tabs_in_step. cbn. split_and!; try done; try constructor.
  by intros id ?%elem_of_nil.
Qed.

Lemma tabs_in_step_light w w' :
  light w w' → tabs_in_step w →
  (current_index w' ≤ length (tab_pages w))%nat → tabs_in_step w'.
Proof.
  intros (Hd & Hp & He & _) (H1 & H2 & H3 & H4 & _) Hc.
  unfold tabs_in_step. rewrite Hd, Hp, (same_drawings_dom _ _ He). done.
Qed.

Lemma NoDup_without {A} (l1 l2 : list A) x : NoDup (l1 ++ x :: l2) → NoDup (l1 ++ l2).
Proof.
  rewrite !NoDup_app, NoDup_cons. intros (H1 & H12 & _ & H2).
  split; [done|]. split; [|done]. intros y Hy Hy2. apply (H12 y Hy). by right.
Qed.

(** The dict entry and the page of one editor, and the dict and the pages
    without them. *)
Lemma split_at_page w i id :
  tabs_in_step w → tab_pages w !! i = Some id →
  ∃ d1 k d2,
    screenshot_tabs w = d1 ++ (k, id) :: d2
    ∧ length d1 = i
    ∧ (id ∉ snd <$> d1) ∧ (id ∉ snd <$> d2)
    ∧ forget_editor id (screenshot_tabs w) = d1 ++ d2
    ∧ delete i (tab_pages w) = snd <$> (d1 ++ d2).
Proof.
  intros (Hsnd & _ & Hnd & _) Hi. rewrite <-Hsnd in Hi, Hnd |- *.
  apply list_lookup_fmap_Some in Hi as ([k id'] & Heq & Hkv). cbn in Heq. subst id'.
  pose proof (take_drop_middle _ _ _ Hkv) as Hsplit.
  set (d1 := take i (screenshot_tabs w)) in *.
  set (d2 := drop (S i) (screenshot_tabs w)) in *.
  assert (length d1 = i) as Hlen.
  { unfold d1. rewrite length_take. apply lookup_lt_Some in Hkv. lia. }
  rewrite <-Hsplit in Hnd |- *. rewrite fmap_app, fmap_cons in Hnd. cbn in Hnd.
  pose proof Hnd as Hnd0.
  apply NoDup_app in Hnd as (_ & H12 & [H2 _]%NoDup_cons).
  assert (id ∉ snd <$> d1) as H1.
  { intros Hin. apply (H12 id Hin). by left. }
  exists d1, k, d2. split_and!; try done.
  - unfold forget_editor. rewrite filter_app, filter_cons_False by (cbn; tauto).
    assert (∀ d : list (string * nat), (id ∉ snd <$> d) →
              filter (λ kv, kv.2 ≠ id) d = d) as Hall.
    { intros d. induction d as [|[k' v] d IH]; [done|].
      rewrite fmap_cons, not_elem_of_cons. intros [Hv Hd].
      rewrite filter_cons_True by (intros E; apply Hv; by rewrite <-E).
      by rewrite IH. }
    by rewrite !Hall.
  - rewrite fmap_app, fmap_cons. cbn.
    rewrite <-Hlen at 1. rewrite <-(length_fmap snd d1).
    by rewrite delete_middle, fmap_app.
Qed.

Lemma light_removeTab i w :
  (i < length (tab_pages w))%nat →
  (current_index w ≤ length (tab_pages w))%nat →
  light (set_tab_pages (delete i (tab_pages w)) w) (removeTab (S i) w)
  ∧ (current_index (removeTab (S i) w) ≤ length (delete i (tab_pages w)))%nat.
Proof.
  intros Hi Hc. unfold removeTab. rewrite decide_True by done.
  assert (length (delete i (tab_pages w)) = length (tab_pages w) - 1)%nat as Hlen.
  { rewrite length_delete; [done|]. by apply lookup_lt_is_Some. }
  cbn [tab_pages set_tab_pages current_index]. repeat case_decide.
  - match goal with |- context [tab_changed ?x] =>
      destruct (light_tab_changed x) as [Hl Hcur] end.
    split; [|rewrite Hcur; cbn [current_index set_current_index]; lia].
    eapply light_trans; [|exact Hl]. by unfold light.
  - match goal with |- context [tab_changed ?x] =>
      destruct (light_tab_changed x) as [Hl Hcur] end.
    split; [|rewrite Hcur; cbn [current_index set_current_index]; lia].
    eapply light_trans; [|exact Hl]. by unfold light.
  - split; [apply light_refl|]. cbn [current_index set_tab_pages]. lia.
Qed.

(** What [close_tab] returns and leaves, case by case. *)
Lemma close_tab_cases index response w :
  tabs_in_step w →
  (index = 0%nat ∧ close_tab index response w = (inr false, w))
  ∨ ((length (tab_pages w) < index)%nat
     ∧ close_tab index response w = (inl WAttributeError, w))
  ∨ ∃ i id e,
      index = S i ∧ tab_pages w !! i = Some id ∧ editors w !! id = Some e
      ∧ ((changed e = true ∧ response = AnswerCancel
          ∧ close_tab index response w = (inr false, w))
         ∨ (¬ (changed e = true ∧ response = AnswerCancel)
            ∧ ∃ w', close_tab index response w = (inr true, w')
                ∧ tabs_in_step w'
                ∧ screenshot_tabs w' = forget_editor id (screenshot_tabs w)
                ∧ tab_pages w' = delete i (tab_pages w)
                ∧ checked_style w' = checked_style w
                ∧ previousMiddleIndex w' = previousMiddleIndex w
                ∧ same_drawings
                    (if changed e && bool_decide (response = AnswerSave)
                     then <[id := save e]> (editors w) else editors w)
                    (editors w'))).
Proof.
  intros Hw. unfold close_tab.
  destruct index as [|i]; [by left|]. right. rewrite decide_False by done.
  cbn [widget].
  destruct (tab_pages w !! i) as [id|] eqn:Hi; cbn [mbind option_bind];
    [|left; split; [|done]; apply lookup_ge_None in Hi; lia].
  right.
  assert (is_Some (editors w !! id)) as [e He].
  { apply elem_of_dom, Hw. by eapply list_elem_of_lookup_2. }
  rewrite He. cbn [fmap option_fmap option_map].
  exists i, id, e. split_and!; try done.
  destruct (split_at_page w i id Hw Hi) as (d1 & k & d2 & Hd & Hlen & H1 & H2 & Hf & Hdel).
  pose proof (lookup_lt_Some _ _ _ Hi) as Hlt.
  destruct Hw as (Hsnd & Hk & Hnd & Hdom & Hc).
  assert (∀ m, dom m = dom (editors w) →
    let w0 := set_screenshot_tabs (forget_editor id (screenshot_tabs w))
                (set_editors m w) in
    tabs_in_step (removeTab (S i) w0)
    ∧ screenshot_tabs (removeTab (S i) w0) = forget_editor id (screenshot_tabs w)
    ∧ tab_pages (removeTab (S i) w0) = delete i (tab_pages w)
    ∧ checked_style (removeTab (S i) w0) = checked_style w
    ∧ previousMiddleIndex (removeTab (S i) w0) = previousMiddleIndex w
    ∧ same_drawings m (editors (removeTab (S i) w0))) as Hclose.
  { intros m Hm w0.
    destruct (light_removeTab i w0 Hlt Hc) as [(Ha & Hb & Hcc & Hdd & Hee) Hcur].
    set (w1 := removeTab (S i) w0) in *. subst w0.
    cbn [screenshot_tabs tab_pages editors checked_style previousMiddleIndex
         set_tab_pages set_screenshot_tabs set_editors]
      in Ha, Hb, Hcc, Hdd, Hee, Hcur. clearbody w1.
    split_and!; try done.
    unfold tabs_in_step. rewrite Ha, Hb, (same_drawings_dom _ _ Hcc), Hm, Hf, Hdel.
    split_and!; try done.
    - rewrite Hd in Hk. rewrite fmap_app, fmap_cons in Hk.
      rewrite fmap_app. by eapply NoDup_without.
    - rewrite <-Hdel. eapply sublist_NoDup; [done|apply sublist_delete].
    - intros id' Hin. apply Hdom. rewrite <-Hdel in Hin.
      eapply elem_of_sublist; [done|apply sublist_delete].
    - by rewrite <-Hdel. }
  assert (set_editors (editors w) w = w) as Hid by by destruct w.
  destruct (changed e) eqn:Hch; cbn [andb].
  - destruct response.
    + right. split; [by intros [_ ?]|]. eexists. split; [reflexivity|].
      rewrite bool_decide_eq_true_2 by done.
      apply (Hclose (<[id := save e]> (editors w))). rewrite dom_insert_L.
      assert (id ∈ dom (editors w)) by (apply elem_of_dom; eauto). set_solver.
    + right. split; [by intros [_ ?]|]. eexists. split; [reflexivity|].
      rewrite bool_decide_eq_false_2 by done.
      rewrite <-Hid at 1. by apply (Hclose (editors w)).
    + by left.
  - right. split; [by intros [? _]|]. eexists. split; [reflexivity|].
    rewrite <-Hid at 1. by apply (Hclose (editors w)).
Qed.

(** *** The dict *)

Lemma dict_get_Some d key id : dict_get d key = Some id → (key, id) ∈ d.
Proof.
  unfold dict_get. destruct (list_find _ d) as [[j [k v]]|] eqn:Hfind; [|done].
  intros [= <-]. apply list_find_Some in Hfind as (Hj & Hk & _). cbn in Hk. subst k.
  by eapply list_elem_of_lookup_2.
Qed.

Lemma dict_get_None d key : dict_get d key = None → key ∉ fst <$> d.
Proof.
  unfold dict_get. destruct (list_find _ d) as [[j kv]|] eqn:Hfind; [done|].
  intros _. apply list_find_None in Hfind. rewrite Forall_forall in Hfind.
  intros ([k v] & -> & Hin)%list_elem_of_fmap. by apply (Hfind _ Hin).
Qed.

Lemma dict_key_unique (d : list (string * nat)) key v1 v2 :
  NoDup (fst <$> d) → (key, v1) ∈ d → (key, v2) ∈ d → v1 = v2.
Proof.
  induction d as [|[k v] d IH]; [by intros _ ?%elem_of_nil|].
  rewrite fmap_cons, NoDup_cons. cbn. intros [Hk Hnd].
  intros Hin1 Hin2.
  apply elem_of_cons in Hin1 as [E1|H1]; apply elem_of_cons in Hin2 as [E2|H2].
  - congruence.
  - injection E1 as ??. subst. destruct Hk.
    by apply (list_elem_of_fmap_2 fst _ (k, v2)).
  - injection E2 as ??. subst. destruct Hk.
    by apply (list_elem_of_fmap_2 fst _ (k, v1)).
  - by apply IH.
Qed.

Lemma dict_get_elem_of d key id :
  NoDup (fst <$> d) → (key, id) ∈ d → dict_get d key = Some id.
Proof.
  intros Hnd Hin. unfold dict_get.
  destruct (list_find_elem_of (λ kv, kv.1 = key) d (key, id) Hin eq_refl)
    as [[j [k v]] Hfind]. rewrite Hfind. cbn.
  apply list_find_Some in Hfind as (Hj & Hk & _). cbn in Hk. subst k.
  apply list_elem_of_lookup_2 in Hj. f_equal.
  by eapply dict_key_unique.
Qed.

Lemma dict_value_is_page w key id :
  tabs_in_step w → dict_get (screenshot_tabs w) key = Some id → id ∈ tab_pages w.
Proof.
  intros (Hsnd & _) Hget%dict_get_Some. rewrite <-Hsnd.
  by apply (list_elem_of_fmap_2 snd _ (key, id)).
Qed.

(** *** [open_screenshot] *)

Lemma open_screenshot_cases image_path w :
  tabs_in_step w →
  let w' := open_screenshot image_path w in
  tabs_in_step w'
  ∧ (∃ id, dict_get (screenshot_tabs w') image_path = Some id
           ∧ get_active_screenshot_editor w' = Some id)
  ∧ checked_style w' = checked_style w
  ∧ previousMiddleIndex w' = previousMiddleIndex w
  ∧ ((is_Some (dict_get (screenshot_tabs w) image_path) ∧ light w w')
     ∨ (dict_get (screenshot_tabs w) image_path = None
        ∧ ∃ id, (id ∉ dom (editors w))
          ∧ screenshot_tabs w' = screenshot_tabs w ++ [(image_path, id)]
          ∧ tab_pages w' = tab_pages w ++ [id]
          ∧ same_drawings (<[id := Editor.init]> (editors w)) (editors w'))).
Proof.
  intros Hw w'. subst w'. unfold open_screenshot.
  destruct (dict_get (screenshot_tabs w) image_path) as [id|] eqn:Hget.
  - pose proof (dict_value_is_page w image_path id Hw Hget) as Hpage.
    destruct (light_setCurrentWidget id w) as (Hl & Hc & Hact).
    split_and!.
    + eapply tabs_in_step_light; [exact Hl|exact Hw|].
      destruct Hw as (_ & _ & _ & _ & ?). lia.
    + exists id. destruct Hl as (-> & _). split; [done|by apply Hact].
    + apply Hl.
    + apply Hl.
    + left. split; [by eexists|done].
  - set (id := fresh (dom (editors w))).
    assert (id ∉ dom (editors w)) as Hfresh by apply is_fresh.
    set (w3 := set_tab_pages _ _).
    assert (tabs_in_step w3) as Hw3.
    { destruct Hw as (Hsnd & Hk & Hnd & Hdom & Hc).
      unfold tabs_in_step, w3, dict_add. cbn. split_and!.
      - by rewrite fmap_app, Hsnd.
      - rewrite fmap_app. apply NoDup_app. split; [done|]. split; [|apply NoDup_singleton].
        intros k Hk' ->%list_elem_of_singleton. by apply (dict_get_None _ _ Hget).
      - apply NoDup_app. split; [done|]. split; [|apply NoDup_singleton].
        intros x Hx ->%list_elem_of_singleton. by apply Hfresh, Hdom.
      - intros x [Hx| ->%list_elem_of_singleton]%elem_of_app;
          rewrite dom_insert_L; [|set_solver].
        apply elem_of_union. right. by apply Hdom.
      - rewrite length_app. cbn. lia. }
    assert (id ∈ tab_pages w3) as Hin.
    { unfold w3. cbn. apply elem_of_app. right. by left. }
    destruct (light_setCurrentWidget id w3) as (Hl & Hc & Hact).
    assert (tabs_in_step (setCurrentWidget id w3)) as Hw'.
    { eapply tabs_in_step_light; [exact Hl|exact Hw3|].
      destruct Hw3 as (_ & _ & _ & _ & ?). lia. }
    destruct Hl as (Hd & Hp & He & Hcs & Hpm).
    split_and!; try done.
    + exists id. split; [|by apply Hact]. rewrite Hd.
      apply dict_get_elem_of; [apply Hw3|].
      unfold w3, dict_add. cbn. apply elem_of_app. right. by left.
    + right. split; [done|]. exists id. by split_and!.
Qed.

Lemma tabs_in_step_open_selection selected w :
  tabs_in_step w → tabs_in_step (open_screenshot_by_selection selected w).
Proof.
  unfold open_screenshot_by_selection. revert w.
  induction selected as [|p l IH]; intros w Hw; [done|].
  cbn. apply IH. by apply open_screenshot_cases.
Qed.

(** *** [close_current], [closeEvent], [eventFilter], the edit actions *)

Lemma tabs_in_step_close_tab index response w :
  tabs_in_step w → tabs_in_step (close_tab index response w).2.
Proof.
  intros Hw.
  destruct (close_tab_cases index response w Hw)
    as [[_ ->]|[[_ ->]|(i & id & e & _ & _ & _ & [(_ & _ & ->)|(_ & w' & -> & Hw' & _)])]];
    done.
Qed.

Lemma tabs_in_step_close_current response w :
  tabs_in_step w → tabs_in_step (close_current response w).2.
Proof.
  intros Hw. unfold close_current. case_decide; [done|].
  by apply tabs_in_step_close_tab.
Qed.

Lemma tabs_in_step_setCurrentWidget id w :
  tabs_in_step w → tabs_in_step (setCurrentWidget id w).
Proof.
  intros Hw. destruct (light_setCurrentWidget id w) as (Hl & Hc & _).
  eapply tabs_in_step_light; [exact Hl|exact Hw|].
  destruct Hw as (_ & _ & _ & _ & ?). lia.
Qed.

Lemma tabs_in_step_closeEvent_loop answer_for keys w :
  tabs_in_step w → tabs_in_step (closeEvent_loop answer_for keys w).2.
Proof.
  revert w. induction keys as [|k keys IH]; intros w Hw; [done|].
  cbn [closeEvent_loop].
  destruct (dict_get _ k) as [id|]; [|done].
  destruct (editors w !! id) as [e|]; [|done].
  destruct (changed e); [|by apply IH].
  pose proof (tabs_in_step_close_current (answer_for k) _
                (tabs_in_step_setCurrentWidget id w Hw)) as Hc.
  destruct (close_current _ _) as [[err|[]] w']; cbn in Hc |- *; [done| |done].
  by apply IH.
Qed.

Lemma tabs_in_step_eventFilter ev response w :
  tabs_in_step w → tabs_in_step (eventFilter ev response w).2.
Proof.
  intros Hw. unfold eventFilter. destruct ev as [i|i|]; [done| |done].
  destruct (_ && _); [|done].
  pose proof (tabs_in_step_close_tab (Z.to_nat i) response w Hw) as Hc.
  by destruct (close_tab _ _ _) as [[err|b] w'].
Qed.

Lemma tabs_in_step_update_edit_toolbar w :
  tabs_in_step w → tabs_in_step (update_edit_toolbar w).
Proof. destruct (update_edit_toolbar_shape w) as (a & b & ->). done. Qed.

Lemma tabs_in_step_on_active ev w :
  tabs_in_step w → tabs_in_step (on_active ev w).2.
Proof.
  intros Hw. unfold on_active.
  set (w0 := match ev with SetDrawingStyle st => set_checked_style st w | _ => w end).
  assert (tabs_in_step w0) as Hw0 by (unfold w0; by destruct ev).
  clearbody w0. clear Hw.
  destruct (get_active_screenshot_editor w0) as [id|]; cbn; [|done].
  destruct (editors w0 !! id) as [e|] eqn:He; cbn; [|done].
  assert (tabs_in_step (set_editors (<[id:=step e ev]> (editors w0)) w0)) as H1.
  { destruct Hw0 as (Hsnd & Hk & Hnd & Hdom & Hc).
    unfold tabs_in_step. cbn. split_and!; try done.
    intros x Hx. rewrite dom_insert_L. apply elem_of_union. right. by apply Hdom. }
  destruct (emits_items_changed e ev); [|done].
  by apply tabs_in_step_update_edit_toolbar.
Qed.

Lemma tabs_in_step_apply_wop w o : tabs_in_step w → tabs_in_step (apply_wop w o).
Proof.
  intros Hw. destruct o; cbn [apply_wop].
  - by apply open_screenshot_cases.
  - by apply tabs_in_step_open_selection.
  - case_decide; [|done]. destruct (light_setCurrentIndex index w) as [Hl Hc].
    eapply tabs_in_step_light; [exact Hl|exact Hw|]. by rewrite Hc.
  - by apply tabs_in_step_close_tab.
  - by apply tabs_in_step_close_current.
  - by apply tabs_in_step_closeEvent_loop.
  - by apply tabs_in_step_eventFilter.
  - by apply tabs_in_step_on_active.
Qed.

Lemma tabs_in_step_wrun ops w : tabs_in_step w → tabs_in_step (wrun ops w).
Proof.
  revert w. induction ops as [|o ops IH]; intros w Hw; [done|].
  cbn. by apply IH, tabs_in_step_apply_wop.
Qed.

(** *** The toolbars follow the current tab *)

Lemma toolbars_in_step_init : toolbars_in_step init.
Proof. unfold toolbars_in_step. cbn. split_and!; done. Qed.

Lemma active_is_Some w :
  tabs_in_step w → current_index w ≠ 0%nat →
  ∃ id e, get_active_screenshot_editor w = Some id ∧ editors w !! id = Some e.
Proof.
  intros (_ & _ & _ & Hdom & Hc) Hne.
  unfold get_active_screenshot_editor, widget.
  destruct (current_index w) as [|i]; [done|].
  destruct (lookup_lt_is_Some_2 (tab_pages w) i) as [id Hid]; [lia|].
  assert (is_Some (editors w !! id)) as [e He].
  { apply elem_of_dom, Hdom. by eapply list_elem_of_lookup_2. }
  by exists id, e.
Qed.

Lemma toolbars_in_step_tab_changed w :
  tabs_in_step w → toolbars_in_step (tab_changed w).
Proof.
  intros Hw. unfold tab_changed.
  destruct (decide (current_index w = 0%nat)) as [H0|Hne].
  - assert (get_active_screenshot_editor w = None) as ->.
    { unfold get_active_screenshot_editor. by rewrite H0. }
    unfold update_edit_toolbar, get_active_screenshot_editor. cbn. rewrite H0. cbn.
    unfold toolbars_in_step, get_active_screenshot_editor. cbn. rewrite H0.
    split_and!; done.
  - destruct (active_is_Some w Hw Hne) as (id & e & Hact & He). rewrite Hact.
    unfold update_edit_toolbar, get_active_screenshot_editor in *.
    cbn [current_index tab_pages widget set_editors set_toolbars editors].
    unfold widget in *. destruct (current_index w) as [|i] eqn:Hcur; [done|].
    cbn [tab_pages set_editors set_toolbars]. rewrite Hact. cbn [mbind option_bind].
    cbn [editors set_editors]. rewrite lookup_alter, decide_True, He by done.
    cbn [fmap option_fmap option_map].
    unfold toolbars_in_step, get_active_screenshot_editor, widget. cbn.
    rewrite Hcur, Hact. split_and!; try done.
    intros id' e' [= <-]. rewrite lookup_alter, decide_True, He by done.
    by intros [= <-].
Qed.

Lemma toolbars_in_step_setCurrentIndex i w :
  tabs_in_step w → toolbars_in_step w → (i ≤ length (tab_pages w))%nat →
  toolbars_in_step (setCurrentIndex i w).
Proof.
  intros Hw Ht Hi. unfold setCurrentIndex. case_decide; [done|].
  apply toolbars_in_step_tab_changed.
  destruct Hw as (? & ? & ? & ? & ?). by unfold tabs_in_step.
Qed.

Lemma toolbars_in_step_setCurrentWidget id w :
  tabs_in_step w → toolbars_in_step w → toolbars_in_step (setCurrentWidget id w).
Proof.
  intros Hw Ht. unfold setCurrentWidget.
  destruct (indexOf w id) as [i|] eqn:Hi; [|done].
  apply indexOf_Some in Hi as (j & -> & Hj%lookup_lt_Some).
  apply toolbars_in_step_setCurrentIndex; [done..|lia].
Qed.

Lemma toolbars_in_step_update_edit_toolbar w :
  toolbars_in_step w → toolbars_in_step (update_edit_toolbar w).
Proof.
  intros Ht. pose proof Ht as (H1 & H2 & H3). unfold update_edit_toolbar.
  destruct (get_active_screenshot_editor w) as [id|] eqn:Hact; cbn; [|done].
  destruct (editors w !! id) as [e|] eqn:He; cbn; [|done].
  split_and!; [done|done|]. intros id' e' Hid' He'.
  change (get_active_screenshot_editor w = Some id') in Hid'.
  change (editors w !! id' = Some e') in He'.
  rewrite Hact in Hid'. injection Hid' as <-. rewrite He in He'. injection He' as <-.
  split_and!; try done. by apply (H3 id e).
Qed.

(** Taking out a page, when the dict has already forgotten its editor. *)
Lemma toolbars_in_step_removeTab i w :
  (i < length (tab_pages w))%nat →
  (∀ c, c ≤ length (delete i (tab_pages w)) →
        tabs_in_step (set_current_index c (set_tab_pages (delete i (tab_pages w)) w)))%nat →
  (current_index w ≤ length (tab_pages w))%nat →
  toolbars_in_step w →
  toolbars_in_step (removeTab (S i) w).
Proof.
  intros Hi Htabs Hc Ht. unfold removeTab. rewrite decide_True by done.
  assert (length (delete i (tab_pages w)) = length (tab_pages w) - 1)%nat as Hlen.
  { rewrite length_delete; [done|]. by apply lookup_lt_is_Some. }
  cbn [tab_pages set_tab_pages current_index]. repeat case_decide.
  - apply toolbars_in_step_tab_changed, Htabs. lia.
  - apply toolbars_in_step_tab_changed, Htabs. lia.
  - destruct Ht as (H1 & H2 & H3).
    unfold toolbars_in_step, get_active_screenshot_editor, widget in *. cbn.
    split_and!; try done.
    destruct (current_index w) as [|j]; [done|].
    intros id e Hid. apply H3. rewrite list_lookup_delete_lt in Hid by lia. done.
Qed.

Lemma toolbars_in_step_close_tab index response w :
  tabs_in_step w → toolbars_in_step w →
  toolbars_in_step (close_tab index response w).2.
Proof.
  intros Hw Ht.
  destruct (close_tab_cases index response w Hw)
    as [[_ ->]|[[_ ->]|(i & id & e & -> & Hi & He & [(_ & _ & ->)|(_ & w' & Heq & Hw' & Hd & Hp & _)])]];
    try done.
  (* the closing branches, replayed on the definition *)
  revert Heq. unfold close_tab. rewrite decide_False by done. cbn [widget].
  rewrite Hi. cbn [mbind option_bind]. rewrite He. cbn [fmap option_fmap option_map].
  pose proof (lookup_lt_Some _ _ _ Hi) as Hlt.
  assert (∀ m,
    (m = editors w ∨ m = <[id := save e]> (editors w)) →
    toolbars_in_step
      (removeTab (S i)
         (set_screenshot_tabs (forget_editor id (screenshot_tabs w))
            (set_editors m w)))) as Hclose.
  { intros m Hm.
    destruct (split_at_page w i id Hw Hi) as (d1 & k & d2 & Hdd & Hlen & H1 & H2 & Hf & Hdel).
    apply toolbars_in_step_removeTab; cbn [tab_pages set_screenshot_tabs set_editors current_index]; try done.
    - intros c Hcle. destruct Hw as (Hsnd & Hk & Hnd & Hdom & Hc).
      unfold tabs_in_step. cbn. rewrite Hf, Hdel. split_and!; try done.
      + rewrite Hdd in Hk. rewrite fmap_app, fmap_cons in Hk.
        rewrite fmap_app. by eapply NoDup_without.
      + rewrite <-Hdel. eapply sublist_NoDup; [done|apply sublist_delete].
      + intros id' Hin. rewrite <-Hdel in Hin.
        assert (id' ∈ dom (editors w)) as Hdom'.
        { apply Hdom. eapply elem_of_sublist; [done|apply sublist_delete]. }
        destruct Hm as [-> | ->]; [done|]. rewrite dom_insert_L. set_solver.
      + by rewrite <-Hdel.
    - apply Hw.
    - destruct Ht as (Ht1 & Ht2 & Ht3).
      unfold toolbars_in_step, get_active_screenshot_editor in *. cbn.
      split_and!; try done. intros id' e' Hid' He'.
      destruct Hm as [-> | ->]; [exact (Ht3 id' e' Hid' He')|].
      rewrite lookup_insert in He'. case_decide; [|exact (Ht3 id' e' Hid' He')].
      subst id'. injection He' as <-. exact (Ht3 id e Hid' He). }
  assert (set_editors (editors w) w = w) as Hid by by destruct w.
  destruct (changed e).
  - destruct response; intros [= <-].
    + apply Hclose. by right.
    + rewrite <-Hid at 1. apply Hclose. by left.
  - intros [= <-]. rewrite <-Hid at 1. apply Hclose. by left.
Qed.

Lemma toolbars_in_step_open_screenshot image_path w :
  tabs_in_step w → toolbars_in_step w →
  toolbars_in_step (open_screenshot image_path w).
Proof.
  intros Hw Ht. unfold open_screenshot.
  destruct (dict_get (screenshot_tabs w) image_path) as [id|] eqn:Hget.
  { by apply toolbars_in_step_setCurrentWidget. }
  set (id := fresh (dom (editors w))).
  assert (id ∉ dom (editors w)) as Hfresh by apply is_fresh.
  set (w3 := set_tab_pages _ _).
  assert (id ∈ tab_pages w3) as Hin.
  { unfold w3. cbn. apply elem_of_app. right. by left. }
  destruct (indexOf_elem_of w3 id Hin) as [i Hi].
  unfold setCurrentWidget. rewrite Hi.
  apply indexOf_Some in Hi as (j & -> & Hj).
  pose proof (lookup_lt_Some _ _ _ Hj) as Hlt.
  unfold setCurrentIndex. case_decide as Hcur.
  - (* the new page cannot be the current one *)
    exfalso. destruct Hw as (_ & _ & Hnd & Hdom & Hc).
    unfold w3 in Hj, Hcur. cbn in Hj, Hcur.
    rewrite lookup_app_l in Hj by lia.
    apply Hfresh, Hdom. by eapply list_elem_of_lookup_2.
  - apply toolbars_in_step_tab_changed.
    destruct Hw as (Hsnd & Hk & Hnd & Hdom & Hc).
    unfold tabs_in_step, w3, dict_add in *. cbn in *. split_and!.
    + by rewrite fmap_app, Hsnd.
    + rewrite fmap_app. apply NoDup_app. split; [done|]. split; [|apply NoDup_singleton].
      intros k Hk' ->%list_elem_of_singleton. by apply (dict_get_None _ _ Hget).
    + apply NoDup_app. split; [done|]. split; [|apply NoDup_singleton].
      intros x Hx ->%list_elem_of_singleton. by apply Hfresh, Hdom.
    + intros x [Hx| ->%list_elem_of_singleton]%elem_of_app;
        rewrite dom_insert_L; [|set_solver].
      apply elem_of_union. right. by apply Hdom.
    + lia.
Qed.

Lemma both_in_step_open_selection selected w :
  tabs_in_step w → toolbars_in_step w →
  toolbars_in_step (open_screenshot_by_selection selected w).
Proof.
  unfold open_screenshot_by_selection. revert w.
  induction selected as [|p l IH]; intros w Hw Ht; [done|].
  cbn. apply IH; [by apply open_screenshot_cases
                 |by apply toolbars_in_step_open_screenshot].
Qed.

Lemma toolbars_in_step_close_current response w :
  tabs_in_step w → toolbars_in_step w →
  toolbars_in_step (close_current response w).2.
Proof.
  intros Hw Ht. unfold close_current. case_decide; [done|].
  by apply toolbars_in_step_close_tab.
Qed.

Lemma toolbars_in_step_closeEvent_loop answer_for keys w :
  tabs_in_step w → toolbars_in_step w →
  toolbars_in_step (closeEvent_loop answer_for keys w).2.
Proof.
  revert w. induction keys as [|k keys IH]; intros w Hw Ht; [done|].
  cbn [closeEvent_loop].
  destruct (dict_get _ k) as [id|]; [|done].
  destruct (editors w !! id) as [e|]; [|done].
  destruct (changed e); [|by apply IH].
  pose proof (tabs_in_step_setCurrentWidget id w Hw) as Hw1.
  pose proof (toolbars_in_step_setCurrentWidget id w Hw Ht) as Ht1.
  pose proof (tabs_in_step_close_current (answer_for k) _ Hw1) as Hw2.
  pose proof (toolbars_in_step_close_current (answer_for k) _ Hw1 Ht1) as Ht2.
  destruct (close_current _ _) as [[err|[]] w']; cbn in Hw2, Ht2 |- *; [done| |done].
  by apply IH.
Qed.

Lemma toolbars_in_step_eventFilter ev response w :
  tabs_in_step w → toolbars_in_step w →
  toolbars_in_step (eventFilter ev response w).2.
Proof.
  intros Hw Ht. unfold eventFilter. destruct ev as [i|i|]; [done| |done].
  destruct (_ && _); [|done].
  pose proof (toolbars_in_step_close_tab (Z.to_nat i) response w Hw Ht) as Hc.
  by destruct (close_tab _ _ _) as [[err|b] w'].
Qed.

(** What an event leaves of the editor when it emits nothing. *)
Lemma step_keeps_style e ev :
  (∀ st, ev ≠ SetDrawingStyle st) → drawing_style (step e ev) = drawing_style e.
Proof.
  intros Hev. destruct ev as [u q|u q| |st| | |]; cbn [step].
  - unfold mousePressEvent. destruct u; [|done]. cbn.
    destruct (drawing_style e) eqn:Hds; [by cbn|..];
      unfold scene_addItem; case_decide; cbn; done.
  - destruct (mouseMoveEvent_cases u q e) as [->|(h & it & it' & H)]; [done|].
    apply H.
  - done.
  - by destruct (Hev st).
  - unfold undo. by destruct (pop (items e)) as [[h l]|].
  - unfold redo. destruct (pop (redo_items e)) as [[h l]|]; [|done].
    unfold scene_addItem. by case_decide.
  - done.
Qed.

Lemma step_without_signal e ev :
  emits_items_changed e ev = false →
  items (step e ev) = items e ∧ redo_items (step e ev) = redo_items e.
Proof.
  destruct ev as [u q|u q| |st| | |]; cbn [step emits_items_changed]; try done.
  - unfold mousePressEvent. destruct u; [|done]. cbn [andb].
    intros Hne%bool_decide_eq_false. cbn.
    destruct (drawing_style e); [done|..]; by destruct Hne.
  - intros _. destruct (mouseMoveEvent_cases u q e) as [->|(h & it & it' & H)]; [done|].
    split; apply H.
  - intros Hne%bool_decide_eq_false. unfold undo.
    assert (items e = []) as E by (destruct (items e); [done|by destruct Hne]).
    by rewrite E.
  - intros Hne%bool_decide_eq_false. unfold redo.
    assert (redo_items e = []) as E
      by (destruct (redo_items e); [done|by destruct Hne]).
    by rewrite E.
Qed.

Lemma toolbars_in_step_on_active ev w :
  toolbars_in_step w → toolbars_in_step (on_active ev w).2.
Proof.
  intros Ht. unfold on_active.
  set (w0 := match ev with SetDrawingStyle st => set_checked_style st w | _ => w end).
  destruct (get_active_screenshot_editor w0) as [id|] eqn:Hact; cbn [mbind option_bind];
    [|cbn; unfold w0; destruct ev; try done;
      destruct Ht as (? & ? & H3); unfold toolbars_in_step; split_and!; try done;
      intros id e Hid; unfold w0 in Hact; cbn in Hact, Hid; congruence].
  destruct (editors w0 !! id) as [e|] eqn:He; cbn [fmap option_fmap option_map];
    [|cbn; unfold w0; destruct ev; try done;
      destruct Ht as (? & ? & H3); unfold toolbars_in_step; split_and!; try done;
      intros id' e' Hid' He'; unfold w0 in Hact, He; cbn in Hact, He, Hid', He';
      congruence].
  assert (get_active_screenshot_editor w = Some id) as Hact'
    by (unfold w0 in Hact; by destruct ev).
  assert (editors w !! id = Some e) as He' by (unfold w0 in He; by destruct ev).
  destruct Ht as (H1 & H2 & H3). destruct (H3 id e Hact' He') as (Hs & Hu & Hr).
  assert (edit_toolbar_shown w0 = edit_toolbar_shown w
          ∧ screenshot_toolbar_shown w0 = screenshot_toolbar_shown w
          ∧ current_index w0 = current_index w
          ∧ undo_enabled w0 = undo_enabled w ∧ redo_enabled w0 = redo_enabled w)
    as (E1 & E2 & E3 & E4 & E5) by (unfold w0; by destruct ev).
  assert (drawing_style (step e ev) = checked_style w0) as Hstyle.
  { assert ((∃ st, ev = SetDrawingStyle st) ∨ ∀ st, ev ≠ SetDrawingStyle st)
      as [[st ->]|Hno] by (destruct ev; eauto); [done|].
    rewrite step_keeps_style by done.
    rewrite Hs. unfold w0. destruct ev; try done. by destruct (Hno style). }
  set (w1 := set_editors _ w0).
  assert (get_active_screenshot_editor w1 = Some id) as Hact1 by done.
  assert (editors w1 !! id = Some (step e ev)) as He1
    by (unfold w1; cbn; apply lookup_insert_eq).
  destruct (emits_items_changed e ev) eqn:Hemit; cbn [snd].
  - unfold update_edit_toolbar. rewrite Hact1. cbn [mbind option_bind]. rewrite He1.
    unfold toolbars_in_step. cbn -[step].
    rewrite E1, E2, E3. split_and!; try done.
    intros id' e' Hid' He''. change (get_active_screenshot_editor w1 = Some id') in Hid'.
    rewrite Hact1 in Hid'. injection Hid' as <-.
    rewrite lookup_insert_eq in He''. injection He'' as <-. done.
  - destruct (step_without_signal e ev Hemit) as [Hi Hri].
    unfold toolbars_in_step. cbn -[step].
    rewrite E1, E2, E3, E4, E5. split_and!; try done.
    intros id' e' Hid' He''. change (get_active_screenshot_editor w1 = Some id') in Hid'.
    rewrite Hact1 in Hid'. injection Hid' as <-.
    rewrite lookup_insert_eq in He''. injection He'' as <-.
    rewrite Hi, Hri. done.
Qed.

Lemma both_in_step_apply_wop w o :
  tabs_in_step w → toolbars_in_step w → toolbars_in_step (apply_wop w o).
Proof.
  intros Hw Ht. destruct o; cbn [apply_wop].
  - by apply toolbars_in_step_open_screenshot.
  - by apply both_in_step_open_selection.
  - case_decide; [|done]. by apply toolbars_in_step_setCurrentIndex.
  - by apply toolbars_in_step_close_tab.
  - by apply toolbars_in_step_close_current.
  - by apply toolbars_in_step_closeEvent_loop.
  - by apply toolbars_in_step_eventFilter.
  - by apply toolbars_in_step_on_active.
Qed.

Lemma both_in_step_wrun ops w :
  tabs_in_step w → toolbars_in_step w →
  tabs_in_step (wrun ops w) ∧ toolbars_in_step (wrun ops w).
Proof.
  revert w. induction ops as [|o ops IH]; intros w Hw Ht; [done|].
  cbn. apply IH; [by apply tabs_in_step_apply_wop|by apply both_in_step_apply_wop].
Qed.

(** [undo] changes the editor exactly when the stack has an item, [redo]
    exactly when an item is undone. *)
Lemma undo_redo_items_cases (e : ScreenshotEditor) :
  (items e ≠ [] → undo e ≠ e) ∧ (undo e ≠ e → items e ≠ [])
  ∧ (redo_items e ≠ [] → redo e ≠ e) ∧ (redo e ≠ e → redo_items e ≠ []).
Proof.
  split_and!.
  - intros Hne Heq. apply (f_equal (λ s, length (items s))) in Heq.
    revert Heq. unfold undo.
    destruct (pop (items e)) as [[h l]|] eqn:Hp;
      [apply pop_Some in Hp|by apply pop_None in Hp].
    cbn. rewrite Hp, length_app. cbn. lia.
  - intros Hne Hnil. apply Hne. unfold undo. by rewrite Hnil.
  - intros Hne Heq. apply (f_equal (λ s, length (redo_items s))) in Heq.
    revert Heq. unfold redo, scene_addItem.
    destruct (pop (redo_items e)) as [[h l]|] eqn:Hp;
      [apply pop_Some in Hp|by apply pop_None in Hp].
    case_decide; cbn; rewrite Hp, length_app; cbn; lia.
  - intros Hne Hnil. apply Hne. unfold redo. by rewrite Hnil.
Qed.

(** *** Reachable windows *)

Lemma reachable_in_step ops :
  tabs_in_step (wrun ops init) ∧ toolbars_in_step (wrun ops init).
Proof. apply both_in_step_wrun; [apply tabs_in_step_init|apply toolbars_in_step_init]. Qed.

(** X14: In every state the window reaches, the dict [screenshot_tabs] and the
    tab widget name the same editors in the same order: every open path has
    exactly one page and every editor page exactly one path, no path is open
    twice, and the current index is the index of a page. *)
Theorem tabs_and_dict_agree (ops : list wop) :
  let w := wrun ops init in
  snd <$> screenshot_tabs w = tab_pages w
  ∧ NoDup (fst <$> screenshot_tabs w)
  ∧ NoDup (tab_pages w)
  ∧ (∀ id, id ∈ tab_pages w → is_Some (editors w !! id))
  ∧ (current_index w ≤ length (tab_pages w))%nat
  ∧ (∀ path, is_Some (editor_of w path) ↔ path ∈ fst <$> screenshot_tabs w).
Proof.
  intros w. destruct (reachable_in_step ops) as [Hw _]. fold w in Hw.
  pose proof Hw as (H1 & H2 & H3 & H4 & H5).
  split_and!; try done.
  - intros id Hid. by apply elem_of_dom, H4.
  - intros path. unfold editor_of. split.
    + destruct (dict_get _ path) as [id|] eqn:Hget; [|by intros [? ?]].
      intros _. apply dict_get_Some in Hget.
      by apply (list_elem_of_fmap_2 fst _ (path, id)).
    + intros ([k id] & -> & Hin)%list_elem_of_fmap. cbn.
      rewrite (dict_get_elem_of _ k id H2 Hin). cbn.
      apply elem_of_dom, H4. rewrite <-H1.
      by apply (list_elem_of_fmap_2 snd _ (k, id)).
Qed.

(** X15: In every state the window reaches, the edit toolbar is shown exactly
    when the current tab is an editor and the screenshot toolbar exactly
    when it is the list; the editor of the current tab draws in the style
    that is checked in the toolbar, and the undo and redo actions are
    enabled exactly when that editor has an item to undo or to redo. *)
Theorem toolbars_follow_current_tab (ops : list wop) :
  let w := wrun ops init in
  edit_toolbar_shown w = bool_decide (is_Some (get_active_screenshot_editor w))
  ∧ screenshot_toolbar_shown w = negb (edit_toolbar_shown w)
  ∧ ∀ id e, get_active_screenshot_editor w = Some id → editors w !! id = Some e →
            drawing_style e = checked_style w
            ∧ (undo_enabled w = true ↔ undo e ≠ e)
            ∧ (redo_enabled w = true ↔ redo e ≠ e).
Proof.
  intros w. destruct (reachable_in_step ops) as [Hw (H1 & H2 & H3)].
  fold w in Hw, H1, H2, H3. split_and!.
  - rewrite H1. apply bool_decide_ext. split.
    + intros Hne. destruct (active_is_Some w Hw Hne) as (id & e & -> & _). by eexists.
    + intros [id Hid] H0. unfold get_active_screenshot_editor in Hid.
      by rewrite H0 in Hid.
  - rewrite H1, H2. by destruct (decide (current_index w = 0%nat));
      rewrite ?bool_decide_eq_true_2, ?bool_decide_eq_false_2 by done;
      rewrite ?bool_decide_eq_true_2, ?bool_decide_eq_false_2 by (intros ?; done).
  - intros id e Hid He. destruct (H3 id e Hid He) as (Hs & Hu & Hr).
    split; [done|]. rewrite Hu, Hr, !bool_decide_eq_true.
    destruct (undo_redo_items_cases e) as (Hu1 & Hu2 & Hr1 & Hr2). tauto.
Qed.

(** *** Opening *)

Lemma view_light w w' path : light w w' → view w' path = view w path.
Proof.
  intros (Hd & _ & He & _). unfold view, editor_of. rewrite Hd.
  destruct (dict_get _ path) as [id|]; [|done]. cbn. apply He.
Qed.

Lemma dict_get_absent d key : (key ∉ fst <$> d) → dict_get d key = None.
Proof.
  intros Hk. destruct (dict_get d key) as [id|] eqn:Hget; [|done].
  destruct Hk. apply dict_get_Some in Hget.
  by apply (list_elem_of_fmap_2 fst _ (key, id)).
Qed.

Lemma active_index w id :
  tabs_in_step w → get_active_screenshot_editor w = Some id →
  indexOf w id = Some (current_index w).
Proof.
  intros (_ & _ & Hnd & _) Hact. unfold get_active_screenshot_editor, widget in Hact.
  destruct (current_index w) as [|i]; [done|].
  unfold indexOf.
  assert (list_find (λ page, page = id) (tab_pages w) = Some (i, id)) as ->; [|done].
  apply list_find_Some. split; [done|]. split; [done|].
  intros j y Hj Hlt ->. assert (j = i) by by eapply NoDup_lookup. lia.
Qed.

Lemma open_screenshot_again image_path id w :
  tabs_in_step w → dict_get (screenshot_tabs w) image_path = Some id →
  get_active_screenshot_editor w = Some id →
  open_screenshot image_path w = w.
Proof.
  intros Hw Hget Hact. unfold open_screenshot, setCurrentWidget, setCurrentIndex.
  by rewrite Hget, (active_index w id Hw Hact), decide_True.
Qed.

Lemma same_but_style e e' st :
  set_drawing_style NONE e' = set_drawing_style NONE e → drawing_style e' = st →
  e' = set_drawing_style st e.
Proof. destruct e, e'. cbn. intros H <-. injection H. intros. by subst. Qed.

Lemma open_screenshot_new image_path w :
  tabs_in_step w → toolbars_in_step w →
  dict_get (screenshot_tabs w) image_path = None →
  let w' := open_screenshot image_path w in
  editor_of w' image_path = Some (set_drawing_style (checked_style w) Editor.init)
  ∧ length (tab_pages w') = S (length (tab_pages w))
  ∧ ∀ path, path ≠ image_path → view w' path = view w path.
Proof.
  intros Hw Ht Hget w'.
  pose proof (toolbars_in_step_open_screenshot image_path w Hw Ht) as (_ & _ & Ht').
  destruct (open_screenshot_cases image_path w Hw)
    as (Hw' & (id0 & Hget0 & Hact0) & Hcs & _ & [[[? Hs] _]|(_ & id & Hfresh & Hd & Hp & He)]);
    [congruence|].
  fold w' in Ht', Hw', Hget0, Hact0, Hcs, Hd, Hp, He.
  assert (id0 = id) as ->.
  { apply dict_get_Some in Hget0. rewrite Hd in Hget0.
    apply elem_of_app in Hget0 as [Hin|[= ->]%list_elem_of_singleton]; [|done].
    destruct (dict_get_None _ _ Hget). by apply (list_elem_of_fmap_2 fst _ (image_path, id0)). }
  split_and!.
  - unfold editor_of. rewrite Hget0. cbn.
    pose proof (He id) as Hid. rewrite lookup_insert_eq in Hid.
    destruct (editors w' !! id) as [e'|] eqn:He'; [|done].
    f_equal. apply same_but_style.
    + cbn in Hid. congruence.
    + rewrite <-Hcs. by apply (Ht' id e').
  - rewrite Hp, length_app. cbn. lia.
  - intros path Hne. unfold view, editor_of. rewrite Hd.
    destruct Hw as (Hsnd & Hk & Hnd & Hdom & _).
    destruct (dict_get (screenshot_tabs w) path) as [v|] eqn:Hv.
    + assert (dict_get (screenshot_tabs w ++ [(image_path, id)]) path = Some v) as ->.
      { apply dict_get_elem_of; [rewrite <-Hd; apply Hw'|].
        apply elem_of_app. left. by apply dict_get_Some. }
      cbn. rewrite (He v), lookup_insert_ne; [done|].
      intros <-. apply Hfresh, Hdom. rewrite <-Hsnd.
      apply dict_get_Some in Hv. by apply (list_elem_of_fmap_2 snd _ (path, id)).
    + rewrite dict_get_absent; [done|].
      rewrite fmap_app, elem_of_app. cbn. rewrite list_elem_of_singleton.
      intros [Hin|?]; [|done]. by apply (dict_get_None _ _ Hv).
Qed.

(** X16: In every state the window reaches, [open_screenshot] leaves the editor
    of the path as the current tab, and opening the path again changes
    nothing. A path that is open already gets no second tab: the dict and
    the pages stay as they are and its editor keeps what was drawn. A path
    that is not open gets one new page with a new editor, empty and
    unchanged, drawing in the style checked in the toolbar. *)
Theorem open_screenshot_one_tab_per_path (ops : list wop) (image_path : string) :
  let w := wrun ops init in
  let w' := open_screenshot image_path w in
  (∃ id, dict_get (screenshot_tabs w') image_path = Some id
         ∧ get_active_screenshot_editor w' = Some id)
  ∧ open_screenshot image_path w' = w'
  ∧ (is_Some (editor_of w image_path) →
     screenshot_tabs w' = screenshot_tabs w ∧ tab_pages w' = tab_pages w
     ∧ view w' image_path = view w image_path)
  ∧ (editor_of w image_path = None →
     length (tab_pages w') = S (length (tab_pages w))
     ∧ editor_of w' image_path
       = Some (set_drawing_style (checked_style w) Editor.init)).
Proof.
  intros w w'. destruct (reachable_in_step ops) as [Hw Ht]. fold w in Hw, Ht.
  destruct (open_screenshot_cases image_path w Hw)
    as (Hw' & (id & Hget & Hact) & _ & _ & Hcases). fold w' in Hw', Hget, Hact, Hcases.
  split; [by exists id|]. split; [by eapply open_screenshot_again|].
  assert (editor_of w image_path = None ↔ dict_get (screenshot_tabs w) image_path = None)
    as Hnone.
  { unfold editor_of.
    destruct (dict_get (screenshot_tabs w) image_path) as [v|] eqn:Hv; [|done]. cbn.
    pose proof (dict_value_is_page w _ _ Hw Hv) as Hpage.
    destruct Hw as (_ & _ & _ & Hdom & _). apply Hdom, elem_of_dom in Hpage as [e ->].
    done. }
  split.
  - intros [e He]. destruct Hcases as [[_ Hl]|[Hn _]].
    + split; [apply Hl|]. split; [apply Hl|by apply view_light].
    + apply Hnone in Hn. congruence.
  - intros Hn%Hnone.
    destruct (open_screenshot_new image_path w Hw Ht Hn) as (He & Hlen & _). done.
Qed.

Lemma open_screenshot_one_tab_per_path_witness :
  let w := wrun [OpenScreenshot "/a.png"; OpenScreenshot "/b.png"] init in
  let w' := open_screenshot "/a.png" w in
  is_Some (editor_of w "/a.png") ∧ editor_of w "/c.png" = None
  ∧ (∃ id, dict_get (screenshot_tabs w') "/a.png" = Some id
           ∧ get_active_screenshot_editor w' = Some id)
  ∧ open_screenshot "/a.png" w' = w'
  ∧ (is_Some (editor_of w "/a.png") →
     screenshot_tabs w' = screenshot_tabs w ∧ tab_pages w' = tab_pages w
     ∧ view w' "/a.png" = view w "/a.png")
  ∧ (editor_of w "/a.png" = None →
     length (tab_pages w') = S (length (tab_pages w))
     ∧ editor_of w' "/a.png"
       = Some (set_drawing_style (checked_style w) Editor.init)).
Proof.
  split; [by vm_compute; eexists|]. split; [by vm_compute|].
  apply (open_screenshot_one_tab_per_path
           [OpenScreenshot "/a.png"; OpenScreenshot "/b.png"] "/a.png").
Defined.

(** *** Closing *)

Lemma view_Some w w' path e :
  view w' path = view w path → editor_of w path = Some e →
  ∃ e', editor_of w' path = Some e' ∧ changed e' = changed e.
Proof.
  unfold view. intros Hv He. rewrite He in Hv.
  destruct (editor_of w' path) as [e'|]; [|done]. exists e'. split; [done|].
  cbn in Hv. injection Hv. by destruct e, e'.
Qed.

Lemma view_None w path : view w path = None ↔ editor_of w path = None.
Proof. unfold view. by destruct (editor_of w path). Qed.

(** A closing [close_tab] forgets the path of the page it closes and leaves
    the editors of the other paths alone. *)
Lemma close_tab_frame i id k response w w' :
  tabs_in_step w → tab_pages w !! i = Some id →
  dict_get (screenshot_tabs w) k = Some id →
  close_tab (S i) response w = (inr true, w') →
  tabs_in_step w'
  ∧ tab_pages w' = delete i (tab_pages w)
  ∧ editor_of w' k = None
  ∧ ∀ path, path ≠ k → view w' path = view w path.
Proof.
  intros Hw Hi Hk Hclose.
  destruct (close_tab_cases (S i) response w Hw)
    as [[? _]|[[Hlt _]|(i' & id' & e & [= <-] & Hi' & He & Hcases)]];
    [done|apply lookup_lt_Some in Hi; lia|].
  assert (id' = id) as -> by congruence. clear Hi'.
  destruct Hcases as [(_ & _ & Hr)|(_ & w'' & Hr & Hw' & Hd' & Hp' & _ & _ & Hm)];
    [congruence|].
  assert (w'' = w') as -> by congruence. clear Hr Hclose.
  destruct (split_at_page w i id Hw Hi) as (d1 & k' & d2 & Hd & _ & H1 & H2 & Hf & _).
  rewrite Hf in Hd'.
  pose proof Hw as (_ & Hkeys & _). rewrite Hd in Hkeys.
  assert (∀ path v, (path, v) ∈ d1 ++ d2 → (path, v) ∈ d1 ++ (k', id) :: d2) as Hsub.
  { intros path v. rewrite !elem_of_app, elem_of_cons. tauto. }
  assert (∀ path v, (path, v) ∈ d1 ++ d2 → v ≠ id) as Hother.
  { intros path v [Hin|Hin]%elem_of_app ->.
    - by apply H1, (list_elem_of_fmap_2 snd _ (path, id)).
    - by apply H2, (list_elem_of_fmap_2 snd _ (path, id)). }
  assert (k' = k) as ->.
  { apply dict_get_Some in Hk. rewrite Hd in Hk.
    apply elem_of_app in Hk as [Hin|[[= ->]|Hin]%elem_of_cons]; [|done|].
    - destruct H1. by apply (list_elem_of_fmap_2 snd _ (k, id)).
    - destruct H2. by apply (list_elem_of_fmap_2 snd _ (k, id)). }
  split; [done|]. split; [done|]. split.
  - unfold editor_of. rewrite Hd', dict_get_absent; [done|].
    rewrite fmap_app, fmap_cons in Hkeys. cbn in Hkeys.
    apply NoDup_app in Hkeys as (_ & H12 & [Hk2 _]%NoDup_cons).
    rewrite fmap_app, elem_of_app. intros [Hin|Hin]; [|done].
    apply (H12 k Hin). by left.
  - intros path Hne. unfold view, editor_of. rewrite Hd', Hd.
    destruct (dict_get (d1 ++ d2) path) as [v|] eqn:Hv.
    + apply dict_get_Some in Hv.
      rewrite (dict_get_elem_of _ path v Hkeys (Hsub _ _ Hv)). cbn.
      rewrite (Hm v). pose proof (Hother _ _ Hv).
      destruct (changed e && bool_decide (response = AnswerSave)); [|done].
      by rewrite lookup_insert_ne.
    + apply dict_get_None in Hv. rewrite dict_get_absent; [done|].
      intros Hin. apply Hv. revert Hin.
      rewrite !fmap_app, fmap_cons, !elem_of_app, elem_of_cons. cbn. tauto.
Qed.

(** X17: In every state the window reaches, [close_tab] refuses the first tab
    with [False] and raises [AttributeError] for an index past the last tab,
    both without a change. For the tab of an editor it returns [False]
    without a change when the editor has unsaved changes and the user
    cancels; in every other case it returns [True], that one page is gone
    from the tab widget, the path of the editor is open no more, and every
    other path keeps its editor with all that was drawn in it. *)
Theorem close_tab_closes_that_tab_only
    (ops : list wop) (index : nat) (response : answer) :
  let w := wrun ops init in
  let r := close_tab index response w in
  (index = 0%nat → r = (inr false, w))
  ∧ ((length (tab_pages w) < index)%nat → r = (inl WAttributeError, w))
  ∧ ∀ id e, widget w index = Some id → editors w !! id = Some e →
      if changed e && bool_decide (response = AnswerCancel)
      then r = (inr false, w)
      else r.1 = inr true
           ∧ tab_pages r.2 = delete (index - 1)%nat (tab_pages w)
           ∧ ∃ k, dict_get (screenshot_tabs w) k = Some id
                  ∧ editor_of r.2 k = None
                  ∧ ∀ path, path ≠ k → view r.2 path = view w path.
Proof.
  intros w r. destruct (reachable_in_step ops) as [Hw _]. fold w in Hw.
  subst r. clearbody w. split; [by intros ->|]. split.
  - intros Hlt.
    destruct (close_tab_cases index response w Hw)
      as [[-> _]|[[_ Hr]|(i & id & e & -> & Hi & _)]]; [cbn in Hlt; lia|done|].
    apply lookup_lt_Some in Hi. lia.
  - intros id e Hwid He.
    destruct (close_tab_cases index response w Hw)
      as [[-> _]|[[Hlt _]|(i & id' & e' & -> & Hi & He' & Hcases)]]; [done|..].
    { destruct index as [|i]; [done|]. cbn in Hwid. apply lookup_lt_Some in Hwid. lia. }
    cbn in Hwid. assert (id' = id) as -> by congruence.
    assert (e' = e) as -> by congruence.
    destruct Hcases as [(-> & -> & Hr)|(Hnot & w' & Hr & _)]; [done|].
    assert (changed e && bool_decide (response = AnswerCancel) = false) as ->.
    { apply not_true_is_false. rewrite andb_true_iff, bool_decide_eq_true. tauto. }
    rewrite Hr. cbn [fst snd]. split; [done|].
    destruct (split_at_page w i id Hw Hi) as (d1 & k & d2 & Hd & _).
    assert (dict_get (screenshot_tabs w) k = Some id) as Hk.
    { apply dict_get_elem_of; [apply Hw|]. rewrite Hd, elem_of_app. right. by left. }
    destruct (close_tab_frame i id k response w w' Hw Hi Hk Hr) as (_ & Hp & Hnone & Hrest).
    split; [by replace (S i - 1)%nat with i by lia|]. by exists k.
Qed.

Lemma close_tab_closes_that_tab_only_witness :
  let w := wrun [OpenScreenshot "/a.png"; OnActive (SetDrawingStyle PEN);
                 OnActive (MousePress true (mkPoint 0 0));
                 OnActive (MouseMove true (mkPoint 1 1));
                 OpenScreenshot "/b.png"] init in
  widget w 1 = Some 0%nat
  ∧ (∃ e, editors w !! 0%nat = Some e ∧ changed e = true)
  ∧ close_tab 1 AnswerCancel w = (inr false, w)
  ∧ (close_tab 1 AnswerDiscard w).1 = inr true
  ∧ editor_of (close_tab 1 AnswerDiscard w).2 "/a.png" = None
  ∧ is_Some (editor_of (close_tab 1 AnswerDiscard w).2 "/b.png").
Proof.
  set (ops := [OpenScreenshot "/a.png"; OnActive (SetDrawingStyle PEN);
               OnActive (MousePress true (mkPoint 0 0));
               OnActive (MouseMove true (mkPoint 1 1)); OpenScreenshot "/b.png"]).
  intros w.
  assert (widget w 1 = Some 0%nat) as Hwid by by vm_compute.
  assert (∃ e, editors w !! 0%nat = Some e ∧ changed e = true) as (e & He & Hch).
  { vm_compute. eexists. split; reflexivity. }
  split; [done|]. split; [by exists e|].
  pose proof (close_tab_closes_that_tab_only ops 1 AnswerCancel) as (_ & _ & Hc).
  specialize (Hc 0%nat e Hwid He). rewrite Hch in Hc. cbn in Hc.
  split; [exact Hc|]. split; [by vm_compute|]. split; [by vm_compute|].
  vm_compute. by eexists.
Defined.

(** *** Closing the window *)

Lemma editor_of_Some w path e :
  editor_of w path = Some e →
  ∃ id, dict_get (screenshot_tabs w) path = Some id ∧ editors w !! id = Some e.
Proof.
  unfold editor_of. destruct (dict_get _ path) as [id|]; [|done]. cbn. eauto.
Qed.

(** [close_current] after [setCurrentWidget] of an editor with unsaved
    changes: the user cancels and nothing but the current tab changes, or
    the editor is closed. *)
Lemma close_after_select k id e response w :
  tabs_in_step w → dict_get (screenshot_tabs w) k = Some id →
  editors w !! id = Some e → changed e = true →
  let w1 := setCurrentWidget id w in
  (response = AnswerCancel ∧ close_current response w1 = (inr false, w1)
   ∧ light w w1)
  ∨ (response ≠ AnswerCancel
     ∧ ∃ w2, close_current response w1 = (inr true, w2)
             ∧ tabs_in_step w2 ∧ editor_of w2 k = None
             ∧ ∀ path, path ≠ k → view w2 path = view w path).
Proof.
  intros Hw Hk He Hch w1.
  pose proof (dict_value_is_page w k id Hw Hk) as Hpage.
  destruct (light_setCurrentWidget id w) as (Hl & _ & Hact). specialize (Hact Hpage).
  pose proof (tabs_in_step_setCurrentWidget id w Hw) as Hw1. fold w1 in Hl, Hact, Hw1.
  assert (dict_get (screenshot_tabs w1) k = Some id) as Hk1.
  { destruct Hl as (-> & _). done. }
  assert (∃ e1, editors w1 !! id = Some e1 ∧ changed e1 = true) as (e1 & He1 & Hch1).
  { destruct (view_Some w w1 k e (view_light w w1 k Hl)) as (e1 & He1 & Hch1).
    - unfold editor_of. by rewrite Hk.
    - unfold editor_of in He1. rewrite Hk1 in He1. exists e1. split; [done|congruence]. }
  unfold close_current. unfold get_active_screenshot_editor in Hact.
  destruct (current_index w1) as [|i] eqn:Hci; [done|]. cbn in Hact.
  rewrite decide_False by done.
  destruct (close_tab_cases (S i) response w1 Hw1)
    as [[? _]|[[Hlt _]|(i' & id' & e' & [= <-] & Hi' & He' & Hcases)]];
    [done|apply lookup_lt_Some in Hact; lia|].
  assert (id' = id) as -> by congruence. assert (e' = e1) as -> by congruence.
  destruct Hcases as [(_ & -> & Hr)|(Hnot & w2 & Hr & _)].
  - left. by rewrite Hr.
  - right. split; [intros ->; by apply Hnot|]. exists w2. split; [done|].
    destruct (close_tab_frame i id k response w1 w2 Hw1 Hact Hk1 Hr)
      as (Hw2 & _ & Hnone & Hrest).
    split_and!; try done.
    intros path Hne. rewrite (Hrest path Hne). by apply view_light.
Qed.

Lemma closeEvent_loop_spec answer_for keys : ∀ w,
  tabs_in_step w → NoDup keys → (∀ k, k ∈ keys → is_Some (editor_of w k)) →
  ∃ accepted w',
    closeEvent_loop answer_for keys w = (inr accepted, w')
    ∧ (∀ path, path ∉ keys → view w' path = view w path)
    ∧ (∀ path e, editor_of w path = Some e → changed e = false →
                 view w' path = view w path)
    ∧ (accepted = true →
       ∀ path e, path ∈ keys → editor_of w path = Some e → changed e = true →
                 answer_for path ≠ AnswerCancel ∧ editor_of w' path = None)
    ∧ (accepted = false →
       ∃ path e, path ∈ keys ∧ editor_of w' path = Some e ∧ changed e = true
                 ∧ answer_for path = AnswerCancel).
Proof.
  induction keys as [|k rest IH]; intros w Hw Hnd Hkeys.
  - exists true, w. split_and!; try done. intros _ path e Hin. by apply elem_of_nil in Hin.
  - apply NoDup_cons in Hnd as [Hk Hnd].
    destruct (Hkeys k) as [e He]; [by left|].
    pose proof He as (id & Hget & Hid)%editor_of_Some.
    cbn [closeEvent_loop]. rewrite Hget, Hid.
    destruct (changed e) eqn:Hch.
    + destruct (close_after_select k id e (answer_for k) w Hw Hget Hid Hch)
        as [(Hans & -> & Hl)|(Hans & w2 & -> & Hw2 & Hnone & Hrest)].
      * exists false, (setCurrentWidget id w). split; [done|].
        split; [intros; by apply view_light|]. split; [intros; by apply view_light|].
        split; [done|]. intros _.
        destruct (view_Some w (setCurrentWidget id w) k e (view_light _ _ k Hl) He)
          as (e1 & He1 & Hch1).
        exists k, e1. split; [by left|]. split; [done|]. split; [congruence|done].
      * destruct (IH w2 Hw2 Hnd) as (accepted & w' & Hloop & Hframe & Hsame & Hacc & Hrej).
        { intros k' Hin. assert (k' ≠ k) as Hne by (by intros ->).
          destruct (Hkeys k') as [e' He']; [by right|].
          destruct (view_Some w w2 k' e' (Hrest k' Hne) He') as (e2 & -> & _). done. }
        exists accepted, w'. split; [done|]. split_and!.
        -- intros path [Hne Hnin]%not_elem_of_cons.
           by rewrite (Hframe path Hnin), (Hrest path Hne).
        -- intros path e' He' Hch'.
           assert (path ≠ k) as Hne by (intros ->; congruence).
           destruct (view_Some w w2 path e' (Hrest path Hne) He') as (e2 & He2 & Hch2).
           rewrite (Hsame path e2 He2) by congruence. by apply Hrest.
        -- intros Ha path e' [->|Hin]%elem_of_cons He' Hch'.
           ++ split; [done|]. apply view_None. rewrite (Hframe k Hk). by apply view_None.
           ++ assert (path ≠ k) as Hne by (by intros ->).
              destruct (view_Some w w2 path e' (Hrest path Hne) He') as (e2 & He2 & Hch2).
              apply (Hacc Ha path e2 Hin He2). congruence.
        -- intros Ha. destruct (Hrej Ha) as (path & e' & Hin & ?).
           exists path, e'. split; [by right|done].
    + destruct (IH w Hw Hnd) as (accepted & w' & Hloop & Hframe & Hsame & Hacc & Hrej).
      { intros k' Hin. apply Hkeys. by right. }
      exists accepted, w'. split; [done|]. split_and!.
      * intros path [_ Hnin]%not_elem_of_cons. by apply Hframe.
      * done.
      * intros Ha path e' [->|Hin]%elem_of_cons He' Hch'; [congruence|].
        by apply (Hacc Ha path e').
      * intros Ha. destruct (Hrej Ha) as (path & e' & Hin & ?).
        exists path, e'. split; [by right|done].
Qed.

(** X18: In every state the window reaches, [closeEvent] does not raise, and it
    decides with the user about every editor with unsaved changes. When the
    event is accepted, no editor with unsaved changes is open any more: each
    one was closed after the user answered save or discard. When the event
    is ignored, the user has cancelled for an editor with unsaved changes,
    and that editor is still open with its changes. Either way the editors
    without unsaved changes stay open as they are. *)
Theorem closeEvent_keeps_unsaved_changes
    (ops : list wop) (answer_for : string → answer) :
  let w := wrun ops init in
  let r := closeEvent answer_for w in
  ∃ accepted,
    r.1 = inr accepted
    ∧ (∀ path e, editor_of w path = Some e → changed e = false →
                 view r.2 path = view w path)
    ∧ (accepted = true →
       (∀ path e, editor_of r.2 path = Some e → changed e = false)
       ∧ ∀ path e, editor_of w path = Some e → changed e = true →
                   answer_for path ≠ AnswerCancel ∧ editor_of r.2 path = None)
    ∧ (accepted = false →
       ∃ path e, editor_of r.2 path = Some e ∧ changed e = true
                 ∧ answer_for path = AnswerCancel).
Proof.
  intros w r. destruct (reachable_in_step ops) as [Hw _]. fold w in Hw.
  subst r. clearbody w. unfold closeEvent.
  assert (∀ k, k ∈ fst <$> screenshot_tabs w ↔ is_Some (editor_of w k)) as Hkeys.
  { intros k. unfold editor_of. split.
    - intros Hin. destruct (dict_get (screenshot_tabs w) k) as [id|] eqn:Hget.
      + cbn. apply elem_of_dom, Hw. by eapply dict_value_is_page.
      + by apply dict_get_None in Hget.
    - intros [e He]. destruct (dict_get (screenshot_tabs w) k) as [id|] eqn:Hget; [|done].
      apply dict_get_Some in Hget. by apply (list_elem_of_fmap_2 fst _ (k, id)). }
  destruct (closeEvent_loop_spec answer_for (fst <$> screenshot_tabs w) w Hw)
    as (accepted & w' & -> & Hframe & Hsame & Hacc & Hrej); [apply Hw|by intros k ?%Hkeys|].
  exists accepted. cbn [fst snd]. split; [done|]. split; [done|]. split.
  - intros Ha. split.
    + intros path e' He'.
      destruct (editor_of w path) as [e|] eqn:He.
      * destruct (changed e) eqn:Hch.
        -- destruct (Hacc Ha path e) as [_ Hnone]; [apply Hkeys; by rewrite He|done..|].
           congruence.
        -- destruct (view_Some w w' path e (Hsame path e He Hch) He) as (e2 & He2 & Hch2).
           congruence.
      * assert (view w' path = None) as Hv%view_None; [|congruence].
        rewrite Hframe; [by apply view_None|]. rewrite Hkeys, He. by intros [? ?].
    + intros path e He Hch. apply (Hacc Ha path e); [|done..].
      apply Hkeys. by rewrite He.
  - intros Ha. destruct (Hrej Ha) as (path & e & _ & ?). by exists path, e.
Qed.

Lemma closeEvent_keeps_unsaved_changes_witness :
  let w := wrun [OpenScreenshot "/a.png"; OnActive (SetDrawingStyle PEN);
                 OnActive (MousePress true (mkPoint 0 0));
                 OnActive (MouseMove true (mkPoint 1 1));
                 OpenScreenshot "/b.png"] init in
  (closeEvent (λ _, AnswerCancel) w).1 = inr false
  ∧ (closeEvent (λ _, AnswerDiscard) w).1 = inr true
  ∧ ∃ accepted,
      (closeEvent (λ _, AnswerDiscard) w).1 = inr accepted
      ∧ (∀ path e, editor_of w path = Some e → changed e = false →
                   view (closeEvent (λ _, AnswerDiscard) w).2 path = view w path)
      ∧ (accepted = true →
         (∀ path e, editor_of (closeEvent (λ _, AnswerDiscard) w).2 path = Some e →
                    changed e = false)
         ∧ ∀ path e, editor_of w path = Some e → changed e = true →
                     (λ _, AnswerDiscard) path ≠ AnswerCancel
                     ∧ editor_of (closeEvent (λ _, AnswerDiscard) w).2 path = None)
      ∧ (accepted = false →
         ∃ path e, editor_of (closeEvent (λ _, AnswerDiscard) w).2 path = Some e
                   ∧ changed e = true ∧ (λ _, AnswerDiscard) path = AnswerCancel).
Proof.
  split; [by vm_compute|]. split; [by vm_compute|].
  apply (closeEvent_keeps_unsaved_changes
           [OpenScreenshot "/a.png"; OnActive (SetDrawingStyle PEN);
            OnActive (MousePress true (mkPoint 0 0));
            OnActive (MouseMove true (mkPoint 1 1));
            OpenScreenshot "/b.png"] (λ _, AnswerDiscard)).
Defined.

(** *** Closing and opening again *)

(** X19: In every state the window reaches, a path whose tab was closed opens
    again in a new editor: empty, with nothing to undo or redo and no
    unsaved changes, in the checked drawing style. What was drawn in the
    closed editor is not brought back. *)
Theorem reopened_screenshot_starts_empty
    (ops : list wop) (index : nat) (response : answer) (image_path : string)
    (id : nat)
    (Hpage : widget (wrun ops init) index = Some id)
    (Hpath : dict_get (screenshot_tabs (wrun ops init)) image_path = Some id)
    (Hclosed : (close_tab index response (wrun ops init)).1 = inr true) :
  let w := wrun ops init in
  let w' := (close_tab index response w).2 in
  editor_of w' image_path = None
  ∧ editor_of (open_screenshot image_path w') image_path
    = Some (set_drawing_style (checked_style w) Editor.init).
Proof.
  intros w w'. fold w in Hpage, Hpath, Hclosed.
  destruct (reachable_in_step ops) as [Hw _]. fold w in Hw.
  destruct (reachable_in_step (ops ++ [CloseTab index response])) as [Hw' Ht'].
  unfold wrun in Hw', Ht'. rewrite foldl_app in Hw', Ht'. cbn in Hw', Ht'.
  fold (wrun ops init) in Hw', Ht'. fold w in Hw', Ht'. fold w' in Hw', Ht'.
  destruct index as [|i]; [done|]. cbn in Hpage.
  destruct (close_tab (S i) response w) as [[err|[|]] w2] eqn:Hr; try done.
  cbn in w'. subst w'.
  destruct (close_tab_frame i id image_path response w w2 Hw Hpage Hpath Hr)
    as (_ & _ & Hnone & _).
  split; [done|].
  assert (checked_style w2 = checked_style w) as <-.
  { destruct (close_tab_cases (S i) response w Hw)
      as [[? _]|[[_ Hr']|(i' & id' & e & _ & _ & _ & [(_ & _ & Hr')|(_ & w'' & Hr' & Hrest)])]];
      [done|congruence..|].
    assert (w'' = w2) as -> by congruence. apply Hrest. }
  apply open_screenshot_new; [done..|].
  unfold editor_of in Hnone.
  destruct (dict_get (screenshot_tabs w2) image_path) as [v|] eqn:Hv; [|done].
  cbn in Hnone. pose proof (dict_value_is_page w2 _ _ Hw' Hv) as Hin.
  destruct Hw' as (_ & _ & _ & Hdom & _). apply Hdom, elem_of_dom in Hin as [e He].
  congruence.
Qed.

Lemma reopened_screenshot_starts_empty_witness :
  let w := wrun [OpenScreenshot "/a.png"; OnActive (SetDrawingStyle PEN);
                 OnActive (MousePress true (mkPoint 0 0));
                 OnActive (MouseMove true (mkPoint 1 1))] init in
  let w' := (close_tab 1 AnswerSave w).2 in
  (∃ e, editor_of w "/a.png" = Some e ∧ items e ≠ [])
  ∧ editor_of w' "/a.png" = None
  ∧ editor_of (open_screenshot "/a.png" w') "/a.png"
    = Some (set_drawing_style (checked_style w) Editor.init).
Proof.
  split; [vm_compute; eexists; by split|].
  by apply (reopened_screenshot_starts_empty
              [OpenScreenshot "/a.png"; OnActive (SetDrawingStyle PEN);
               OnActive (MousePress true (mkPoint 0 0));
               OnActive (MouseMove true (mkPoint 1 1))] 1 AnswerSave "/a.png" 0%nat).
Defined.

(** *** The middle button on the tab bar *)

(** X20: In every state the window reaches, a middle button press on the tab bar
    followed by the release is consumed and does not raise, for the tab
    indexes [tabAt] gives (-1 off the tabs). The release closes a tab only
    when it is over the tab of the press and that tab is not the first one;
    otherwise nothing changes. When it is, the page of that tab goes unless
    its editor has unsaved changes and the user cancels. Afterwards
    [previousMiddleIndex] is -1. *)
Theorem middle_click_closes_pressed_tab
    (ops : list wop) (pressed released : Z) (response : answer)
    (Hrange : -1 ≤ released ≤ Z.of_nat (length (tab_pages (wrun ops init)))) :
  let w := wrun ops init in
  let w1 := (eventFilter (MiddlePress pressed) response w).2 in
  let r := eventFilter (MiddleRelease released) response w1 in
  ∃ w', r = (inr true, w')
    ∧ previousMiddleIndex w' = -1
    ∧ (released ≠ pressed ∨ released ≤ 0 → w' = set_previousMiddleIndex (-1) w)
    ∧ (released = pressed → 0 < released →
       ∃ id e, widget w (Z.to_nat released) = Some id ∧ editors w !! id = Some e
               ∧ tab_pages w'
                 = if changed e && bool_decide (response = AnswerCancel)
                   then tab_pages w
                   else delete (Z.to_nat released - 1)%nat (tab_pages w)).
Proof.
  intros w w1 r. fold w in Hrange.
  destruct (reachable_in_step ops) as [Hw _]. fold w in Hw.
  assert (tabs_in_step w1) as Hw1 by (by apply tabs_in_step_eventFilter).
  assert (w1 = set_previousMiddleIndex pressed w) as Ew1 by done.
  subst r. clearbody w. unfold eventFilter at 1.
  assert (previousMiddleIndex w1 = pressed) as -> by by rewrite Ew1.
  assert (set_previousMiddleIndex (-1) w1 = set_previousMiddleIndex (-1) w) as Eset
    by by rewrite Ew1.
  destruct (decide (released = -1)) as [->|Hne].
  { cbn [bool_decide decide_rel andb]. rewrite bool_decide_eq_false_2 by (by intros ?).
    cbn [andb]. exists (set_previousMiddleIndex (-1) w1).
    split_and!; [done|done|done|lia]. }
  rewrite (bool_decide_eq_true_2 (released ≠ -1)) by done. cbn [andb].
  destruct (decide (released = pressed)) as [<-|Hnp].
  2: { rewrite bool_decide_eq_false_2 by done.
       exists (set_previousMiddleIndex (-1) w1). split_and!; [done|done|done|done]. }
  rewrite bool_decide_eq_true_2 by done.
  destruct (close_tab_cases (Z.to_nat released) response w1 Hw1)
    as [[H0 ->]|[[Hlt _]|(i & id & e & Hi & Hp & He & Hcases)]].
  - exists (set_previousMiddleIndex (-1) w1). split_and!; [done|done|done|lia].
  - rewrite Ew1 in Hlt. cbn in Hlt. lia.
  - rewrite Ew1 in Hp, He. cbn [tab_pages editors set_previousMiddleIndex] in Hp, He.
    destruct Hcases as [(Hch & -> & ->)|(Hnot & w' & -> & _ & _ & Hpages & _)].
    + exists (set_previousMiddleIndex (-1) w1). split_and!; [done|done|done|].
      intros _ _. exists id, e. rewrite Hi. cbn [widget].
      split; [done|]. split; [done|]. by rewrite Hch.
    + exists (set_previousMiddleIndex (-1) w'). split_and!; [done|done|lia|].
      intros _ _. exists id, e. rewrite Hi. cbn [widget].
      split; [done|]. split; [done|].
      assert (changed e && bool_decide (response = AnswerCancel) = false) as ->.
      { apply not_true_is_false. rewrite andb_true_iff, bool_decide_eq_true. tauto. }
      cbn [tab_pages set_previousMiddleIndex]. rewrite Hpages, Ew1.
      cbn [tab_pages set_previousMiddleIndex]. by replace (S i - 1)%nat with i by lia.
Qed.

Lemma middle_click_closes_pressed_tab_witness :
  let w := wrun [OpenScreenshot "/a.png"; OpenScreenshot "/b.png"] init in
  let w1 := (eventFilter (MiddlePress 1) AnswerSave w).2 in
  -1 ≤ 1 ≤ Z.of_nat (length (tab_pages w))
  ∧ ∃ w', eventFilter (MiddleRelease 1) AnswerSave w1 = (inr true, w')
          ∧ tab_pages w' = delete 0%nat (tab_pages w).
Proof.
  intros w w1.
  assert (-1 ≤ 1 ≤ Z.of_nat (length (tab_pages w))) as Hrange by by vm_compute.
  split; [done|].
  destruct (middle_click_closes_pressed_tab
              [OpenScreenshot "/a.png"; OpenScreenshot "/b.png"] 1 1 AnswerSave Hrange)
    as (w' & Hr & _ & _ & Hclose).
  exists w'. split; [exact Hr|].
  destruct (Hclose eq_refl) as (id & e & Hid & He & ->); [lia|].
  vm_compute in Hid. injection Hid as <-. vm_compute in He. injection He as <-.
  reflexivity.
Defined.

End WindowFacts.
